(** * Planner/executor core of the command bot: a shallow embedding.

    The development follows [src/bots/command_bot5.py] (the richest
    variant of the command-queue bot): the Navigator
    ([bfs_to_adjacent]), the Command framework, the Plan Compiler
    ([RecipePlanner.build_commands_for_order]), the Order Selector and
    the Executor loop ([BotPlayer.play_turn]).

    Python integers are [Z]; Python sets are [gset]; tuples [(x, y)] are
    pairs; [None]-or-value results are [option]. *)

From stdpp Require Import base decidable numbers option list sets gmap strings
  sorting.
From Stdlib Require Import ZArith Lia.

Local Open Scope Z_scope.
#[local] Set Warnings "-clear-no-such-hyp".

(** ** Grid data *)

Definition Cell : Type := Z * Z.
Definition Step : Type := Z * Z.

(** An item lying on a tile (the engine's [Food], [Plate] and [Pan]
    objects).  [hasattr(food, "cooked_stage")] and [food_name] hold for
    every [Food]. *)
Record Food := mkFood {
  food_name : string;
  chopped : bool;
  cooked_stage : Z
}.

Inductive Item :=
| ItFood (f : Food)
| ItPlate (dirty : bool) (foods : list Food)
| ItPan (content : option Food).

Record Tile := mkTile {
  tile_name : string;
  is_walkable : bool;
  item : option Item
}.

(** [m.tiles[x][y]] is only ever read after a bounds check or inside
    [range(m.width)] x [range(m.height)], so the tile table is a function
    of the coordinates. *)
Record GameMap := mkMap {
  width : Z;
  height : Z;
  tiles : Z -> Z -> Tile
}.

(** [max(abs(x - gx), abs(y - gy))] *)
Definition chebyshev (a b : Cell) : Z :=
  Z.max (Z.abs (a.1 - b.1)) (Z.abs (a.2 - b.2)).

(** [max(abs(x - gx), abs(y - gy)) <= 1] *)
Definition adjacent (a b : Cell) : bool := chebyshev a b <=? 1.

Definition move (c : Cell) (d : Step) : Cell := (c.1 + d.1, c.2 + d.2).

(** ** Navigator *)

Module Navigator.

(** [for dx in [-1, 0, 1]: for dy in [-1, 0, 1]] in enumeration order. *)
Definition directions : list Step :=
  dx ← [-1; 0; 1]; dy ← [-1; 0; 1]; [(dx, dy)].

Definition in_bounds (m : GameMap) (c : Cell) : bool :=
  (0 <=? c.1) && (c.1 <? width m) && (0 <=? c.2) && (c.2 <? height m).

Section Bfs.
Variable m : GameMap.
Variable occupied : gset Cell.
Variable start goal : Cell.

Definition QueueEntry : Type := Cell * list Step.

(** One iteration of the inner double loop, for the direction [d] out
    of the popped cell [(x, y)] reached by [path]. *)
Definition visit (c : Cell) (path : list Step)
    (st : list QueueEntry * gset Cell) (d : Step)
    : list QueueEntry * gset Cell :=
  let '(queue, visited) := st in
  if (d.1 =? 0) && (d.2 =? 0) then st
  else
    let n := move c d in
    if bool_decide (n ∈ visited) then st
    else if negb (in_bounds m n) then st
    else if bool_decide (n ∈ occupied) && negb (bool_decide (n = start)) then st
    else if negb (is_walkable (tiles m n.1 n.2)) then st
    else (queue ++ [(n, path ++ [d])], {[n]} ∪ visited).

Definition expand (c : Cell) (path : list Step)
    (queue : list QueueEntry) (visited : gset Cell)
    : list QueueEntry * gset Cell :=
  foldl (visit c path) (queue, visited) directions.

(** The [while queue:] loop.  The outer [option] is [None] only when
    the fuel runs out; the inner one is the Python return value. *)
Fixpoint bfs_loop (fuel : nat) (queue : list QueueEntry)
    (visited : gset Cell) : option (option Step) :=
  match fuel with
  | O => None
  | S fuel' =>
    match queue with
    | [] => Some None
    | (c, path) :: rest =>
      if adjacent c goal then Some (head path)
      else
        let '(queue', visited') := expand c path rest visited in
        bfs_loop fuel' queue' visited'
    end
  end.

(** All cells of the grid, as [range(m.width)] x [range(m.height)]. *)
Definition grid_cells : list Cell :=
  x ← seqZ 0 (width m); y ← seqZ 0 (height m); [(x, y)].

Definition grid_set : gset Cell := list_to_set grid_cells.

(** Enough iterations for every cell to be enqueued and popped once. *)
Definition bfs_fuel : nat := (2 * size grid_set + 2)%nat.

Definition bfs_to_adjacent : option Step :=
  if adjacent start goal then None
  else
    match bfs_loop bfs_fuel [(start, [])] {[start]} with
    | Some r => r
    | None => None
    end.

(** *** Walks on the grid

    A cell can be entered when it passes the four [continue] guards of
    the inner loop other than the [visited] one. *)
Definition enterable (c : Cell) : bool :=
  in_bounds m c
  && negb (bool_decide (c ∈ occupied) && negb (bool_decide (c = start)))
  && is_walkable (tiles m c.1 c.2).

Definition valid_dir (d : Step) : Prop := d ∈ directions ∧ d ≠ (0, 0).

(** [walk a p b]: following the relative steps [p] from [a] ends in
    [b], and every step enters an enterable cell. *)
Inductive walk : Cell -> list Step -> Cell -> Prop :=
| walk_nil c : walk c [] c
| walk_cons c d p c' :
    valid_dir d -> enterable (move c d) = true ->
    walk (move c d) p c' -> walk c (d :: p) c'.

Definition fresh (visited : gset Cell) (c : Cell) (d : Step) : bool :=
  negb ((d.1 =? 0) && (d.2 =? 0))
  && negb (bool_decide (move c d ∈ visited))
  && enterable (move c d).

Lemma visit_eq c path queue visited d :
  visit c path (queue, visited) d =
  if fresh visited c d
  then (queue ++ [(move c d, path ++ [d])], {[move c d]} ∪ visited)
  else (queue, visited).
Proof.
  unfold visit, fresh, enterable.
  destruct ((d.1 =? 0) && (d.2 =? 0)); simpl; [done|].
  destruct (bool_decide (move c d ∈ visited)); simpl; [done|].
  destruct (in_bounds m (move c d)); simpl; [|done].
  destruct (bool_decide (move c d ∈ occupied) && negb (bool_decide (move c d = start)));
    simpl; [done|].
  by destruct (is_walkable _).
Qed.

Lemma walk_snoc a p b d :
  walk a p b -> valid_dir d -> enterable (move b d) = true ->
  walk a (p ++ [d]) (move b d).
Proof.
  induction 1 as [c|c d' p c' Hd' He' _ IH]; intros Hd He; simpl.
  - apply walk_cons; [done..|apply walk_nil].
  - apply walk_cons; auto.
Qed.

Lemma walk_snoc_inv a p c :
  walk a p c ->
  (p = [] ∧ c = a) ∨
  ∃ p0 d b, p = p0 ++ [d] ∧ walk a p0 b ∧ valid_dir d
            ∧ enterable (move b d) = true ∧ c = move b d.
Proof.
  induction 1 as [c|c d p c' Hd He Hw IH]; [by left|right].
  destruct IH as [[-> ->]|(p0 & d0 & b & -> & Hw0 & Hd0 & He0 & ->)].
  - exists [], d, c. split_and!; [done|apply walk_nil|done..].
  - exists (d :: p0), d0, b. split_and!; [done|by apply walk_cons|done..].
Qed.

Lemma in_bounds_grid c : in_bounds m c = true -> c ∈ grid_set.
Proof.
  unfold in_bounds, grid_set, grid_cells. destruct c as [x y]; simpl.
  rewrite !andb_true_iff, !Z.leb_le, !Z.ltb_lt. intros [[[? ?] ?] ?].
  apply elem_of_list_to_set, list_elem_of_bind. exists x. split.
  - apply list_elem_of_bind. exists y. split; [apply list_elem_of_singleton; done|].
    apply elem_of_seqZ. lia.
  - apply elem_of_seqZ. lia.
Qed.

Lemma fresh_true V c d :
  fresh V c d = true ->
  d ≠ (0, 0) ∧ (move c d ∉ V) ∧ enterable (move c d) = true.
Proof.
  unfold fresh. rewrite !andb_true_iff, !negb_true_iff, bool_decide_eq_false.
  intros [[Hz Hv] He]. split_and!; try done.
  intros ->. simpl in Hz. done.
Qed.

Lemma fresh_false V c d :
  fresh V c d = false -> d ≠ (0, 0) ->
  enterable (move c d) = true -> move c d ∈ V.
Proof.
  unfold fresh. intros Hf Hd He. rewrite He, andb_true_r in Hf.
  apply andb_false_iff in Hf as [Hf|Hf].
  - apply negb_false_iff, andb_true_iff in Hf as [H1 H2].
    apply Z.eqb_eq in H1, H2. destruct d; simpl in *; by subst.
  - by apply negb_false_iff, bool_decide_eq_true in Hf.
Qed.

(** The measure that bounds the number of loop iterations. *)
Definition bfs_measure (queue : list QueueEntry) (visited : gset Cell) : nat :=
  (2 * size (grid_set ∖ visited) + length queue)%nat.

Lemma unvisited_shrinks V n :
  n ∈ grid_set -> n ∉ V ->
  (size (grid_set ∖ ({[n]} ∪ V)) < size (grid_set ∖ V))%nat.
Proof.
  intros Hg Hn. apply subset_size. set_solver.
Qed.

(** What one run of the inner double loop does to the queue and to the
    visited set. *)
Lemma expand_fold c path ds : ∀ q V q' V',
  foldl (visit c path) (q, V) ds = (q', V') ->
  ∃ added, q' = q ++ added
    ∧ V ⊆ V'
    ∧ (∀ x p, (x, p) ∈ added ->
         ∃ d, d ∈ ds ∧ d ≠ (0, 0) ∧ x = move c d ∧ p = path ++ [d]
              ∧ enterable x = true ∧ (x ∉ V) ∧ x ∈ V')
    ∧ (∀ x, x ∈ V' -> x ∈ V ∨ ∃ p, (x, p) ∈ added)
    ∧ (∀ d, d ∈ ds -> d ≠ (0, 0) -> enterable (move c d) = true ->
         move c d ∈ V')
    ∧ (bfs_measure q' V' ≤ bfs_measure q V)%nat.
Proof.
  induction ds as [|d ds IH]; intros q V q' V' Hf; cbn [foldl] in Hf.
  - injection Hf as <- <-. exists []. rewrite app_nil_r.
    split_and!; try done.
    + intros x p Hin. by apply elem_of_nil in Hin.
    + by left.
    + intros d Hin. by apply elem_of_nil in Hin.
  - rewrite visit_eq in Hf. destruct (fresh V c d) eqn:Hfr.
    + apply fresh_true in Hfr as (Hd & Hv & He).
      apply IH in Hf as (added & -> & Hsub & Hadd & Hnew & Hall & Hmeas).
      exists ((move c d, path ++ [d]) :: added).
      split_and!.
      * by rewrite <- app_assoc.
      * set_solver.
      * intros x p [Heq|Hin]%elem_of_cons.
        -- injection Heq as -> ->. exists d.
           split_and!; try done; [left|set_solver].
        -- destruct (Hadd _ _ Hin) as (d' & ? & ? & ? & ? & ? & ? & ?).
           exists d'. split_and!; try done; [by right|set_solver].
      * intros x Hx. destruct (Hnew _ Hx) as [Hu|[p Hp]].
        -- apply elem_of_union in Hu as [->%elem_of_singleton|?]; [|by left].
           right. eexists. left.
        -- right. exists p. by right.
      * intros d' [->|Hin]%elem_of_cons Hd' He'; [set_solver|by apply Hall].
      * etrans; [exact Hmeas|]. unfold bfs_measure. rewrite length_app. simpl.
        assert (Hg : move c d ∈ grid_set).
        { apply in_bounds_grid. unfold enterable in He.
          by apply andb_true_iff in He as [[? _]%andb_true_iff _]. }
        pose proof (unvisited_shrinks V _ Hg Hv). lia.
    + apply IH in Hf as (added & -> & Hsub & Hadd & Hnew & Hall & Hmeas).
      exists added. split_and!; try done.
      * intros x p Hin.
        destruct (Hadd _ _ Hin) as (d' & ? & ? & ? & ? & ? & ? & ?).
        exists d'. split_and!; try done. by right.
      * intros d' [->|Hin]%elem_of_cons Hd' He'; [|by apply Hall].
        apply Hsub. by apply fresh_false.
Qed.

Lemma expand_spec c path q V q' V' :
  expand c path q V = (q', V') ->
  ∃ added, q' = q ++ added
    ∧ V ⊆ V'
    ∧ (∀ x p, (x, p) ∈ added ->
         ∃ d, valid_dir d ∧ x = move c d ∧ p = path ++ [d]
              ∧ enterable x = true ∧ (x ∉ V) ∧ x ∈ V')
    ∧ (∀ x, x ∈ V' -> x ∈ V ∨ ∃ p, (x, p) ∈ added)
    ∧ (∀ d, valid_dir d -> enterable (move c d) = true -> move c d ∈ V')
    ∧ (bfs_measure q' V' ≤ bfs_measure q V)%nat.
Proof.
  unfold expand. intros Hf.
  destruct (expand_fold c path directions q V q' V' Hf)
    as (added & Hq & Hsub & Hadd & Hnew & Hall & Hm).
  exists added. split_and!; try assumption.
  - intros x p Hin. destruct (Hadd x p Hin) as (d & ? & ? & ? & ? & ? & ? & ?).
    exists d. by split_and!.
  - intros d [Hin Hne] He. exact (Hall d Hin Hne He).
Qed.

(** *** The loop invariant

    [D] is the set of cells already popped and expanded; the queue
    holds paths of length [L] followed by paths of length [S L]. *)
Record bfs_inv (D : gset Cell) (L : nat)
    (q : list QueueEntry) (V : gset Cell) : Prop := {
  inv_start : start ∈ V;
  inv_cover : ∀ x, x ∈ V <-> x ∈ D ∨ ∃ p, (x, p) ∈ q;
  inv_walk : ∀ x p, (x, p) ∈ q -> walk start p x;
  inv_done : ∀ x, x ∈ D ->
    adjacent x goal = false
    ∧ ∀ d, valid_dir d -> enterable (move x d) = true -> move x d ∈ V;
  inv_levels : ∃ qa qb, q = qa ++ qb
    ∧ Forall (λ e, length e.2 = L) qa
    ∧ Forall (λ e, length e.2 = S L) qb;
  inv_dist : ∀ x p, walk start p x ->
    x ∈ D
    ∨ (∃ p', (x, p') ∈ q ∧ (length p' ≤ length p)%nat)
    ∨ ((x ∉ V) ∧ (S L ≤ length p)%nat)
}.

Lemma bfs_inv_init : bfs_inv ∅ 0 [(start, [])] {[start]}.
Proof.
  split.
  - set_solver.
  - intros x. split.
    + intros ->%elem_of_singleton. right. exists []. left.
    + intros [?|[p [= -> ->]%list_elem_of_singleton]]; set_solver.
  - intros x p [= -> ->]%list_elem_of_singleton. apply walk_nil.
  - set_solver.
  - exists [(start, [])], []. split_and!; [done|by repeat constructor|constructor].
  - intros x p Hw. destruct (decide (x = start)) as [->|Hne].
    + right; left. exists []. split; [left|simpl; lia].
    + right; right. split; [set_solver|].
      inversion Hw; subst; simpl; [done|lia].
Qed.

(** When the level-[L] part of the queue is used up, the invariant
    holds one level further. *)
Lemma bfs_inv_next_level D L q V :
  bfs_inv D L q V -> Forall (λ e, length e.2 = S L) q ->
  bfs_inv D (S L) q V.
Proof.
  intros [Hs Hc Hw Hd Hl Hk] Hall. split; try done.
  - exists q, []. rewrite app_nil_r. split_and!; [done..|constructor].
  - intros x p Hp. destruct (Hk x p Hp) as [?|[?|[HxV Hlen]]]; [by left|by right; left|].
    right; right. split; [done|].
    destruct (walk_snoc_inv _ _ _ Hp) as [[-> ->]|(p0 & d & b & -> & Hp0 & Hvd & He & ->)];
      [done|].
    rewrite length_app; simpl.
    destruct (Hk b p0 Hp0) as [HbD|[(p' & Hin & Hle)|[_ Hle]]].
    + destruct (Hd b HbD) as [_ Hn]. by specialize (Hn d Hvd He).
    + rewrite Forall_forall in Hall. specialize (Hall _ Hin). simpl in Hall. lia.
    + lia.
Qed.

(** Popping a non-adjacent head of level [L] and running the inner
    loop re-establishes the invariant. *)
Lemma bfs_inv_step D L c pc rest V q' V' :
  bfs_inv D L ((c, pc) :: rest) V ->
  length pc = L ->
  adjacent c goal = false ->
  expand c pc rest V = (q', V') ->
  bfs_inv ({[c]} ∪ D) L q' V'.
Proof.
  intros [Hs Hc Hw Hd Hl Hk] Hlen Hadj Hex.
  apply expand_spec in Hex as (added & -> & Hsub & Hadd & Hnew & Hall & _).
  assert (HcV : c ∈ V) by (apply Hc; right; exists pc; left).
  split.
  - by apply Hsub.
  - intros x. split.
    + intros Hx. destruct (Hnew _ Hx) as [HxV|[p Hp]].
      * apply Hc in HxV as [?|[p Hp]]; [left; apply elem_of_union; by right|].
        apply elem_of_cons in Hp as [[= -> ->]|Hp];
          [left; apply elem_of_union; left; by apply elem_of_singleton|].
        right. exists p. apply elem_of_app. by left.
      * right. exists p. apply elem_of_app. by right.
    + intros [[->%elem_of_singleton|HxD]%elem_of_union|[p Hp]].
      * by apply Hsub.
      * apply Hsub, Hc. by left.
      * apply elem_of_app in Hp as [Hp|Hp].
        -- apply Hsub, Hc. right. exists p. by right.
        -- by destruct (Hadd _ _ Hp) as (d & _ & _ & _ & _ & _ & ?).
  - intros x p [Hp|Hp]%elem_of_app.
    + apply Hw. by right.
    + destruct (Hadd _ _ Hp) as (d & Hvd & -> & -> & He & _ & _).
      apply walk_snoc; [apply Hw; left|done|done].
  - intros x [->%elem_of_singleton|HxD]%elem_of_union.
    + split; [done|]. intros d Hvd He. by apply Hall.
    + destruct (Hd x HxD) as [? Hn]. split; [done|].
      intros d Hvd He. by apply Hsub, Hn.
  - destruct Hl as (qa & qb & Hq & Ha & Hb).
    assert (Hadded : Forall (λ e : QueueEntry, length e.2 = S L) added).
    { apply Forall_forall. intros [x p] Hp.
      destruct (Hadd _ _ Hp) as (d & _ & _ & -> & _).
      simpl. rewrite length_app. simpl. lia. }
    destruct qa as [|e qa]; simpl in Hq.
    + subst qb. apply Forall_cons in Hb as [Hb _]. simpl in Hb. lia.
    + injection Hq as <- ->. apply Forall_cons in Ha as [_ Ha].
      exists qa, (qb ++ added). rewrite <- app_assoc.
      split_and!; [done..|by apply Forall_app].
  - intros x p Hp. destruct (Hk x p Hp) as [HxD|[(p' & Hin & Hle)|[HxV Hle]]].
    + left. apply elem_of_union. by right.
    + apply elem_of_cons in Hin as [[= -> ->]|Hin];
        [left; apply elem_of_union; left; by apply elem_of_singleton|].
      right; left. exists p'. split; [|done]. apply elem_of_app. by left.
    + destruct (decide (x ∈ V')) as [HxV'|HxV']; [|by right; right].
      destruct (Hnew _ HxV') as [?|[p' Hp']]; [done|].
      right; left. exists p'. split; [apply elem_of_app; by right|].
      destruct (Hadd _ _ Hp') as (d & _ & _ & -> & _).
      rewrite length_app. simpl. lia.
Qed.

Lemma bfs_inv_head_level D L c pc rest V :
  bfs_inv D L ((c, pc) :: rest) V ->
  ∃ L', bfs_inv D L' ((c, pc) :: rest) V ∧ length pc = L'.
Proof.
  intros Hinv. destruct (inv_levels _ _ _ _ Hinv) as (qa & qb & Hq & Ha & Hb).
  destruct qa as [|e qa]; simpl in Hq.
  - subst qb. exists (S L). split; [by apply bfs_inv_next_level|].
    by apply Forall_cons in Hb as [Hb _].
  - injection Hq as <- ->. exists L. split; [done|].
    by apply Forall_cons in Ha as [Ha _].
Qed.

Lemma bfs_inv_exhausted D L V x p :
  bfs_inv D L [] V -> walk start p x -> x ∈ D.
Proof.
  intros [Hs Hc Hw Hd Hl Hk]. revert x.
  assert (HVD : ∀ y, y ∈ V -> y ∈ D).
  { intros y [?|[p' Hp']]%Hc; [done|by apply elem_of_nil in Hp']. }
  induction p as [|d p IH] using rev_ind; intros x Hp.
  - inversion Hp; subst. by apply HVD.
  - destruct (walk_snoc_inv _ _ _ Hp)
      as [[Hnil _]|(p0 & d0 & b & Heq & Hp0 & Hvd & He & ->)].
    + by destruct p.
    + apply app_inj_tail in Heq as [<- <-].
      apply HVD. destruct (Hd b (IH _ Hp0)) as [_ Hn]. by apply Hn.
Qed.

(** What a result of the loop means. *)
Definition bfs_result_ok (r : option Step) : Prop :=
  match r with
  | Some s =>
      ∃ c p, walk start (s :: p) c ∧ adjacent c goal = true
        ∧ ∀ x p', walk start p' x -> adjacent x goal = true ->
            (length (s :: p) ≤ length p')%nat
  | None =>
      adjacent start goal = true
      ∨ ∀ x p', walk start p' x -> adjacent x goal = false
  end.

Lemma bfs_loop_ok fuel : ∀ D L q V r,
  bfs_inv D L q V -> bfs_loop fuel q V = Some r -> bfs_result_ok r.
Proof.
  induction fuel as [|fuel IH]; intros D L q V r Hinv Hrun; [done|].
  cbn [bfs_loop] in Hrun. destruct q as [|[c pc] rest].
  - injection Hrun as <-. right. intros x p' Hp'.
    by destruct (inv_done _ _ _ _ Hinv x (bfs_inv_exhausted _ _ _ _ _ Hinv Hp')).
  - apply bfs_inv_head_level in Hinv as (L' & Hinv & Hlen).
    destruct (adjacent c goal) eqn:Hadj.
    + injection Hrun as <-.
      assert (Hwc : walk start pc c) by (apply (inv_walk _ _ _ _ Hinv); left).
      destruct pc as [|s pc]; simpl.
      * left. inversion Hwc; by subst.
      * exists c, pc. split_and!; [done..|].
        intros x p' Hp' Hx.
        destruct (inv_dist _ _ _ _ Hinv x p' Hp') as [HxD|[(p'' & Hin & Hle)|[_ Hle]]].
        -- destruct (inv_done _ _ _ _ Hinv x HxD) as [Hna _]. congruence.
        -- destruct (inv_levels _ _ _ _ Hinv) as (qa & qb & Hq & Ha & Hb).
           rewrite Hq in Hin. rewrite Forall_forall in Ha, Hb.
           apply elem_of_app in Hin as [Hin|Hin];
             [specialize (Ha _ Hin)|specialize (Hb _ Hin)]; simpl in *; lia.
        -- simpl in *. lia.
    + destruct (expand c pc rest V) as [q' V'] eqn:Hex.
      eapply IH; [|exact Hrun]. by eapply bfs_inv_step.
Qed.

Lemma bfs_loop_total fuel : ∀ q V,
  (bfs_measure q V < fuel)%nat -> ∃ r, bfs_loop fuel q V = Some r.
Proof.
  induction fuel as [|fuel IH]; intros q V Hlt; [lia|].
  cbn [bfs_loop]. destruct q as [|[c pc] rest]; [by eexists|].
  destruct (adjacent c goal); [by eexists|].
  destruct (expand c pc rest V) as [q' V'] eqn:Hex.
  apply IH. apply expand_spec in Hex as (_ & _ & _ & _ & _ & _ & Hm).
  unfold bfs_measure in *. cbn [length] in Hlt. lia.
Qed.

Lemma bfs_fuel_enough :
  (bfs_measure [(start, [])] {[start]} < bfs_fuel)%nat.
Proof.
  unfold bfs_measure, bfs_fuel. cbn [length].
  assert (size (grid_set ∖ {[start]}) ≤ size grid_set)%nat
    by (apply subseteq_size; set_solver).
  lia.
Qed.

(** The walkable-path reading of "a cell adjacent to the goal can be
    reached". *)
Definition reachable_adjacent : Prop :=
  ∃ x p, walk start p x ∧ adjacent x goal = true.

Lemma bfs_to_adjacent_ok : 
  adjacent start goal = false ->
  ∃ r, bfs_to_adjacent = r ∧ bfs_result_ok r.
Proof.
  intros Hna. unfold bfs_to_adjacent. rewrite Hna.
  destruct (bfs_loop_total _ _ _ bfs_fuel_enough) as [r Hr].
  rewrite Hr. exists r. split; [done|].
  eapply bfs_loop_ok; [apply bfs_inv_init|exact Hr].
Qed.

Lemma bfs_to_adjacent_some s :
  bfs_to_adjacent = Some s ->
  adjacent start goal = false ∧ bfs_result_ok (Some s).
Proof.
  intros Hs. destruct (adjacent start goal) eqn:Hadj.
  - unfold bfs_to_adjacent in Hs. by rewrite Hadj in Hs.
  - split; [done|]. destruct (bfs_to_adjacent_ok Hadj) as (r & Hr & Hok).
    congruence.
Qed.

Lemma bfs_to_adjacent_none :
  bfs_to_adjacent = None <->
  adjacent start goal = true ∨ ¬ reachable_adjacent.
Proof.
  split.
  - intros Hn. destruct (adjacent start goal) eqn:Hadj; [by left|right].
    destruct (bfs_to_adjacent_ok Hadj) as (r & Hr & Hok).
    rewrite Hn in Hr. subst r. destruct Hok as [?|Hno]; [congruence|].
    intros (x & p & Hw & Hx). specialize (Hno x p Hw). congruence.
  - intros [Hadj|Hno].
    + unfold bfs_to_adjacent. by rewrite Hadj.
    + destruct bfs_to_adjacent as [s|] eqn:Hs; [|done].
      apply bfs_to_adjacent_some in Hs as [_ (c & p & Hw & Hc & _)].
      exfalso. apply Hno. by exists c, (s :: p).
Qed.

End Bfs.

(** The Chebyshev distance from [c] to the nearest of the cells within
    Chebyshev distance 1 of the goal. *)
Definition dist_to_adjacent (c goal : Cell) : Z :=
  foldr Z.min (chebyshev c goal)
        ((λ d, chebyshev c (move goal d)) <$> directions).

(** A map whose tiles are floor except for the listed walls. *)
Definition floor_map (w h : Z) (walls : list Cell) : GameMap :=
  mkMap w h (λ x y,
    mkTile (if bool_decide ((x, y) ∈ walls) then "WALL" else "FLOOR")
           (negb (bool_decide ((x, y) ∈ walls))) None).

(** A 6 x 3 kitchen where the agent at (2,0) is walled in on the right
    and has to leave to the left to get around to the goal (5,0):
<<
      y=0   . . S # . G
      y=1   . # # # . .
      y=2   . . . . . .
>> *)
Definition detour_map : GameMap := floor_map 6 3 [(3, 0); (3, 1); (2, 1); (1, 1)].

Ltac walk_steps :=
  repeat first
    [ apply walk_nil
    | apply walk_cons; [split; [vm_compute; set_solver|done]|vm_compute; reflexivity|] ].

(** C1, as stated, fails: a walkable path to a cell adjacent to the goal
    exists, the Navigator returns the step (-1, 0), and that step takes
    the agent from Chebyshev distance 2 to Chebyshev distance 3 of the
    nearest cell adjacent to the goal. *)
Lemma bfs_detour_moves_away :
  reachable_adjacent detour_map {[(2, 0)]} (2, 0) (5, 0)
  ∧ bfs_to_adjacent detour_map {[(2, 0)]} (2, 0) (5, 0) = Some (-1, 0)
  ∧ dist_to_adjacent (2, 0) (5, 0) = 2
  ∧ dist_to_adjacent (move (2, 0) (-1, 0)) (5, 0) = 3.
Proof.
  split_and!; [|by vm_compute..].
  exists (4, 1), [(-1, 0); (-1, 1); (1, 1); (1, 0); (1, 0); (1, -1)].
  split; [|by vm_compute]. walk_steps.
Qed.

(** C1, amended.  The Navigator returns [None] exactly when the start is
    already adjacent to the goal or no walkable path to a cell adjacent
    to the goal exists; a returned step is one of the eight directions,
    enters a walkable, in-bounds, unoccupied cell, and is the first move
    of a shortest walkable path: from the cell it leads to, a cell
    adjacent to the goal is [n] moves away, while no walkable path from
    the start reaches one in fewer than [n + 1] moves. *)
Theorem bfs_step_on_shortest_walk m occupied start goal :
  (bfs_to_adjacent m occupied start goal = None <->
     adjacent start goal = true ∨ ¬ reachable_adjacent m occupied start goal)
  ∧ ∀ s, bfs_to_adjacent m occupied start goal = Some s ->
      valid_dir s
      ∧ enterable m occupied start (move start s) = true
      ∧ ∃ n c p,
          walk m occupied start (move start s) p c
          ∧ adjacent c goal = true ∧ length p = n
          ∧ ∀ x p', walk m occupied start start p' x ->
              adjacent x goal = true -> (S n ≤ length p')%nat.
Proof.
  split; [apply bfs_to_adjacent_none|].
  intros s Hs. apply bfs_to_adjacent_some in Hs as [_ (c & p & Hw & Hc & Hmin)].
  inversion Hw as [|? ? ? ? Hvd He Hw']; subst.
  split_and!; [done..|].
  exists (length p), c, p. split_and!; [done..|].
  intros x p' Hp' Hx. exact (Hmin x p' Hp' Hx).
Qed.

(** C9.  [None] is returned both when the start is already within
    Chebyshev distance 1 of the goal and when no walkable path to a cell
    adjacent to the goal exists; a step is returned only when the start
    is not adjacent and such a path exists. *)
Theorem bfs_none_is_ambiguous m occupied start goal :
  (adjacent start goal = true -> bfs_to_adjacent m occupied start goal = None)
  ∧ (¬ reachable_adjacent m occupied start goal ->
       bfs_to_adjacent m occupied start goal = None)
  ∧ ∀ s, bfs_to_adjacent m occupied start goal = Some s ->
      adjacent start goal = false ∧ reachable_adjacent m occupied start goal.
Proof.
  split_and!.
  - intros Hadj. apply bfs_to_adjacent_none. by left.
  - intros Hno. apply bfs_to_adjacent_none. by right.
  - intros s Hs. apply bfs_to_adjacent_some in Hs as [Hadj (c & p & Hw & Hc & _)].
    split; [done|]. by exists c, (s :: p).
Qed.

(** Both readings of [None] occur on the detour map: next to the goal,
    and with the only way out walled up. *)
Example bfs_none_when_adjacent :
  bfs_to_adjacent detour_map {[(4, 1)]} (4, 1) (5, 0) = None.
Proof. by vm_compute. Qed.

Example bfs_none_when_walled_in :
  bfs_to_adjacent (floor_map 6 3 [(3, 0); (3, 1); (2, 1); (1, 1); (1, 0)])
                  {[(2, 0)]} (2, 0) (5, 0) = None.
Proof. by vm_compute. Qed.

End Navigator.

(** ** The controller interface

    [robot_controller] and [game_constants] belong to the game engine,
    not to this repository.  A [World] is what the query side of the
    controller shows during one call of [play_turn]; the effect of an
    action request on it is a parameter of the development. *)

(** [game_constants.FoodType]: an enum member with its attributes. *)
Record FoodType := mkFoodType {
  ft_name : string;
  can_chop : bool;
  can_cook : bool;
  buy_cost : Z
}.

(** The dict returned by [get_bot_state]; ['holding'] is [None] or the
    dict rendering of the held item ([type], [food_name], [chopped],
    [cooked_stage], [dirty], [food]). *)
Record BotState := mkBotState {
  bs_x : Z;
  bs_y : Z;
  holding : option Item
}.

(** An entry of [get_orders]. [expires_turn] is read with
    [order.get("expires_turn", float('inf'))]; [reward] and [penalty]
    with default 0. *)
Record Order := mkOrder {
  order_id : Z;
  required : list string;
  reward : Z;
  penalty : Z;
  expires_turn : option Z;
  is_active : bool
}.

Record World := mkWorld {
  get_turn : Z;
  get_map : GameMap;
  get_team_bot_ids : list Z;
  get_bot_state : Z -> option BotState;
  get_orders : list Order;
  get_team_money : Z
}.

(** The action requests of the controller. *)
Inductive Action :=
| Act_move (bot_id dx dy : Z)
| Act_buy (bot_id : Z) (what : option FoodType) (x y : Z)
| Act_place (bot_id x y : Z)
| Act_pickup (bot_id x y : Z)
| Act_chop (bot_id x y : Z)
| Act_take_from_pan (bot_id x y : Z)
| Act_add_food_to_plate (bot_id x y : Z)
| Act_submit (bot_id x y : Z)
| Act_trash (bot_id x y : Z).

(** [Act_buy _ None _ _] is the purchase of [ShopCosts.PLATE]. *)

(** A controller during one turn: the world it shows and the requests
    issued so far. *)
Definition Ctl : Type := World * list Action.

Definition bot_pos (bs : BotState) : Cell := (bs_x bs, bs_y bs).

(** [hasattr(item, 'food_name') and item.food_name == name] *)
Definition item_is_food_named (name : string) (it : Item) : bool :=
  match it with ItFood f => bool_decide (food_name f = name) | _ => false end.

Definition item_is_plate (it : Item) : bool :=
  match it with ItPlate _ _ => true | _ => false end.

Definition item_is_pan (it : Item) : bool :=
  match it with ItPan _ => true | _ => false end.

Definition item_is_food (it : Item) : bool :=
  match it with ItFood _ => true | _ => false end.

Definition tile_at (m : GameMap) (c : Cell) : Tile := tiles m c.1 c.2.

(** The cells of [for x in range(m.width): for y in range(m.height)],
    in scan order. *)
Definition scan (m : GameMap) : list Cell := Navigator.grid_cells m.

(** The set [occupied] built at the start of [bfs_to_adjacent]. *)
Definition occupied_tiles (w : World) : gset Cell :=
  list_to_set (omap (λ bid, bot_pos <$> get_bot_state w bid) (get_team_bot_ids w)).

Definition bfs_to_adjacent (w : World) (start goal : Cell) : option Step :=
  Navigator.bfs_to_adjacent (get_map w) (occupied_tiles w) start goal.

Definition find_tile (w : World) (name : string) : option Cell :=
  head (filter (λ c, tile_name (tile_at (get_map w) c) = name) (scan (get_map w))).

Definition find_empty_tile (w : World) (name : string) : option Cell :=
  head (filter (λ c, tile_name (tile_at (get_map w) c) = name
                     ∧ item (tile_at (get_map w) c) = None)
               (scan (get_map w))).

Definition find_item_on_tile (w : World) (name : string)
    (item_check : Item -> bool) : option Cell :=
  head (filter (λ c, tile_name (tile_at (get_map w) c) = name
                     ∧ from_option item_check false (item (tile_at (get_map w) c)) = true)
               (scan (get_map w))).

(** The running minimum of the [find_closest_*] loops: a candidate
    replaces the current one only when strictly closer. *)
Definition closer (from_pos : Cell) (best : option (Cell * Z)) (c : Cell)
    : option (Cell * Z) :=
  let dist := chebyshev c from_pos in
  match best with
  | None => Some (c, dist)
  | Some (_, min_dist) => if dist <? min_dist then Some (c, dist) else best
  end.

Definition closest (from_pos : Cell) (cands : list Cell) : option Cell :=
  fst <$> foldl (closer from_pos) None cands.

Definition find_closest_tile (w : World) (name : string) (from_pos : Cell)
    : option Cell :=
  closest from_pos
    (filter (λ c, tile_name (tile_at (get_map w) c) = name) (scan (get_map w))).

Definition find_closest_empty_tile (w : World) (name : string) (from_pos : Cell)
    : option Cell :=
  closest from_pos
    (filter (λ c, tile_name (tile_at (get_map w) c) = name
                  ∧ item (tile_at (get_map w) c) = None)
            (scan (get_map w))).

(** ** The Command framework *)

Module Commands.

(** The concrete command classes, with their constructor arguments. *)
Inductive CommandKind :=
| BuyIngredient (food_type : FoodType)
| BuyPlate
| ChopIngredient
| CookIngredient
| StartCooking
| FinishCooking (food_type : FoodType)
| StoreInBox
| PlaceOnCounter
| PickupFromBox (food_type : FoodType)
| PickupPlateFromCounter
| PlaceInBox
| PickupPlateFromBox
| AddFoodToPlate (food_type : FoodType)
| SubmitOrder (order_id : Z).

(** The values of [self.state]; [St_none] for the classes without that
    attribute. *)
Inductive CmdState :=
| St_none | St_navigating | St_placing | St_chopping | St_picking_up
| St_cooking | St_waiting | St_adding | St_done.

(** The argument of [check_progress].  The source formats it as a
    string, [f"{self.state}_{bx}_{by}_{holding is not None}"] with the
    state or the holding part left out by some classes; two such strings
    of one class are equal exactly when their parts are. *)
Record Fingerprint := mkFingerprint {
  fp_state : option CmdState;
  fp_x : Z;
  fp_y : Z;
  fp_holding : option bool
}.

#[export] Instance FoodType_eq_dec : EqDecision FoodType.
Proof. solve_decision. Defined.
#[export] Instance Food_eq_dec : EqDecision Food.
Proof. solve_decision. Defined.
#[export] Instance Item_eq_dec : EqDecision Item.
Proof. solve_decision. Defined.
#[export] Instance CommandKind_eq_dec : EqDecision CommandKind.
Proof. solve_decision. Defined.
#[export] Instance CmdState_eq_dec : EqDecision CmdState.
Proof. solve_decision. Defined.
#[export] Instance Fingerprint_eq_dec : EqDecision Fingerprint.
Proof. solve_decision. Defined.

(** A command object.  [loc] is the remembered target tile
    ([shop_loc], [counter_loc], [cooker_loc], [box_loc], [plate_loc],
    [food_loc] or [submit_loc]); attributes a class does not have keep
    their initial value and are never read for it. *)
Record Command := mkCommand {
  kind : CommandKind;
  turn_count : Z;
  max_turns : Z;
  last_state : option Fingerprint;
  stuck_counter : Z;
  loc : option Cell;
  state : CmdState;
  retries : Z;
  max_retries : Z;
  failed : bool;
  food_burned : bool;
  buy_attempted : bool;
  submitted : bool;
  initial_food_count : option Z
}.

Definition set_turn_count (v : Z) (c : Command) : Command :=
  {| kind := kind c;
     turn_count := v;
     max_turns := max_turns c;
     last_state := last_state c;
     stuck_counter := stuck_counter c;
     loc := loc c;
     state := state c;
     retries := retries c;
     max_retries := max_retries c;
     failed := failed c;
     food_burned := food_burned c;
     buy_attempted := buy_attempted c;
     submitted := submitted c;
     initial_food_count := initial_food_count c |}.

Definition set_last_state (v : option Fingerprint) (c : Command) : Command :=
  {| kind := kind c;
     turn_count := turn_count c;
     max_turns := max_turns c;
     last_state := v;
     stuck_counter := stuck_counter c;
     loc := loc c;
     state := state c;
     retries := retries c;
     max_retries := max_retries c;
     failed := failed c;
     food_burned := food_burned c;
     buy_attempted := buy_attempted c;
     submitted := submitted c;
     initial_food_count := initial_food_count c |}.

Definition set_stuck_counter (v : Z) (c : Command) : Command :=
  {| kind := kind c;
     turn_count := turn_count c;
     max_turns := max_turns c;
     last_state := last_state c;
     stuck_counter := v;
     loc := loc c;
     state := state c;
     retries := retries c;
     max_retries := max_retries c;
     failed := failed c;
     food_burned := food_burned c;
     buy_attempted := buy_attempted c;
     submitted := submitted c;
     initial_food_count := initial_food_count c |}.

Definition set_loc (v : option Cell) (c : Command) : Command :=
  {| kind := kind c;
     turn_count := turn_count c;
     max_turns := max_turns c;
     last_state := last_state c;
     stuck_counter := stuck_counter c;
     loc := v;
     state := state c;
     retries := retries c;
     max_retries := max_retries c;
     failed := failed c;
     food_burned := food_burned c;
     buy_attempted := buy_attempted c;
     submitted := submitted c;
     initial_food_count := initial_food_count c |}.

Definition set_state (v : CmdState) (c : Command) : Command :=
  {| kind := kind c;
     turn_count := turn_count c;
     max_turns := max_turns c;
     last_state := last_state c;
     stuck_counter := stuck_counter c;
     loc := loc c;
     state := v;
     retries := retries c;
     max_retries := max_retries c;
     failed := failed c;
     food_burned := food_burned c;
     buy_attempted := buy_attempted c;
     submitted := submitted c;
     initial_food_count := initial_food_count c |}.

Definition set_retries (v : Z) (c : Command) : Command :=
  {| kind := kind c;
     turn_count := turn_count c;
     max_turns := max_turns c;
     last_state := last_state c;
     stuck_counter := stuck_counter c;
     loc := loc c;
     state := state c;
     retries := v;
     max_retries := max_retries c;
     failed := failed c;
     food_burned := food_burned c;
     buy_attempted := buy_attempted c;
     submitted := submitted c;
     initial_food_count := initial_food_count c |}.

Definition set_failed (v : bool) (c : Command) : Command :=
  {| kind := kind c;
     turn_count := turn_count c;
     max_turns := max_turns c;
     last_state := last_state c;
     stuck_counter := stuck_counter c;
     loc := loc c;
     state := state c;
     retries := retries c;
     max_retries := max_retries c;
     failed := v;
     food_burned := food_burned c;
     buy_attempted := buy_attempted c;
     submitted := submitted c;
     initial_food_count := initial_food_count c |}.

Definition set_food_burned (v : bool) (c : Command) : Command :=
  {| kind := kind c;
     turn_count := turn_count c;
     max_turns := max_turns c;
     last_state := last_state c;
     stuck_counter := stuck_counter c;
     loc := loc c;
     state := state c;
     retries := retries c;
     max_retries := max_retries c;
     failed := failed c;
     food_burned := v;
     buy_attempted := buy_attempted c;
     submitted := submitted c;
     initial_food_count := initial_food_count c |}.

Definition set_buy_attempted (v : bool) (c : Command) : Command :=
  {| kind := kind c;
     turn_count := turn_count c;
     max_turns := max_turns c;
     last_state := last_state c;
     stuck_counter := stuck_counter c;
     loc := loc c;
     state := state c;
     retries := retries c;
     max_retries := max_retries c;
     failed := failed c;
     food_burned := food_burned c;
     buy_attempted := v;
     submitted := submitted c;
     initial_food_count := initial_food_count c |}.

Definition set_submitted (v : bool) (c : Command) : Command :=
  {| kind := kind c;
     turn_count := turn_count c;
     max_turns := max_turns c;
     last_state := last_state c;
     stuck_counter := stuck_counter c;
     loc := loc c;
     state := state c;
     retries := retries c;
     max_retries := max_retries c;
     failed := failed c;
     food_burned := food_burned c;
     buy_attempted := buy_attempted c;
     submitted := v;
     initial_food_count := initial_food_count c |}.

Definition set_initial_food_count (v : option Z) (c : Command) : Command :=
  {| kind := kind c;
     turn_count := turn_count c;
     max_turns := max_turns c;
     last_state := last_state c;
     stuck_counter := stuck_counter c;
     loc := loc c;
     state := state c;
     retries := retries c;
     max_retries := max_retries c;
     failed := failed c;
     food_burned := food_burned c;
     buy_attempted := buy_attempted c;
     submitted := submitted c;
     initial_food_count := v |}.

(** [Command.__init__] *)
Definition base_command (k : CommandKind) : Command :=
  {| kind := k; turn_count := 0; max_turns := 100; last_state := None;
     stuck_counter := 0; loc := None; state := St_none; retries := 0;
     max_retries := 0; failed := false; food_burned := false;
     buy_attempted := false; submitted := false; initial_food_count := None |}.

Definition with_limits (turns retry_limit : Z) (st : CmdState) (c : Command)
    : Command :=
  {| kind := kind c; turn_count := turn_count c; max_turns := turns;
     last_state := last_state c; stuck_counter := stuck_counter c;
     loc := loc c; state := st; retries := retries c;
     max_retries := retry_limit; failed := failed c;
     food_burned := food_burned c; buy_attempted := buy_attempted c;
     submitted := submitted c; initial_food_count := initial_food_count c |}.

(** The [__init__] of each class. *)
Definition BuyIngredientCommand (food_type : FoodType) : Command :=
  with_limits 30 0 St_none (base_command (BuyIngredient food_type)).
Definition BuyPlateCommand : Command :=
  with_limits 30 0 St_none (base_command BuyPlate).
Definition ChopIngredientCommand : Command :=
  with_limits 40 5 St_navigating (base_command ChopIngredient).
Definition CookIngredientCommand : Command :=
  with_limits 150 0 St_navigating (base_command CookIngredient).
Definition StartCookingCommand : Command :=
  with_limits 100 0 St_navigating (base_command StartCooking).
Definition FinishCookingCommand (food_type : FoodType) : Command :=
  with_limits 80 0 St_waiting (base_command (FinishCooking food_type)).
Definition StoreInBoxCommand : Command := base_command StoreInBox.
Definition PlaceOnCounterCommand : Command :=
  with_limits 40 5 St_none (base_command PlaceOnCounter).
Definition PickupFromBoxCommand (food_type : FoodType) : Command :=
  base_command (PickupFromBox food_type).
Definition PickupPlateFromCounterCommand : Command :=
  with_limits 40 3 St_none (base_command PickupPlateFromCounter).
Definition PlaceInBoxCommand : Command :=
  with_limits 100 5 St_none (base_command PlaceInBox).
Definition PickupPlateFromBoxCommand : Command := base_command PickupPlateFromBox.
Definition AddFoodToPlateCommand (food_type : FoodType) : Command :=
  with_limits 50 5 St_navigating (base_command (AddFoodToPlate food_type)).
Definition SubmitOrderCommand (order_id : Z) : Command :=
  base_command (SubmitOrder order_id).

(** [Command.is_stuck] *)
Definition is_stuck (c : Command) : bool :=
  if turn_count c >? max_turns c then true
  else if stuck_counter c >? 20 then true
  else if failed c then true
  else false.

(** [Command.check_progress] *)
Definition check_progress (current_state : Fingerprint) (c : Command) : Command :=
  set_last_state (Some current_state)
    (if bool_decide (Some current_state = last_state c)
     then set_stuck_counter (stuck_counter c + 1) c
     else set_stuck_counter 0 c).

(** *** [is_complete] *)

Definition holds_food_named (name : string) (h : option Item) : bool :=
  match h with Some (ItFood f) => bool_decide (food_name f = name) | _ => false end.

Definition holds_plate (h : option Item) : bool :=
  match h with Some (ItPlate _ _) => true | _ => false end.

Definition holds_chopped_food (h : option Item) : bool :=
  match h with Some (ItFood f) => chopped f | _ => false end.

Definition holds_cooked_food (h : option Item) : bool :=
  match h with Some (ItFood f) => cooked_stage f =? 1 | _ => false end.

Definition holds_nothing (h : option Item) : bool :=
  match h with None => true | Some _ => false end.

(** [is_complete(controller, bot_id)], by class.  In
    [PickupFromBoxCommand] the test is [hasattr(holding, 'food_name')] on
    the ['holding'] dict, which has no such attribute. *)
Definition is_complete (c : Command) (w : World) (bot_id : Z) : bool :=
  match kind c with
  | BuyIngredient ft =>
      match get_bot_state w bot_id with
      | None => false
      | Some bs => holds_food_named (ft_name ft) (holding bs)
      end
  | BuyPlate | PickupPlateFromCounter | PickupPlateFromBox =>
      match get_bot_state w bot_id with
      | None => false
      | Some bs => holds_plate (holding bs)
      end
  | ChopIngredient =>
      if negb (bool_decide (state c = St_done)) then false
      else match get_bot_state w bot_id with
           | None => false
           | Some bs => holds_chopped_food (holding bs)
           end
  | CookIngredient =>
      if negb (bool_decide (state c = St_done)) then false
      else match get_bot_state w bot_id with
           | None => false
           | Some bs => holds_cooked_food (holding bs)
           end
  | StartCooking => bool_decide (state c = St_done)
  | FinishCooking _ =>
      if negb (bool_decide (state c = St_done)) then false
      else if food_burned c then true
      else match get_bot_state w bot_id with
           | None => false
           | Some bs => holds_cooked_food (holding bs)
           end
  | StoreInBox | PlaceOnCounter | PlaceInBox | SubmitOrder _ =>
      match get_bot_state w bot_id with
      | None => false
      | Some bs => holds_nothing (holding bs)
      end
  | PickupFromBox _ => false
  | AddFoodToPlate _ => bool_decide (state c = St_done)
  end.

(** *** [execute]

    One call of [execute] on a controller: the command object after the
    call and the controller with the requests issued during it.  The
    engine's reaction to a request is the parameter [apply_action];
    [plate_cost] is [ShopCosts.PLATE.buy_cost]. *)

Section Execute.
Variable apply_action : Action -> World -> World.
Variable plate_cost : Z.

Definition issue (a : Action) (ctl : Ctl) : Ctl :=
  (apply_action a ctl.1, ctl.2 ++ [a]).

(** [next_move = bfs_to_adjacent(...)] followed by
    [if next_move: controller.move(bot_id, next_move[0], next_move[1])];
    [None] when there was no move. *)
Definition move_toward (bot_id : Z) (pos target : Cell) (ctl : Ctl) : option Ctl :=
  match bfs_to_adjacent ctl.1 pos target with
  | Some d => Some (issue (Act_move bot_id d.1 d.2) ctl)
  | None => None
  end.

(** [navigate] for the classes that do nothing on a failed search. *)
Definition move_or_stay (bot_id : Z) (pos target : Cell) (ctl : Ctl) : Ctl :=
  default ctl (move_toward bot_id pos target ctl).

(** [self.turn_count += 1] *)
Definition tick (c : Command) : Command := set_turn_count (turn_count c + 1) c.

(** [new_bot_state and new_bot_state.get('holding') is None] *)
Definition now_empty_handed (ctl : Ctl) (bot_id : Z) : bool :=
  match get_bot_state ctl.1 bot_id with
  | Some bs => holds_nothing (holding bs)
  | None => false
  end.

(** [new_bot_state and new_bot_state.get('holding') is not None] *)
Definition now_holding (ctl : Ctl) (bot_id : Z) : bool :=
  match get_bot_state ctl.1 bot_id with
  | Some bs => negb (holds_nothing (holding bs))
  | None => false
  end.

Definition item_at (ctl : Ctl) (c : Cell) : option Item :=
  item (tile_at (get_map ctl.1) c).

(** [if self.X_loc is None: self.X_loc = <search>] *)
Definition locate (search : option Cell) (c : Command) : Command :=
  match loc c with
  | None => set_loc search c
  | Some _ => c
  end.

Definition bump_retries (c : Command) : Command := set_retries (retries c + 1) c.

(** [self.X_loc = None; self.retries += 1] *)
Definition forget_target (c : Command) : Command := bump_retries (set_loc None c).

(** [self.retries += 1] and, past [max_retries], abort as failed
    ([ChopIngredientCommand]). *)
Definition retry_or_fail (c : Command) : Command :=
  let c := bump_retries c in
  if retries c >? max_retries c then set_failed true (set_state St_done c) else c.

(** [self.retries += 1] and, at [max_retries], give up
    ([AddFoodToPlateCommand]). *)
Definition retry_or_give_up (c : Command) : Command :=
  let c := bump_retries c in
  if retries c >=? max_retries c then set_state St_done c else c.

Definition position_fingerprint (bs : BotState) : Fingerprint :=
  mkFingerprint None (bs_x bs) (bs_y bs) (Some (negb (holds_nothing (holding bs)))).

(** [BuyIngredientCommand.execute] and [BuyPlateCommand.execute]: the
    two differ in what is bought and at which price. *)
Definition execute_buy (what : option FoodType) (cost : Z)
    (c : Command) (bot_id : Z) (ctl : Ctl) : Command * Ctl :=
  let c := tick c in
  match get_bot_state ctl.1 bot_id with
  | None => (c, ctl)
  | Some bs =>
    let c := check_progress (position_fingerprint bs) c in
    if negb (holds_nothing (holding bs)) then (c, ctl)
    else
      let c := locate (find_tile ctl.1 "SHOP") c in
      match loc c with
      | None => (c, ctl)
      | Some shop =>
        if adjacent (bot_pos bs) shop then
          if negb (buy_attempted c) then
            if get_team_money ctl.1 <? cost then (c, ctl)
            else (set_buy_attempted true c,
                  issue (Act_buy bot_id what shop.1 shop.2) ctl)
          else (c, ctl)
        else (c, move_or_stay bot_id (bot_pos bs) shop ctl)
      end
  end.

(** [ChopIngredientCommand.execute].  A state other than ["navigating"]
    is only entered with [counter_loc] set, so the [None] branches of
    the later states are never taken. *)
Definition execute_chop (c : Command) (bot_id : Z) (ctl : Ctl) : Command * Ctl :=
  let c := tick c in
  match get_bot_state ctl.1 bot_id with
  | None => (c, ctl)
  | Some bs =>
    let empty := holds_nothing (holding bs) in
    let c := check_progress
               (mkFingerprint (Some (state c)) (bs_x bs) (bs_y bs) (Some (negb empty))) c in
    if (bool_decide (state c = St_navigating) || bool_decide (state c = St_placing))
       && empty
    then (set_failed true (set_state St_done c), ctl)
    else
      match state c with
      | St_navigating =>
        let c :=
          if bool_decide (loc c = None) || (retries c >? 0)
          then set_loc (find_closest_empty_tile ctl.1 "COUNTER" (bot_pos bs)) c
          else c in
        match loc c with
        | None => (retry_or_fail c, ctl)
        | Some counter =>
          if adjacent (bot_pos bs) counter then
            match item_at ctl counter with
            | None => (set_state St_placing c, ctl)
            | Some _ => (retry_or_fail (set_loc None c), ctl)
            end
          else
            match move_toward bot_id (bot_pos bs) counter ctl with
            | Some ctl' => (c, ctl')
            | None => (forget_target c, ctl)
            end
        end
      | St_placing =>
        match loc c with
        | Some counter =>
          if negb empty then
            let ctl' := issue (Act_place bot_id counter.1 counter.2) ctl in
            if now_empty_handed ctl' bot_id then (set_state St_chopping c, ctl')
            else (retry_or_fail (set_loc None (set_state St_navigating c)), ctl')
          else (c, ctl)
        | None => (c, ctl)
        end
      | St_chopping =>
        if empty then
          match loc c with
          | Some counter =>
            match item_at ctl counter with
            | Some (ItFood f) =>
              if chopped f then (set_state St_picking_up c, ctl)
              else (set_state St_picking_up c,
                    issue (Act_chop bot_id counter.1 counter.2) ctl)
            | _ => (set_state St_done c, ctl)
            end
          | None => (c, ctl)
          end
        else (set_state St_placing c, ctl)
      | St_picking_up =>
        match loc c with
        | Some counter =>
          match item_at ctl counter with
          | Some (ItFood f) =>
            if chopped f then
              let ctl' := issue (Act_pickup bot_id counter.1 counter.2) ctl in
              if now_holding ctl' bot_id then (set_state St_done c, ctl')
              else (retry_or_fail c, ctl')
            else (set_failed true (set_state St_done c), ctl)
          | _ => (set_failed true (set_state St_done c), ctl)
          end
        | None => (c, ctl)
        end
      | _ => (c, ctl)
      end
  end.

(** The ["navigating"] branch shared by [CookIngredientCommand] and
    [StartCookingCommand]. *)
Definition navigate_to_cooker (c : Command) (bot_id : Z) (bs : BotState)
    (ctl : Ctl) : Command * Ctl :=
  let c := locate (find_closest_tile ctl.1 "COOKER" (bot_pos bs)) c in
  match loc c with
  | None => (c, ctl)
  | Some cooker =>
    if adjacent (bot_pos bs) cooker then (set_state St_placing c, ctl)
    else (c, move_or_stay bot_id (bot_pos bs) cooker ctl)
  end.

(** [CookIngredientCommand.execute] *)
Definition execute_cook (c : Command) (bot_id : Z) (ctl : Ctl) : Command * Ctl :=
  let c := tick c in
  match get_bot_state ctl.1 bot_id with
  | None => (c, ctl)
  | Some bs =>
    match state c with
    | St_navigating => navigate_to_cooker c bot_id bs ctl
    | St_placing =>
      match loc c with
      | Some cooker =>
        if negb (holds_nothing (holding bs)) then
          let ctl' := issue (Act_place bot_id cooker.1 cooker.2) ctl in
          if now_empty_handed ctl' bot_id then
            match item_at ctl' cooker with
            | Some (ItPan _) => (set_state St_cooking c, ctl')
            | _ => (set_state St_navigating c, ctl')
            end
          else (set_state St_navigating c, ctl')
        else (c, ctl)
      | None => (c, ctl)
      end
    | St_cooking =>
      match loc c with
      | Some cooker =>
        match item_at ctl cooker with
        | Some (ItPan (Some f)) =>
          if cooked_stage f =? 1 then (set_state St_picking_up c, ctl)
          else if cooked_stage f >=? 2 then (set_state St_done c, ctl)
          else (c, ctl)
        | Some (ItPan None) => (c, ctl)
        | _ => (set_state St_done c, ctl)
        end
      | None => (c, ctl)
      end
    | St_picking_up =>
      match loc c with
      | Some cooker =>
        match item_at ctl cooker with
        | Some (ItPan (Some f)) =>
          if cooked_stage f =? 1 then
            let ctl' := issue (Act_take_from_pan bot_id cooker.1 cooker.2) ctl in
            if now_holding ctl' bot_id then (set_state St_done c, ctl')
            else (c, ctl')
          else (set_state St_done c, ctl)
        | _ => (set_state St_done c, ctl)
        end
      | None => (c, ctl)
      end
    | _ => (c, ctl)
    end
  end.

(** [StartCookingCommand.execute] *)
Definition execute_start_cooking (c : Command) (bot_id : Z) (ctl : Ctl)
    : Command * Ctl :=
  let c := tick c in
  match get_bot_state ctl.1 bot_id with
  | None => (c, ctl)
  | Some bs =>
    match state c with
    | St_navigating => navigate_to_cooker c bot_id bs ctl
    | St_placing =>
      match loc c with
      | Some cooker =>
        if negb (holds_nothing (holding bs)) then
          let ctl' := issue (Act_place bot_id cooker.1 cooker.2) ctl in
          if now_empty_handed ctl' bot_id then (set_state St_done c, ctl')
          else (set_state St_navigating c, ctl')
        else (c, ctl)
      | None => (c, ctl)
      end
    | _ => (c, ctl)
    end
  end.

(** [FinishCookingCommand._find_cooker_with_food] *)
Definition find_cooker_with_food (w : World) (food_type : FoodType) : option Cell :=
  find_item_on_tile w "COOKER"
    (λ it, match it with
           | ItPan (Some f) => bool_decide (food_name f = ft_name food_type)
           | _ => false
           end).

(** [self.food_burned = True; self.state = "done"] *)
Definition give_up_burned (c : Command) : Command :=
  set_state St_done (set_food_burned true c).

(** [FinishCookingCommand.execute] *)
Definition execute_finish_cooking (food_type : FoodType)
    (c : Command) (bot_id : Z) (ctl : Ctl) : Command * Ctl :=
  let c := tick c in
  match get_bot_state ctl.1 bot_id with
  | None => (c, ctl)
  | Some bs =>
    match state c with
    | St_waiting =>
      let c := locate (find_cooker_with_food ctl.1 food_type) c in
      match loc c with
      | None => (c, ctl)
      | Some cooker =>
        match item_at ctl cooker with
        | Some (ItPan (Some f)) =>
          if cooked_stage f =? 1 then (set_state St_navigating c, ctl)
          else if cooked_stage f >=? 2 then (give_up_burned c, ctl)
          else (c, ctl)
        | Some (ItPan None) => (c, ctl)
        | _ => (give_up_burned c, ctl)
        end
      end
    | St_navigating =>
      match loc c with
      | Some cooker =>
        if adjacent (bot_pos bs) cooker then (set_state St_picking_up c, ctl)
        else (c, move_or_stay bot_id (bot_pos bs) cooker ctl)
      | None => (c, ctl)
      end
    | St_picking_up =>
      match loc c with
      | Some cooker =>
        match item_at ctl cooker with
        | Some (ItPan (Some f)) =>
          if cooked_stage f =? 1 then
            (set_state St_done c,
             issue (Act_take_from_pan bot_id cooker.1 cooker.2) ctl)
          else (give_up_burned c, ctl)
        | _ => (give_up_burned c, ctl)
        end
      | None => (c, ctl)
      end
    | _ => (c, ctl)
    end
  end.

(** The first tile of a type, in scan order, that satisfies [ok]. *)
Definition first_tile (w : World) (name : string) (ok : Tile -> bool) : option Cell :=
  head (filter (λ c, tile_name (tile_at (get_map w) c) = name
                     ∧ ok (tile_at (get_map w) c) = true)
               (scan (get_map w))).

(** The closest tile of a type, from [from_pos], holding an item that
    satisfies [item_check]. *)
Definition closest_item_on_tile (w : World) (name : string)
    (item_check : Item -> bool) (from_pos : Cell) : option Cell :=
  closest from_pos
    (filter (λ c, tile_name (tile_at (get_map w) c) = name
                  ∧ from_option item_check false (item (tile_at (get_map w) c)) = true)
            (scan (get_map w))).

(** [StoreInBoxCommand]: a box is suitable when empty or holding food of
    the name of the held food. *)
Definition box_takes_food (held : option Item) (t : Tile) : bool :=
  match item t with
  | None => true
  | Some it =>
    match held with
    | Some (ItFood f) => item_is_food_named (food_name f) it
    | _ => false
    end
  end.

(** [StoreInBoxCommand.execute] *)
Definition execute_store_in_box (c : Command) (bot_id : Z) (ctl : Ctl)
    : Command * Ctl :=
  let c := tick c in
  match get_bot_state ctl.1 bot_id with
  | None => (c, ctl)
  | Some bs =>
    if holds_nothing (holding bs) then (c, ctl)
    else
      let c := locate (first_tile ctl.1 "BOX" (box_takes_food (holding bs))) c in
      match loc c with
      | None => (c, ctl)
      | Some box =>
        if adjacent (bot_pos bs) box
        then (c, issue (Act_place bot_id box.1 box.2) ctl)
        else (c, move_or_stay bot_id (bot_pos bs) box ctl)
      end
  end.

(** [PlaceOnCounterCommand.execute] *)
Definition execute_place_on_counter (c : Command) (bot_id : Z) (ctl : Ctl)
    : Command * Ctl :=
  let c := tick c in
  match get_bot_state ctl.1 bot_id with
  | None => (c, ctl)
  | Some bs =>
    let c := check_progress (position_fingerprint bs) c in
    if holds_nothing (holding bs) then (c, ctl)
    else
      let c := locate (find_closest_empty_tile ctl.1 "COUNTER" (bot_pos bs)) c in
      match loc c with
      | None => (if retries c <? max_retries c then bump_retries c else c, ctl)
      | Some counter =>
        if adjacent (bot_pos bs) counter then
          match item_at ctl counter with
          | None =>
            let ctl' := issue (Act_place bot_id counter.1 counter.2) ctl in
            if now_holding ctl' bot_id then (forget_target c, ctl') else (c, ctl')
          | Some _ => (forget_target c, ctl)
          end
        else
          match move_toward bot_id (bot_pos bs) counter ctl with
          | Some ctl' => (c, ctl')
          | None => (forget_target c, ctl)
          end
      end
  end.

(** [PickupFromBoxCommand.execute] *)
Definition execute_pickup_from_box (food_type : FoodType)
    (c : Command) (bot_id : Z) (ctl : Ctl) : Command * Ctl :=
  let c := tick c in
  match get_bot_state ctl.1 bot_id with
  | None => (c, ctl)
  | Some bs =>
    if negb (holds_nothing (holding bs)) then (c, ctl)
    else
      let c := locate (find_item_on_tile ctl.1 "BOX"
                         (item_is_food_named (ft_name food_type))) c in
      match loc c with
      | None => (c, ctl)
      | Some box =>
        if adjacent (bot_pos bs) box
        then (c, issue (Act_pickup bot_id box.1 box.2) ctl)
        else (c, move_or_stay bot_id (bot_pos bs) box ctl)
      end
  end.

(** [PickupPlateFromCounterCommand.execute] *)
Definition execute_pickup_plate_from_counter (c : Command) (bot_id : Z)
    (ctl : Ctl) : Command * Ctl :=
  let c := tick c in
  match get_bot_state ctl.1 bot_id with
  | None => (c, ctl)
  | Some bs =>
    let c := check_progress (position_fingerprint bs) c in
    if negb (holds_nothing (holding bs)) then (c, ctl)
    else
      let c :=
        if bool_decide (loc c = None) || (retries c >? 0)
        then set_loc (closest_item_on_tile ctl.1 "COUNTER" item_is_plate (bot_pos bs)) c
        else c in
      match loc c with
      | None => (bump_retries c, ctl)
      | Some plate =>
        if adjacent (bot_pos bs) plate then
          if from_option item_is_plate false (item_at ctl plate)
          then (c, issue (Act_pickup bot_id plate.1 plate.2) ctl)
          else (forget_target c, ctl)
        else
          match move_toward bot_id (bot_pos bs) plate ctl with
          | Some ctl' => (c, ctl')
          | None => (forget_target c, ctl)
          end
      end
  end.

(** [item.__class__.__name__ == holding_type] *)
Definition same_class (it held : Item) : bool :=
  match it, held with
  | ItFood _, ItFood _ | ItPlate _ _, ItPlate _ _ | ItPan _, ItPan _ => true
  | _, _ => false
  end.

(** [PlaceInBoxCommand]: [item is None or item.__class__.__name__ ==
    holding_type] *)
Definition box_takes (held : Item) (t : Tile) : bool :=
  match item t with
  | None => true
  | Some it => same_class it held
  end.

(** [PlaceInBoxCommand.execute] *)
Definition execute_place_in_box (c : Command) (bot_id : Z) (ctl : Ctl)
    : Command * Ctl :=
  let c := tick c in
  match get_bot_state ctl.1 bot_id with
  | None => (c, ctl)
  | Some bs =>
    match holding bs with
    | None => (c, ctl)
    | Some held =>
      let c := locate (first_tile ctl.1 "BOX" (box_takes held)) c in
      match loc c with
      | None => (if retries c <? max_retries c then bump_retries c else c, ctl)
      | Some box =>
        if adjacent (bot_pos bs) box then
          if box_takes held (tile_at (get_map ctl.1) box) then
            let ctl' := issue (Act_place bot_id box.1 box.2) ctl in
            if now_holding ctl' bot_id then (forget_target c, ctl') else (c, ctl')
          else (forget_target c, ctl)
        else (c, move_or_stay bot_id (bot_pos bs) box ctl)
      end
    end
  end.

(** [PickupPlateFromBoxCommand.execute] *)
Definition execute_pickup_plate_from_box (c : Command) (bot_id : Z) (ctl : Ctl)
    : Command * Ctl :=
  let c := tick c in
  match get_bot_state ctl.1 bot_id with
  | None => (c, ctl)
  | Some bs =>
    if negb (holds_nothing (holding bs)) then (c, ctl)
    else
      let c := locate (find_item_on_tile ctl.1 "BOX" item_is_plate) c in
      match loc c with
      | None => (c, ctl)
      | Some box =>
        if adjacent (bot_pos bs) box
        then (c, issue (Act_pickup bot_id box.1 box.2) ctl)
        else (c, move_or_stay bot_id (bot_pos bs) box ctl)
      end
  end.

(** [len(holding.get('food', []))] *)
Definition food_count (held : option Item) : Z :=
  match held with
  | Some (ItPlate _ foods) => Z.of_nat (length foods)
  | _ => 0
  end.

(** [AddFoodToPlateCommand.execute].  ["adding"] is only entered with
    [food_loc] and [initial_food_count] set. *)
Definition execute_add_food_to_plate (food_type : FoodType)
    (c : Command) (bot_id : Z) (ctl : Ctl) : Command * Ctl :=
  let c := tick c in
  match get_bot_state ctl.1 bot_id with
  | None => (c, ctl)
  | Some bs =>
    let c := check_progress
               (mkFingerprint (Some (state c)) (bs_x bs) (bs_y bs) None) c in
    let wanted := item_is_food_named (ft_name food_type) in
    if negb (holds_plate (holding bs)) then (set_state St_done c, ctl)
    else
      match state c with
      | St_navigating =>
        let c := locate (closest_item_on_tile ctl.1 "COUNTER" wanted (bot_pos bs)) c in
        match loc c with
        | None => (retry_or_give_up c, ctl)
        | Some food =>
          if adjacent (bot_pos bs) food then
            if from_option wanted false (item_at ctl food)
            then (set_state St_adding
                    (set_initial_food_count (Some (food_count (holding bs))) c), ctl)
            else (forget_target c, ctl)
          else
            match move_toward bot_id (bot_pos bs) food ctl with
            | Some ctl' => (c, ctl')
            | None => (forget_target c, ctl)
            end
        end
      | St_adding =>
        match loc c, initial_food_count c with
        | Some food, Some before =>
          if from_option wanted false (item_at ctl food) then
            let ctl' := issue (Act_add_food_to_plate bot_id food.1 food.2) ctl in
            match get_bot_state ctl'.1 bot_id with
            | None => (c, ctl')
            | Some bs' =>
              if holds_plate (holding bs') then
                if food_count (holding bs') >? before then (set_state St_done c, ctl')
                else (retry_or_give_up (set_loc None (set_state St_navigating c)), ctl')
              else (set_state St_done c, ctl')
            end
          else (retry_or_give_up (set_loc None (set_state St_navigating c)), ctl)
        | _, _ => (c, ctl)
        end
      | _ => (c, ctl)
      end
  end.

(** [SubmitOrderCommand.execute] *)
Definition execute_submit (c : Command) (bot_id : Z) (ctl : Ctl) : Command * Ctl :=
  let c := tick c in
  match get_bot_state ctl.1 bot_id with
  | None => (c, ctl)
  | Some bs =>
    let c := locate (find_tile ctl.1 "SUBMIT") c in
    match loc c with
    | None => (c, ctl)
    | Some station =>
      if adjacent (bot_pos bs) station then
        if holds_plate (holding bs) && negb (submitted c) then
          let ctl' := issue (Act_submit bot_id station.1 station.2) ctl in
          (set_submitted (negb (now_holding ctl' bot_id)) c, ctl')
        else (c, ctl)
      else (c, move_or_stay bot_id (bot_pos bs) station ctl)
    end
  end.

(** Dynamic dispatch of [current_cmd.execute(controller, bot_id)]. *)
Definition execute (c : Command) (bot_id : Z) (ctl : Ctl) : Command * Ctl :=
  match kind c with
  | BuyIngredient ft => execute_buy (Some ft) (buy_cost ft) c bot_id ctl
  | BuyPlate => execute_buy None plate_cost c bot_id ctl
  | ChopIngredient => execute_chop c bot_id ctl
  | CookIngredient => execute_cook c bot_id ctl
  | StartCooking => execute_start_cooking c bot_id ctl
  | FinishCooking ft => execute_finish_cooking ft c bot_id ctl
  | StoreInBox => execute_store_in_box c bot_id ctl
  | PlaceOnCounter => execute_place_on_counter c bot_id ctl
  | PickupFromBox ft => execute_pickup_from_box ft c bot_id ctl
  | PickupPlateFromCounter => execute_pickup_plate_from_counter c bot_id ctl
  | PlaceInBox => execute_place_in_box c bot_id ctl
  | PickupPlateFromBox => execute_pickup_plate_from_box c bot_id ctl
  | AddFoodToPlate ft => execute_add_food_to_plate ft c bot_id ctl
  | SubmitOrder _ => execute_submit c bot_id ctl
  end.

End Execute.

End Commands.

(** ** The Plan Compiler *)

Module RecipePlanner.
Import Commands.

Section Planner.
(** The members of the [FoodType] enum of [game_constants]. *)
Variable food_types : list FoodType.

(** [FoodType[food_name]]; [None] stands for the [KeyError]. *)
Definition lookup_food (name : string) : option FoodType :=
  List.find (λ ft, bool_decide (ft_name ft = name)) food_types.

Definition needs_chopping (food_type : FoodType) : bool := can_chop food_type.

Definition needs_cooking (food_type : FoodType) : bool := can_cook food_type.

Definition count_tiles (w : World) (name : string) : Z :=
  Z.of_nat (length (filter (λ c, tile_name (tile_at (get_map w) c) = name)
                           (scan (get_map w)))).

(** The names of [order["required"]] that are food types; unknown names
    are skipped with a warning. *)
Definition required_foods (order : Order) : list FoodType :=
  omap lookup_food (required order).

Definition cooking_foods (order : Order) : list FoodType :=
  List.filter needs_cooking (required_foods order).

Definition non_cooking_foods (order : Order) : list FoodType :=
  List.filter (λ f, negb (needs_cooking f)) (required_foods order).

(** [use_box_for_plate]; [controller] is an optional argument. *)
Definition use_box_for_plate (controller : option World) : bool :=
  match controller with
  | Some w => (count_tiles w "COUNTER" =? 1) && (count_tiles w "BOX" >=? 1)
  | None => false
  end.

Definition stage_plate (use_box : bool) : Command :=
  if use_box then PlaceInBoxCommand else PlaceOnCounterCommand.

Definition pickup_plate (use_box : bool) : Command :=
  if use_box then PickupPlateFromBoxCommand else PickupPlateFromCounterCommand.

(** The local helper [add_ingredient_to_plate_sequence]. *)
Definition add_ingredient_to_plate_sequence (use_box : bool)
    (food_type : FoodType) : list Command :=
  [PlaceOnCounterCommand; pickup_plate use_box;
   AddFoodToPlateCommand food_type; stage_plate use_box].

Definition chop_if_needed (food_type : FoodType) : list Command :=
  if needs_chopping food_type then [ChopIngredientCommand] else [].

Definition cook_if_needed (food_type : FoodType) : list Command :=
  if needs_cooking food_type then [CookIngredientCommand] else [].

(** [use_parallel_cooking] *)
Definition use_parallel_cooking (order : Order) (controller : option World) : bool :=
  negb (bool_decide (cooking_foods order = []))
  && negb (use_box_for_plate controller)
  && (Z.of_nat (length (non_cooking_foods order)) <=? 1).

(** The body of the [else] branch: every ingredient in turn. *)
Definition sequential_strategy (use_box : bool) (foods : list FoodType)
    : list Command :=
  food_type ← foods;
  BuyIngredientCommand food_type
    :: chop_if_needed food_type ++ cook_if_needed food_type
       ++ add_ingredient_to_plate_sequence use_box food_type.

(** The body of the [if use_parallel_cooking] branch. *)
Definition parallel_strategy (use_box : bool)
    (first_cooking : FoodType) (other_cooking non_cooking : list FoodType)
    : list Command :=
  BuyIngredientCommand first_cooking
    :: chop_if_needed first_cooking
  ++ [StartCookingCommand]
  ++ (food_type ← non_cooking;
      BuyIngredientCommand food_type
        :: chop_if_needed food_type
           ++ add_ingredient_to_plate_sequence use_box food_type)
  ++ [FinishCookingCommand first_cooking]
  ++ add_ingredient_to_plate_sequence use_box first_cooking
  ++ (food_type ← other_cooking;
      BuyIngredientCommand food_type
        :: chop_if_needed food_type
           ++ [CookIngredientCommand]
           ++ add_ingredient_to_plate_sequence use_box food_type).

(** [RecipePlanner.build_commands_for_order] *)
Definition build_commands_for_order (order : Order) (controller : option World)
    : list Command :=
  let use_box := use_box_for_plate controller in
  [BuyPlateCommand; stage_plate use_box]
  ++ (if use_parallel_cooking order controller then
        match cooking_foods order with
        | first_cooking :: others =>
            parallel_strategy use_box first_cooking others (non_cooking_foods order)
        | [] => []
        end
      else sequential_strategy use_box (required_foods order))
  ++ [pickup_plate use_box; SubmitOrderCommand (order_id order)].

(** The older [command_bot4.py] takes the parallel branch on
    [cooking_foods and not use_box_for_plate] alone; the two branches
    build the same classes of commands. *)
Definition use_parallel_cooking_v4 (order : Order) (controller : option World)
    : bool :=
  negb (bool_decide (cooking_foods order = []))
  && negb (use_box_for_plate controller).

Definition build_command_kinds_v4 (order : Order) (controller : option World)
    : list CommandKind :=
  let use_box := use_box_for_plate controller in
  kind <$>
    ([BuyPlateCommand; stage_plate use_box]
     ++ (if use_parallel_cooking_v4 order controller then
           match cooking_foods order with
           | first_cooking :: others =>
               parallel_strategy use_box first_cooking others (non_cooking_foods order)
           | [] => []
           end
         else sequential_strategy use_box (required_foods order))
     ++ [pickup_plate use_box; SubmitOrderCommand (order_id order)]).

End Planner.

End RecipePlanner.

(** ** The Order Selector and the Executor loop *)

Module BotPlayer.
Import Commands.

(** The attributes of a [BotPlayer] that change over a match. *)
Record BotPlayer := mkBotPlayer {
  bp_map : GameMap;
  command_queue : list Command;
  current_command_index : nat;
  processed_orders : gset Z;
  current_order_id : option Z;
  cleaning_workspace : bool;
  cleanup_turns : Z
}.

(** [self.max_cleanup_turns], set in [__init__] and never reassigned. *)
Definition max_cleanup_turns : Z := 20.

(** [BotPlayer.__init__] *)
Definition new_bot_player (map_copy : GameMap) : BotPlayer :=
  {| bp_map := map_copy; command_queue := []; current_command_index := 0;
     processed_orders := ∅; current_order_id := None;
     cleaning_workspace := false; cleanup_turns := 0 |}.

(** A candidate of the selection loop.  [cand_remaining] is [None] for
    [float('inf')], an order without [expires_turn]. *)
Record Candidate := mkCandidate {
  cand_order : Order;
  cand_remaining : option Z;
  cand_estimated : Z;
  cand_total_value : Z;
  cand_cost : Z;
  cand_profit : Z
}.

Section Bot.
Variable apply_action : Action -> World -> World.
Variable plate_cost : Z.
Variable food_types : list FoodType.

(** [BotPlayer.has_accessible_tile_type] *)
Definition has_accessible_tile_type (self : BotPlayer) (w : World)
    (name : string) (from_pos : Cell) : bool :=
  existsb
    (λ tile_pos,
       bool_decide (tile_name (tile_at (bp_map self) tile_pos) = name)
       && existsb
            (λ d, negb ((d.1 =? 0) && (d.2 =? 0))
                  && Navigator.in_bounds (bp_map self) (move tile_pos d)
                  && is_walkable (tile_at (bp_map self) (move tile_pos d))
                  && (bool_decide (is_Some (bfs_to_adjacent w from_pos tile_pos))
                      || adjacent from_pos tile_pos))
            Navigator.directions)
    (scan (bp_map self)).

(** *** Order selection *)

(** [food_name in [ft.name for ft in FoodType]] together with
    [FoodType[food_name]] *)
Definition known_foods (order : Order) : list FoodType :=
  RecipePlanner.required_foods food_types order.

Definition cooking_count (order : Order) : Z :=
  Z.of_nat (length (List.filter can_cook (known_foods order))).

Definition chopping_count (order : Order) : Z :=
  Z.of_nat (length (List.filter can_chop (known_foods order))).

Definition num_ingredients (order : Order) : Z :=
  Z.of_nat (length (required order)).

Definition has_cooking (order : Order) : bool :=
  existsb can_cook (known_foods order).

Definition min_turns_needed (order : Order) : Z :=
  if has_cooking order then 50 else 10.

Definition cooking_turns (order : Order) : Z :=
  if cooking_count order >? 0 then
    if num_ingredients order - cooking_count order <=? 1
    then Z.max 0 (cooking_count order - 1) * 28 + 18
    else cooking_count order * 28
  else 0.

Definition estimated_turns (order : Order) : Z :=
  25 + num_ingredients order * 10 + chopping_count order * 7 + cooking_turns order.

Definition ingredient_cost (order : Order) : Z :=
  foldr Z.add 0 (buy_cost <$> known_foods order) + plate_cost.

(** [order.get("expires_turn", float('inf')) - current_turn] *)
Definition remaining_turns (w : World) (order : Order) : option Z :=
  (λ e, e - get_turn w) <$> expires_turn order.

(** [remaining < bound] for an integer bound. *)
Definition remaining_below (remaining : option Z) (bound : Z) : bool :=
  match remaining with
  | Some r => r <? bound
  | None => false
  end.

(** [remaining >= estimated * multiplier], the multiplier (1.15 or 1.30
    in the source) given in hundredths.  The source multiplies an
    integer by a float; for integers below 2^50 the rounded product
    compares with an integer as the exact product does. *)
Definition enough_time (percent : Z) (remaining : option Z) (estimated : Z) : bool :=
  match remaining with
  | Some r => estimated * percent <=? r * 100
  | None => true
  end.

(** The body of [for order in orders] for an active, unprocessed order:
    [None] when the order is skipped (and marked processed). *)
Definition assess (self : BotPlayer) (w : World) (bot_pos : Cell) (order : Order)
    : option Candidate :=
  let remaining := remaining_turns w order in
  if remaining_below remaining (min_turns_needed order) then None
  else if (cooking_count order >? 0)
          && negb (has_accessible_tile_type self w "COOKER" bot_pos) then None
  else if (chopping_count order >? 0)
          && negb (has_accessible_tile_type self w "COUNTER" bot_pos) then None
  else if negb (enough_time 115 remaining (estimated_turns order)) then None
  else
    let total_value := reward order + penalty order in
    if ingredient_cost order >=? total_value then None
    else Some {| cand_order := order; cand_remaining := remaining;
                 cand_estimated := estimated_turns order;
                 cand_total_value := total_value;
                 cand_cost := ingredient_cost order;
                 cand_profit := total_value - ingredient_cost order |}.

(** One iteration of [for order in orders]. *)
Definition consider (self : BotPlayer) (w : World) (bot_pos : Cell)
    (acc : gset Z * list Candidate) (order : Order) : gset Z * list Candidate :=
  let '(processed, candidates) := acc in
  if is_active order && negb (bool_decide (order_id order ∈ processed)) then
    match assess self w bot_pos order with
    | Some cand => (processed, candidates ++ [cand])
    | None => ({[order_id order]} ∪ processed, candidates)
    end
  else acc.

Definition collect_candidates (self : BotPlayer) (w : World) (bot_pos : Cell)
    : gset Z * list Candidate :=
  foldl (consider self w bot_pos) (processed_orders self, []) (get_orders w).

(** [game_turns_remaining < 200] *)
Definition late_game (w : World) : bool := 500 - get_turn w <? 200.

(** [buffer_multiplier], in hundredths. *)
Definition buffer_multiplier (w : World) : Z := if late_game w then 130 else 115.

(** [profit / estimated_turns] is Python's true division of two
    integers: the quotient rounded to the nearest double, halves to the
    even neighbour.  A finite double is an integer multiple of
    [2^-1074]; it is given here by that integer, so that doubles
    compare as these integers do.  (A quotient of [2^1024] or more,
    where Python raises [OverflowError], is rounded as if the exponent
    had no upper end.) *)

(** [a / b] rounded to the nearest integer, halves to even, for
    [0 <= a] and [0 < b]. *)
Definition round_half_even (a b : Z) : Z :=
  let q := a / b in
  let r := a mod b in
  if 2 * r <? b then q
  else if b <? 2 * r then q + 1
  else if Z.even q then q else q + 1.

(** The binary exponent of [a / b], for [0 < a] and [0 < b]: the [e]
    with [2^e <= a / b < 2^(e+1)]. *)
Definition quotient_exponent (a b : Z) : Z :=
  let d := Z.log2 a - Z.log2 b in
  if a * 2 ^ Z.max 0 (- d) <? b * 2 ^ Z.max 0 d then d - 1 else d.

(** The double nearest to [a / b], for [0 <= a] and [0 < b].  The
    spacing of the doubles around [a / b] is [2^(e-52)], and [2^-1074]
    below the normal range; in units of [2^-1074] the quotient is
    [a * 2^1074 / b] and the spacing is [2^s] with [s] as below. *)
Definition nearest_double (a b : Z) : Z :=
  if a =? 0 then 0
  else
    let s := Z.max 0 (quotient_exponent a b + 1022) in
    2 ^ s * round_half_even (a * 2 ^ 1074) (b * 2 ^ s).

(** [a / b] on integers of either sign.  [b] is never 0 where the bot
    divides ([estimated_turns] is at least 25). *)
Definition true_divide (a b : Z) : Z :=
  Z.sgn a * Z.sgn b * nearest_double (Z.abs a) (Z.abs b).

(** [profit_per_turn = profit / estimated_turns] *)
Definition profit_per_turn (c : Candidate) : Z :=
  true_divide (cand_profit c) (cand_estimated c).

(** The sort keys.  Late game: [(estimated_turns, -profit)] ascending.
    Otherwise [profit_per_turn] descending ([reverse=True]). *)
Definition sorts_before (late : bool) (a b : Candidate) : bool :=
  if late then
    (cand_estimated a <? cand_estimated b)
    || ((cand_estimated a =? cand_estimated b) && (- cand_profit a <? - cand_profit b))
  else profit_per_turn b <? profit_per_turn a.

(** [list.sort] is stable, also with [reverse=True]: an element goes
    behind those it does not sort before. *)
Fixpoint insert_sorted (late : bool) (x : Candidate) (l : list Candidate)
    : list Candidate :=
  match l with
  | [] => [x]
  | y :: l' => if sorts_before late x y then x :: l else y :: insert_sorted late x l'
  end.

Definition sort_candidates (late : bool) (l : list Candidate) : list Candidate :=
  foldl (λ acc x, insert_sorted late x acc) [] l.

(** The [for candidate in candidate_orders] loop with its [break]. *)
Definition choose_best (w : World) (candidates : list Candidate) : option Candidate :=
  List.find (λ c, enough_time (buffer_multiplier w) (cand_remaining c) (cand_estimated c))
            (sort_candidates (late_game w) candidates).

(** *** Cleaning and disposal *)

Definition set_cleaning (b : bool) (self : BotPlayer) : BotPlayer :=
  {| bp_map := bp_map self; command_queue := command_queue self;
     current_command_index := current_command_index self;
     processed_orders := processed_orders self;
     current_order_id := current_order_id self;
     cleaning_workspace := b; cleanup_turns := cleanup_turns self |}.

Definition set_cleanup_turns (n : Z) (self : BotPlayer) : BotPlayer :=
  {| bp_map := bp_map self; command_queue := command_queue self;
     current_command_index := current_command_index self;
     processed_orders := processed_orders self;
     current_order_id := current_order_id self;
     cleaning_workspace := cleaning_workspace self; cleanup_turns := n |}.

(** The block that abandons the plan, on expiry and on a stuck command:
    mark the order processed, clear the queue, enter cleanup mode. *)
Definition abort_plan (self : BotPlayer) : BotPlayer :=
  {| bp_map := bp_map self; command_queue := []; current_command_index := 0;
     processed_orders :=
       match current_order_id self with
       | Some id => {[id]} ∪ processed_orders self
       | None => processed_orders self
       end;
     current_order_id := None; cleaning_workspace := true; cleanup_turns := 0 |}.

(** [any(o["order_id"] == self.current_order_id and o["is_active"] ...)] *)
Definition order_still_active (w : World) (id : Z) : bool :=
  existsb (λ o, (order_id o =? id) && is_active o) (get_orders w).

(** Act on [target] when next to it, otherwise take a step toward it. *)
Definition reach_and (act : Action) (bot_id : Z) (pos target : Cell) (ctl : Ctl)
    : Ctl :=
  if adjacent pos target then issue apply_action act ctl
  else move_or_stay apply_action bot_id pos target ctl.

Definition clean_empty_plate (held : Item) : bool :=
  match held with
  | ItPlate dirty foods => bool_decide (foods = []) && negb dirty
  | _ => false
  end.

(** Where a clean empty plate is put down: the closest empty counter,
    else the closest empty box. *)
Definition plate_spot (w : World) (pos : Cell) : option Cell :=
  match find_closest_empty_tile w "COUNTER" pos with
  | Some c => Some c
  | None => find_closest_empty_tile w "BOX" pos
  end.

(** The first counter or box tile, in scan order, whose item satisfies
    [item_check]. *)
Definition first_left_item (w : World) (item_check : Item -> bool) : option Cell :=
  head (filter (λ c, (tile_name (tile_at (get_map w) c) = "COUNTER"
                      ∨ tile_name (tile_at (get_map w) c) = "BOX")
                     ∧ from_option item_check false (item (tile_at (get_map w) c)) = true)
               (scan (get_map w))).

Definition cleanup_target (w : World) : option Cell :=
  match first_left_item w item_is_food with
  | Some c => Some c
  | None => first_left_item w item_is_plate
  end.

(** The [if self.cleaning_workspace:] block. *)
Definition cleanup (self : BotPlayer) (bot_id : Z) (ctl : Ctl) : BotPlayer * Ctl :=
  let self := set_cleanup_turns (cleanup_turns self + 1) self in
  if cleanup_turns self >? max_cleanup_turns
  then (set_cleanup_turns 0 (set_cleaning false self), ctl)
  else
    match get_bot_state ctl.1 bot_id with
    | None => (self, ctl)
    | Some bs =>
      let pos := bot_pos bs in
      match holding bs with
      | Some held =>
        if clean_empty_plate held then
          match plate_spot ctl.1 pos with
          | Some target =>
              (self, reach_and (Act_place bot_id target.1 target.2) bot_id pos target ctl)
          | None => (set_cleaning false self, ctl)
          end
        else
          match find_tile ctl.1 "TRASH" with
          | Some trash =>
              (self, reach_and (Act_trash bot_id trash.1 trash.2) bot_id pos trash ctl)
          | None => (set_cleaning false self, ctl)
          end
      | None =>
        match cleanup_target ctl.1 with
        | Some target =>
            (self, reach_and (Act_pickup bot_id target.1 target.2) bot_id pos target ctl)
        | None => (set_cleaning false self, ctl)
        end
      end
    end.

(** Between orders, with something still in hand: place a clean empty
    plate, trash anything else. *)
Definition dispose_held (held : Item) (bs : BotState) (bot_id : Z) (ctl : Ctl) : Ctl :=
  let pos := bot_pos bs in
  if clean_empty_plate held then
    match plate_spot ctl.1 pos with
    | Some target => reach_and (Act_place bot_id target.1 target.2) bot_id pos target ctl
    | None => ctl
    end
  else
    match find_tile ctl.1 "TRASH" with
    | Some trash => reach_and (Act_trash bot_id trash.1 trash.2) bot_id pos trash ctl
    | None => ctl
    end.

(** *** Stepping the plan *)

(** [BotPlayer.get_current_command]: [None] when the index is past the
    end of the queue. *)
Definition get_current_command (self : BotPlayer) : option Command :=
  command_queue self !! current_command_index self.

(** From [current_cmd = self.get_current_command()] to the end of
    [play_turn]; [advance_command] is the increment of the index. *)
Definition step_plan (self : BotPlayer) (bot_id : Z) (ctl : Ctl) : BotPlayer * Ctl :=
  match get_current_command self with
  | None =>
      ({| bp_map := bp_map self; command_queue := command_queue self;
          current_command_index := current_command_index self;
          processed_orders := processed_orders self;
          current_order_id := None;
          cleaning_workspace := cleaning_workspace self;
          cleanup_turns := cleanup_turns self |}, ctl)
  | Some current_cmd =>
    if is_stuck current_cmd then (abort_plan self, ctl)
    else
      let '(cmd', ctl') := execute apply_action plate_cost current_cmd bot_id ctl in
      let queue := <[current_command_index self := cmd']> (command_queue self) in
      if is_complete cmd' ctl'.1 bot_id then
        let index := S (current_command_index self) in
        let finished := bool_decide (length queue ≤ index)%nat in
        ({| bp_map := bp_map self; command_queue := queue;
            current_command_index := index;
            processed_orders :=
              match current_order_id self with
              | Some id => if finished then {[id]} ∪ processed_orders self
                           else processed_orders self
              | None => processed_orders self
              end;
            current_order_id := if finished then None else current_order_id self;
            cleaning_workspace := cleaning_workspace self;
            cleanup_turns := cleanup_turns self |}, ctl')
      else
        ({| bp_map := bp_map self; command_queue := queue;
            current_command_index := current_command_index self;
            processed_orders := processed_orders self;
            current_order_id := current_order_id self;
            cleaning_workspace := cleaning_workspace self;
            cleanup_turns := cleanup_turns self |}, ctl')
  end.

(** The order-selection block, entered with empty hands and no plan. *)
Definition select_and_start (self : BotPlayer) (bs : BotState) (bot_id : Z)
    (ctl : Ctl) : BotPlayer * Ctl :=
  let '(processed, candidates) := collect_candidates self ctl.1 (bot_pos bs) in
  let marked :=
    {| bp_map := bp_map self; command_queue := command_queue self;
       current_command_index := current_command_index self;
       processed_orders := processed;
       current_order_id := current_order_id self;
       cleaning_workspace := cleaning_workspace self;
       cleanup_turns := cleanup_turns self |} in
  match choose_best ctl.1 candidates with
  | None => (marked, ctl)
  | Some best =>
    let queue :=
      RecipePlanner.build_commands_for_order food_types (cand_order best) (Some ctl.1) in
    let started :=
      {| bp_map := bp_map self; command_queue := queue;
         current_command_index := 0;
         processed_orders := processed;
         current_order_id := Some (order_id (cand_order best));
         cleaning_workspace := cleaning_workspace self;
         cleanup_turns := cleanup_turns self |} in
    if bool_decide (queue = []) then (started, ctl)
    else step_plan started bot_id ctl
  end.

(** [BotPlayer.play_turn] *)
Definition play_turn (self : BotPlayer) (ctl : Ctl) : BotPlayer * Ctl :=
  match get_team_bot_ids ctl.1 with
  | [] => (self, ctl)
  | bot_id :: _ =>
    let self :=
      match current_order_id self with
      | Some id => if order_still_active ctl.1 id then self else abort_plan self
      | None => self
      end in
    if cleaning_workspace self then cleanup self bot_id ctl
    else if bool_decide (length (command_queue self) ≤ current_command_index self)%nat then
      match get_bot_state ctl.1 bot_id with
      | None => (self, ctl)
      | Some bs =>
        match holding bs with
        | Some held => (self, dispose_held held bs bot_id ctl)
        | None => select_and_start self bs bot_id ctl
        end
      end
    else step_plan self bot_id ctl
  end.

(** A match: [play_turn] on the successive worlds the engine shows. *)
Definition run (self : BotPlayer) (worlds : list World) : BotPlayer :=
  foldl (λ s w, (play_turn s (w, [])).1) self worlds.

End Bot.

End BotPlayer.

(** * Properties *)

(** ** Example data

    The food types of the repository's own mock of [game_constants]
    ([src/bots/test_choose_order.py]). *)
Definition NOODLES : FoodType := mkFoodType "NOODLES" false false 5.
Definition MEAT : FoodType := mkFoodType "MEAT" false true 12.
Definition VEGGIE : FoodType := mkFoodType "VEGGIE" true false 3.
Definition mock_food_types : list FoodType := [NOODLES; MEAT; VEGGIE].

(** A kitchen given by the tiles that are not floor. *)
Definition kitchen_map (w h : Z) (stations : list (Cell * Tile)) : GameMap :=
  mkMap w h (λ x y,
    match List.find (λ e, bool_decide (e.1 = (x, y))) stations with
    | Some e => e.2
    | None => mkTile "FLOOR" true None
    end).

Definition station (name : string) (it : option Item) : Tile := mkTile name false it.

(** A world with one bot, numbered 0. *)
Definition one_bot_world (turn : Z) (m : GameMap) (bs : option BotState)
    (orders : list Order) (money : Z) : World :=
  mkWorld turn m [0] (λ bid, if bid =? 0 then bs else None) orders money.

(** A 3 x 3 floor with the bot in the middle, empty-handed. *)
Definition empty_kitchen_world : World :=
  one_bot_world 0 (kitchen_map 3 3 []) (Some (mkBotState 1 1 None)) [] 0.

(** ** Command completion (C4) *)

Section CompletionProperties.
Import Commands.

(** The classes whose [is_complete] reads only the bot state. *)
Definition observes_only (k : CommandKind) : bool :=
  match k with
  | ChopIngredient | CookIngredient | StartCooking
  | FinishCooking _ | AddFoodToPlate _ => false
  | _ => true
  end.

(** C4, as stated, fails: two [StartCookingCommand] objects that differ
    only in their internal state give different answers in the same
    world. *)
Lemma is_complete_reads_progress_state :
  kind StartCookingCommand = kind (set_state St_done StartCookingCommand)
  ∧ is_complete StartCookingCommand empty_kitchen_world 0 = false
  ∧ is_complete (set_state St_done StartCookingCommand) empty_kitchen_world 0 = true.
Proof. by vm_compute. Qed.

(** What [is_complete] can observe of the world: the item the bot
    holds, when the controller reports a state for the bot. *)
Definition observed_holding (w : World) (bot_id : Z) : option (option Item) :=
  holding <$> get_bot_state w bot_id.

(** C4, amended.  For the buy, place, store, pick-up and submit classes
    [is_complete] is a function of the class (with its food type) and
    of the observed held item alone, whatever else the world shows:
    buying an ingredient is complete when food of that name is held,
    the plate classes when a plate is held, placing, storing and
    submitting when nothing is held, and [PickupFromBoxCommand] never.
    For the five classes with an internal state machine it is [false]
    until the internal state is ["done"]; for [StartCookingCommand] and
    [AddFoodToPlateCommand] it is the test [state == "done"] itself; in
    state ["done"] chopping is complete exactly when chopped food is
    held, cooking when food at cooked stage 1 is held, and finishing
    the cooking when the command's burnt flag is set or food at stage 1
    is held.  For every class it reads nothing of the command but its
    class, [state] and [food_burned], and nothing of the world but the
    held item. *)
Theorem is_complete_dependencies :
  (∀ c1 c2 w1 w2 b1 b2,
     kind c1 = kind c2 -> observes_only (kind c1) = true ->
     observed_holding w1 b1 = observed_holding w2 b2 ->
     is_complete c1 w1 b1 = is_complete c2 w2 b2)
  ∧ (∀ c w bot_id,
       match kind c with
       | BuyIngredient ft =>
           is_complete c w bot_id = true
           <-> ∃ f, observed_holding w bot_id = Some (Some (ItFood f))
                    ∧ food_name f = ft_name ft
       | BuyPlate | PickupPlateFromCounter | PickupPlateFromBox =>
           is_complete c w bot_id = true
           <-> ∃ dirty foods,
                 observed_holding w bot_id = Some (Some (ItPlate dirty foods))
       | StoreInBox | PlaceOnCounter | PlaceInBox | SubmitOrder _ =>
           is_complete c w bot_id = true
           <-> observed_holding w bot_id = Some None
       | PickupFromBox _ => is_complete c w bot_id = false
       | _ => True
       end)
  ∧ (∀ c w bot_id,
       observes_only (kind c) = false -> state c ≠ St_done ->
       is_complete c w bot_id = false)
  ∧ (∀ c w bot_id,
       kind c = StartCooking ∨ (∃ ft, kind c = AddFoodToPlate ft) ->
       is_complete c w bot_id = bool_decide (state c = St_done))
  ∧ (∀ c w bot_id,
       kind c = ChopIngredient ->
       is_complete c w bot_id = true
       <-> state c = St_done
           ∧ ∃ f, observed_holding w bot_id = Some (Some (ItFood f))
                  ∧ chopped f = true)
  ∧ (∀ c w bot_id,
       kind c = CookIngredient ->
       is_complete c w bot_id = true
       <-> state c = St_done
           ∧ ∃ f, observed_holding w bot_id = Some (Some (ItFood f))
                  ∧ cooked_stage f = 1)
  ∧ (∀ c w bot_id ft,
       kind c = FinishCooking ft ->
       is_complete c w bot_id = true
       <-> state c = St_done
           ∧ (food_burned c = true
              ∨ ∃ f, observed_holding w bot_id = Some (Some (ItFood f))
                     ∧ cooked_stage f = 1))
  ∧ (∀ c1 c2 w1 w2 b1 b2,
       kind c1 = kind c2 -> state c1 = state c2 ->
       food_burned c1 = food_burned c2 ->
       observed_holding w1 b1 = observed_holding w2 b2 ->
       is_complete c1 w1 b1 = is_complete c2 w2 b2).
Proof.
  assert (Hsame : ∀ c1 c2 w1 w2 b1 b2,
            kind c1 = kind c2 -> state c1 = state c2 ->
            food_burned c1 = food_burned c2 ->
            observed_holding w1 b1 = observed_holding w2 b2 ->
            is_complete c1 w1 b1 = is_complete c2 w2 b2).
  { intros c1 c2 w1 w2 b1 b2 Hk Hs Hb Hobs. unfold is_complete, observed_holding in *.
    rewrite <- Hk, <- Hs, <- Hb.
    destruct (get_bot_state w1 b1) as [bs1|], (get_bot_state w2 b2) as [bs2|];
      simpl in Hobs; try discriminate; [|done].
    injection Hobs as ->. done. }
  split_and!.
  - intros c1 c2 w1 w2 b1 b2 Hk Ho Hobs. unfold is_complete, observed_holding in *.
    rewrite <- Hk.
    destruct (get_bot_state w1 b1) as [bs1|], (get_bot_state w2 b2) as [bs2|];
      simpl in Hobs; try discriminate.
    + injection Hobs as ->. by destruct (kind c1).
    + by destruct (kind c1).
  - intros c w b. unfold is_complete, observed_holding.
    destruct (kind c); try done;
      destruct (get_bot_state w b) as [bs|]; simpl;
      try (split; [done|naive_solver]);
      destruct (holding bs) as [[f|dirty foods|pan]|]; simpl;
      rewrite ?bool_decide_eq_true; naive_solver.
  - intros c w b Ho Hs. unfold is_complete.
    destruct (kind c); try done; by rewrite ?bool_decide_eq_false_2.
  - intros c w b [Hk|[ft Hk]]; unfold is_complete; by rewrite Hk.
  - intros c w b Hk. unfold is_complete, observed_holding. rewrite Hk.
    case_bool_decide; simpl; [|naive_solver].
    destruct (get_bot_state w b) as [bs|]; simpl; [|naive_solver].
    destruct (holding bs) as [[f|dirty foods|pan]|]; simpl; naive_solver.
  - intros c w b Hk. unfold is_complete, observed_holding. rewrite Hk.
    case_bool_decide; simpl; [|naive_solver].
    destruct (get_bot_state w b) as [bs|]; simpl; [|naive_solver].
    destruct (holding bs) as [[f|dirty foods|pan]|]; simpl;
      rewrite ?Z.eqb_eq; naive_solver.
  - intros c w b ft Hk. unfold is_complete, observed_holding. rewrite Hk.
    case_bool_decide; simpl; [|naive_solver].
    destruct (food_burned c); [naive_solver|].
    destruct (get_bot_state w b) as [bs|]; simpl; [|naive_solver].
    destruct (holding bs) as [[f|dirty foods|pan]|]; simpl;
      rewrite ?Z.eqb_eq; naive_solver.
  - exact Hsame.
Qed.

End CompletionProperties.

(** ** The Plan Compiler (C3) *)

Section PlannerProperties.
Import Commands RecipePlanner.
Variable food_types : list FoodType.

(** "Each item fully bought, chopped, cooked and plated before the next
    begins": the steps of one item, and their concatenation over the
    required items. *)
Definition item_steps (use_box : bool) (food_type : FoodType) : list Command :=
  [BuyIngredientCommand food_type]
  ++ (if can_chop food_type then [ChopIngredientCommand] else [])
  ++ (if can_cook food_type then [CookIngredientCommand] else [])
  ++ [PlaceOnCounterCommand; pickup_plate use_box;
      AddFoodToPlateCommand food_type; stage_plate use_box].

Definition strictly_sequential (use_box : bool) (foods : list FoodType)
    : list Command :=
  foods ≫= item_steps use_box.

(** The compiled sequence interleaves when it starts a cook without
    waiting for it. *)
Definition interleaved (plan : list Command) : Prop :=
  StartCookingCommand ∈ plan.

Lemma bind_ext_Forall {A B} (P : A -> Prop) (f g : A -> list B) (l : list A) :
  Forall P l -> (∀ x, P x -> f x = g x) -> l ≫= f = l ≫= g.
Proof.
  intros Hl Hfg. induction Hl as [|x l Hx _ IH]; [done|].
  by rewrite !bind_cons, IH, (Hfg x Hx).
Qed.

Lemma Forall_filter_true {A} (p : A -> bool) (l : list A) :
  Forall (λ x, p x = true) (List.filter p l).
Proof.
  apply Forall_forall. intros x Hx.
  apply list_elem_of_In, filter_In in Hx. tauto.
Qed.

Lemma strictly_sequential_not_interleaved use_box foods :
  ¬ interleaved (strictly_sequential use_box foods).
Proof.
  unfold interleaved, strictly_sequential. intros Hin.
  apply list_elem_of_bind in Hin as (ft & Hin & _).
  unfold item_steps in Hin.
  destruct (can_chop ft), (can_cook ft), use_box; simpl in Hin;
    repeat (apply elem_of_cons in Hin as [Hin|Hin]; [discriminate Hin|]);
    by apply elem_of_nil in Hin.
Qed.

Lemma sequential_strategy_spec use_box foods :
  sequential_strategy use_box foods = strictly_sequential use_box foods.
Proof. done. Qed.

Lemma parallel_strategy_spec use_box first others non_cooking :
  can_cook first = true ->
  Forall (λ f, can_cook f = true) others ->
  Forall (λ f, negb (can_cook f) = true) non_cooking ->
  parallel_strategy use_box first others non_cooking
  = BuyIngredientCommand first
      :: (if can_chop first then [ChopIngredientCommand] else [])
      ++ [StartCookingCommand]
      ++ strictly_sequential use_box non_cooking
      ++ [FinishCookingCommand first; PlaceOnCounterCommand; pickup_plate use_box;
          AddFoodToPlateCommand first; stage_plate use_box]
      ++ strictly_sequential use_box others.
Proof.
  intros Hfirst Hothers Hnon. unfold parallel_strategy, strictly_sequential.
  rewrite (bind_ext_Forall _ _ (item_steps use_box) _ Hnon).
  2:{ intros x Hx. unfold item_steps, chop_if_needed, needs_chopping.
      apply negb_true_iff in Hx. by rewrite Hx. }
  rewrite (bind_ext_Forall _ _ (item_steps use_box) _ Hothers).
  2:{ intros x Hx. unfold item_steps, chop_if_needed, needs_chopping.
      by rewrite Hx. }
  done.
Qed.

Lemma strictly_sequential_kinds use_box foods c :
  c ∈ strictly_sequential use_box foods -> kind c ≠ StartCooking.
Proof.
  unfold strictly_sequential. intros Hin.
  apply list_elem_of_bind in Hin as (ft & Hin & _).
  unfold item_steps in Hin.
  destruct (can_chop ft), (can_cook ft), use_box; simpl in Hin;
    repeat (apply elem_of_cons in Hin as [->|Hin]; [done|]);
    by apply elem_of_nil in Hin.
Qed.

(** The older planner interleaves whenever there is a cooking item and
    the plate is staged on a counter. *)
Lemma interleaving_condition_v4 order controller :
  StartCooking ∈ build_command_kinds_v4 food_types order controller
  <-> cooking_foods food_types order ≠ []
      ∧ use_box_for_plate controller = false.
Proof.
  unfold build_command_kinds_v4, use_parallel_cooking_v4.
  rewrite list_elem_of_fmap. split.
  - intros (c & Hk & Hin).
    destruct (bool_decide (cooking_foods food_types order = [])) eqn:Hc;
      destruct (use_box_for_plate controller) eqn:Hb; simpl in Hin.
    all: try (apply bool_decide_eq_false in Hc; by split).
    all: exfalso;
      rewrite !elem_of_cons, elem_of_app, !elem_of_cons, elem_of_nil in Hin.
    all: destruct Hin as [->|[->|[Hin|[->|[->|[]]]]]]; try done.
    all: by apply strictly_sequential_kinds in Hin.
  - intros [Hc Hb]. rewrite Hb. rewrite bool_decide_eq_false_2 by done.
    cbn [negb andb].
    destruct (cooking_foods food_types order) as [|first others]; [done|].
    exists StartCookingCommand. split; [done|].
    unfold parallel_strategy. rewrite !elem_of_app. right; left.
    rewrite elem_of_cons, !elem_of_app. right; right; left.
    by apply list_elem_of_singleton.
Qed.

(** A kitchen with a shop, two counters, a cooker, a submit station and
    a trash can along the top wall. *)
Definition two_counter_kitchen : GameMap :=
  kitchen_map 6 4
    [((0, 0), station "SHOP" None); ((1, 0), station "COUNTER" None);
     ((2, 0), station "COUNTER" None); ((3, 0), station "COOKER" None);
     ((4, 0), station "SUBMIT" None); ((5, 0), station "TRASH" None)].

Definition two_counter_world (turn : Z) (orders : list Order) : World :=
  one_bot_world turn two_counter_kitchen (Some (mkBotState 2 2 None)) orders 100.

(** An order for two cooking items and one that needs no cooking. *)
Definition double_meat_order : Order :=
  mkOrder 7 ["MEAT"; "MEAT"; "NOODLES"] 120 30 (Some 400) true.

(** C3, as stated, fails: the order has two items that need cooking, and
    the compiled sequence starts the first cook, buys and plates the
    noodles while it cooks, and only then finishes the cook. *)
Lemma two_cooking_items_still_interleave :
  length (cooking_foods mock_food_types double_meat_order) = 2%nat
  ∧ kind <$> build_commands_for_order mock_food_types double_meat_order
               (Some (two_counter_world 10 [double_meat_order]))
    = [BuyPlate; PlaceOnCounter;
       BuyIngredient MEAT; StartCooking;
       BuyIngredient NOODLES; PlaceOnCounter; PickupPlateFromCounter;
       AddFoodToPlate NOODLES; PlaceOnCounter;
       FinishCooking MEAT; PlaceOnCounter; PickupPlateFromCounter;
       AddFoodToPlate MEAT; PlaceOnCounter;
       BuyIngredient MEAT; CookIngredient; PlaceOnCounter; PickupPlateFromCounter;
       AddFoodToPlate MEAT; PlaceOnCounter;
       PickupPlateFromCounter; SubmitOrder 7]
  ∧ build_commands_for_order mock_food_types double_meat_order
      (Some (two_counter_world 10 [double_meat_order]))
    ≠ [BuyPlateCommand; PlaceOnCounterCommand]
      ++ strictly_sequential false
           (required_foods mock_food_types double_meat_order)
      ++ [PickupPlateFromCounterCommand; SubmitOrderCommand 7].
Proof. split_and!; [by vm_compute..|]. vm_compute. discriminate. Qed.

(** The older planner of [command_bot4.py] compiles the same order the
    same way. *)
Example two_cooking_items_interleave_v4 :
  StartCooking ∈ build_command_kinds_v4 mock_food_types double_meat_order
                   (Some (two_counter_world 10 [double_meat_order])).
Proof. vm_compute. set_solver. Qed.

(** C3, amended.  The compiler interleaves exactly when the order has at
    least one cooking item, the plate is staged on a counter rather
    than in a box, and at most one required item needs no cooking.  It
    then starts the first cooking item, compiles the non-cooking items
    while it cooks, finishes and plates it, and compiles any further
    cooking items one after the other.  In every other case the
    sequence is strictly sequential over the required items.  (The
    older planner of [command_bot4.py] interleaves whenever there is a
    cooking item and the plate is staged on a counter.) *)
Theorem interleaving_condition order controller :
  (interleaved (build_commands_for_order food_types order controller)
   <-> cooking_foods food_types order ≠ []
       ∧ use_box_for_plate controller = false
       ∧ (length (non_cooking_foods food_types order) ≤ 1)%nat)
  ∧ (¬ interleaved (build_commands_for_order food_types order controller) ->
     build_commands_for_order food_types order controller
     = [BuyPlateCommand; stage_plate (use_box_for_plate controller)]
       ++ strictly_sequential (use_box_for_plate controller)
            (required_foods food_types order)
       ++ [pickup_plate (use_box_for_plate controller);
           SubmitOrderCommand (order_id order)])
  ∧ (interleaved (build_commands_for_order food_types order controller) ->
     ∃ first others,
       cooking_foods food_types order = first :: others
       ∧ build_commands_for_order food_types order controller
         = [BuyPlateCommand; PlaceOnCounterCommand;
            BuyIngredientCommand first]
           ++ (if can_chop first then [ChopIngredientCommand] else [])
           ++ [StartCookingCommand]
           ++ strictly_sequential false (non_cooking_foods food_types order)
           ++ [FinishCookingCommand first; PlaceOnCounterCommand;
               PickupPlateFromCounterCommand; AddFoodToPlateCommand first;
               PlaceOnCounterCommand]
           ++ strictly_sequential false others
           ++ [PickupPlateFromCounterCommand; SubmitOrderCommand (order_id order)])
  ∧ (StartCooking ∈ build_command_kinds_v4 food_types order controller
     <-> cooking_foods food_types order ≠ []
         ∧ use_box_for_plate controller = false).
Proof.
  set (plan := build_commands_for_order food_types order controller).
  set (use_box := use_box_for_plate controller).
  assert (Hseq : use_parallel_cooking food_types order controller = false ->
            plan = [BuyPlateCommand; stage_plate use_box]
                   ++ strictly_sequential use_box (required_foods food_types order)
                   ++ [pickup_plate use_box; SubmitOrderCommand (order_id order)]).
  { intros Hp. unfold plan, build_commands_for_order. by rewrite Hp. }
  assert (Hpar : use_parallel_cooking food_types order controller = true ->
            use_box = false ∧
            ∃ first others,
              cooking_foods food_types order = first :: others
              ∧ plan = [BuyPlateCommand; PlaceOnCounterCommand;
                        BuyIngredientCommand first]
                 ++ (if can_chop first then [ChopIngredientCommand] else [])
                 ++ [StartCookingCommand]
                 ++ strictly_sequential false (non_cooking_foods food_types order)
                 ++ [FinishCookingCommand first; PlaceOnCounterCommand;
                     PickupPlateFromCounterCommand; AddFoodToPlateCommand first;
                     PlaceOnCounterCommand]
                 ++ strictly_sequential false others
                 ++ [PickupPlateFromCounterCommand;
                     SubmitOrderCommand (order_id order)]).
  { intros Hp. unfold plan, build_commands_for_order. rewrite Hp.
    unfold use_parallel_cooking in Hp.
    apply andb_true_iff in Hp as [[Hc Hb]%andb_true_iff _].
    apply negb_true_iff in Hb. fold use_box in Hb |- *. rewrite Hb.
    split; [done|].
    pose proof (Forall_filter_true needs_cooking (required_foods food_types order)) as Hcook.
    pose proof (Forall_filter_true (λ f, negb (needs_cooking f))
                  (required_foods food_types order)) as Hnon.
    fold (cooking_foods food_types order) in Hcook.
    fold (non_cooking_foods food_types order) in Hnon.
    destruct (cooking_foods food_types order) as [|first others]; [done|].
    apply Forall_cons in Hcook as [Hfirst Hothers].
    exists first, others. split; [done|].
    rewrite (parallel_strategy_spec false first others _ Hfirst Hothers Hnon).
    unfold stage_plate, pickup_plate. cbn [app].
    do 4 (cbn [app]; rewrite <- ?app_assoc). reflexivity. }
  assert (Hiff : interleaved plan <->
                 use_parallel_cooking food_types order controller = true).
  { destruct (use_parallel_cooking food_types order controller) eqn:Hp.
    - split; [done|]. intros _. destruct (Hpar eq_refl) as (_ & f & o & _ & ->).
      unfold interleaved. rewrite !elem_of_app. right; right; left.
      apply list_elem_of_singleton. done.
    - split; [|done]. intros Hin. rewrite (Hseq eq_refl) in Hin.
      unfold interleaved in Hin. rewrite !elem_of_app in Hin.
      destruct Hin as [Hin|[Hin|Hin]].
      + destruct use_box; simpl in Hin;
          repeat (apply elem_of_cons in Hin as [Hin|Hin]; [discriminate Hin|]);
          by apply elem_of_nil in Hin.
      + by apply strictly_sequential_not_interleaved in Hin.
      + destruct use_box; simpl in Hin;
          repeat (apply elem_of_cons in Hin as [Hin|Hin]; [discriminate Hin|]);
          by apply elem_of_nil in Hin. }
  split_and!.
  - rewrite Hiff. unfold use_parallel_cooking.
    rewrite !andb_true_iff, !negb_true_iff, bool_decide_eq_false, Z.leb_le.
    fold use_box. split; [intros [[? ?] ?]|intros (? & ? & ?)]; split_and!; try done; lia.
  - intros Hno. apply Hseq.
    destruct (use_parallel_cooking food_types order controller); [|done].
    exfalso. by apply Hno, Hiff.
  - intros Hin. apply Hiff in Hin. by destruct (Hpar Hin) as [_ ?].
  - apply interleaving_condition_v4.
Qed.

End PlannerProperties.

(** ** Finishing a cook (C5) *)

Section CookFinishing.
Import Commands.
Variable apply_action : Action -> World -> World.
Variable plate_cost : Z.

(** The cooked stage of the food in the pan on a cooker, if there is a
    pan with food. *)
Definition stage_at (ctl : Ctl) (cooker : Cell) : option Z :=
  match item_at ctl cooker with
  | Some (ItPan (Some f)) => Some (cooked_stage f)
  | _ => None
  end.

(** The cooked stage a call of [FinishCookingCommand.execute] reads: in
    ["waiting"], once the cooker is known, and in ["picking_up"]. *)
Definition observed_stage (food_type : FoodType) (c : Command) (bot_id : Z)
    (ctl : Ctl) : option Z :=
  match get_bot_state ctl.1 bot_id with
  | None => None
  | Some _ =>
    match state c with
    | St_waiting =>
        loc (locate (find_cooker_with_food ctl.1 food_type) c) ≫= stage_at ctl
    | St_picking_up => loc c ≫= stage_at ctl
    | _ => None
    end
  end.

Definition is_take_from_pan (a : Action) : bool :=
  match a with Act_take_from_pan _ _ _ => true | _ => false end.

(** Successive calls of [execute], one per tick, each on the controller
    of that tick; the requests issued over all of them. *)
Fixpoint execute_calls (c : Command) (bot_id : Z) (worlds : list World)
    : Command * list Action :=
  match worlds with
  | [] => (c, [])
  | w :: ws =>
    let '(c', ctl') := execute apply_action plate_cost c bot_id (w, []) in
    let '(c'', acts) := execute_calls c' bot_id ws in
    (c'', ctl'.2 ++ acts)
  end.

Lemma move_or_stay_issues bot_id pos target (ctl : Ctl) :
  ∃ acts, (move_or_stay apply_action bot_id pos target ctl).2 = ctl.2 ++ acts
          ∧ ∀ a, a ∈ acts -> is_take_from_pan a = false.
Proof.
  unfold move_or_stay, move_toward.
  destruct (bfs_to_adjacent ctl.1 pos target) as [d|]; simpl.
  - eexists. split; [done|]. by intros a ->%list_elem_of_singleton.
  - exists []. rewrite app_nil_r. split; [done|]. by intros a ?%elem_of_nil.
Qed.

Lemma nothing_issued (ctl : Ctl) (P : Action -> Prop) :
  ∃ issued, ctl.2 = ctl.2 ++ issued ∧ ∀ a, a ∈ issued -> P a.
Proof. exists []. rewrite app_nil_r. split; [done|]. by intros a ?%elem_of_nil. Qed.

Lemma finish_cooking_done food_type c bot_id ctl :
  state c = St_done ->
  execute_finish_cooking apply_action food_type c bot_id ctl = (tick c, ctl).
Proof.
  intros Hs. unfold execute_finish_cooking.
  destruct (get_bot_state ctl.1 bot_id); [|done].
  change (state (tick c)) with (state c). by rewrite Hs.
Qed.

Lemma execute_calls_done food_type bot_id worlds : ∀ c,
  kind c = FinishCooking food_type -> state c = St_done ->
  (execute_calls c bot_id worlds).2 = []
  ∧ kind (execute_calls c bot_id worlds).1 = FinishCooking food_type
  ∧ state (execute_calls c bot_id worlds).1 = St_done
  ∧ food_burned (execute_calls c bot_id worlds).1 = food_burned c.
Proof.
  induction worlds as [|w ws IH]; intros c Hk Hs; [done|].
  cbn [execute_calls]. unfold execute. rewrite Hk.
  rewrite (finish_cooking_done _ _ _ _ Hs).
  destruct (IH (tick c) Hk Hs) as (Ha & Hk' & Hd & Hb).
  destruct (execute_calls (tick c) bot_id ws) as [c'' acts].
  simpl in *. by subst.
Qed.

(** C5.  A call of [FinishCookingCommand.execute] requests
    [take_from_pan] only when the food it reads in the pan is at cooked
    stage exactly 1.  When it reads a stage of 2 or more it sets
    [food_burned], moves to ["done"] and issues no request; from then
    on no later call issues any request, the command stays in
    ["done"], and [is_complete] holds whatever the world shows. *)
Theorem finish_cooking_pickup_discipline food_type c bot_id ctl :
  kind c = FinishCooking food_type ->
  (∃ issued,
     (execute apply_action plate_cost c bot_id ctl).2.2 = ctl.2 ++ issued
     ∧ ∀ a, a ∈ issued -> is_take_from_pan a = true ->
         observed_stage food_type c bot_id ctl = Some 1)
  ∧ ∀ s, observed_stage food_type c bot_id ctl = Some s -> 2 ≤ s ->
      food_burned (execute apply_action plate_cost c bot_id ctl).1 = true
      ∧ state (execute apply_action plate_cost c bot_id ctl).1 = St_done
      ∧ (execute apply_action plate_cost c bot_id ctl).2 = ctl
      ∧ ∀ worlds,
          (execute_calls (execute apply_action plate_cost c bot_id ctl).1
                         bot_id worlds).2 = []
          ∧ state (execute_calls (execute apply_action plate_cost c bot_id ctl).1
                                 bot_id worlds).1 = St_done
          ∧ ∀ w, is_complete
                   (execute_calls (execute apply_action plate_cost c bot_id ctl).1
                                  bot_id worlds).1 w bot_id = true.
Proof.
  intros Hk.
  assert (Hstep :
    (∃ issued,
       (execute apply_action plate_cost c bot_id ctl).2.2 = ctl.2 ++ issued
       ∧ ∀ a, a ∈ issued -> is_take_from_pan a = true ->
           observed_stage food_type c bot_id ctl = Some 1)
    ∧ ∀ s, observed_stage food_type c bot_id ctl = Some s -> 2 ≤ s ->
        (execute apply_action plate_cost c bot_id ctl).2 = ctl
        ∧ kind (execute apply_action plate_cost c bot_id ctl).1
          = FinishCooking food_type
        ∧ food_burned (execute apply_action plate_cost c bot_id ctl).1 = true
        ∧ state (execute apply_action plate_cost c bot_id ctl).1 = St_done).
  { unfold execute. rewrite Hk.
    unfold execute_finish_cooking, observed_stage, locate, stage_at, tick.
    destruct c as [k tc mt ls sc l st r mr fl fb ba sb ifc]; simpl in *.
    subst k.
    destruct (get_bot_state ctl.1 bot_id) as [bs|];
      [|split; [apply nothing_issued|done]].
    destruct st; try (split; [apply nothing_issued|done]).
    - (* navigating *)
      destruct l as [cooker|]; simpl; [|split; [apply nothing_issued|done]].
      destruct (adjacent (bot_pos bs) cooker); [split; [apply nothing_issued|done]|].
      split; [|done]. simpl.
      destruct (move_or_stay_issues bot_id (bot_pos bs) cooker ctl)
        as (acts & -> & Hacts).
      exists acts. split; [done|]. intros a Ha Hp. by rewrite (Hacts a Ha) in Hp.
    - (* picking_up *)
      destruct l as [cooker|]; simpl; [|split; [apply nothing_issued|done]].
      destruct (item_at ctl cooker) as [[?|? ?|[f|]]|];
        try (split; [apply nothing_issued|done]).
      destruct (cooked_stage f =? 1) eqn:H1.
      + apply Z.eqb_eq in H1. split.
        * eexists. split; [done|]. intros _ _ _. by rewrite H1.
        * intros s [= <-] ?. lia.
      + split; [apply nothing_issued|]. by intros s [= <-] ?.
    - (* waiting *)
      destruct l as [cooker|]; simpl.
      + destruct (item_at ctl cooker) as [[?|? ?|[f|]]|];
          try (split; [apply nothing_issued|done]).
        destruct (cooked_stage f =? 1) eqn:H1.
        { apply Z.eqb_eq in H1. split; [apply nothing_issued|].
          intros s [= <-] ?. lia. }
        destruct (cooked_stage f >=? 2) eqn:H2; (split; [apply nothing_issued|]).
        * by intros s [= <-] ?.
        * intros s [= <-] ?. lia.
      + destruct (find_cooker_with_food ctl.1 food_type) as [cooker|]; simpl;
          [|split; [apply nothing_issued|done]].
        destruct (item_at ctl cooker) as [[?|? ?|[f|]]|];
          try (split; [apply nothing_issued|done]).
        destruct (cooked_stage f =? 1) eqn:H1.
        { apply Z.eqb_eq in H1. split; [apply nothing_issued|].
          intros s [= <-] ?. lia. }
        destruct (cooked_stage f >=? 2) eqn:H2; (split; [apply nothing_issued|]).
        * by intros s [= <-] ?.
        * intros s [= <-] ?. lia. }
  destruct Hstep as [Hissued Hburnt]. split; [exact Hissued|].
  intros s Hobs Hs. destruct (Hburnt s Hobs Hs) as (Hctl & Hk' & Hb & Hd).
  split_and!; try done.
  intros worlds.
  destruct (execute_calls_done food_type bot_id worlds _ Hk' Hd)
    as (Ha & Hk'' & Hd' & Hb').
  split_and!; try done.
  intros w. unfold is_complete. by rewrite Hk'', Hd', Hb', Hb.
Qed.

End CookFinishing.

(** An engine that ignores every request. *)
Definition ignore_requests (a : Action) (w : World) : World := w.

(** The cook finished too late: the pan on the cooker holds burnt meat
    and the bot stands next to it (scenario B). *)
Definition burnt_pan_world : World :=
  one_bot_world 50
    (kitchen_map 6 4
       [((0, 0), station "SHOP" None); ((1, 0), station "COUNTER" None);
        ((2, 0), station "COUNTER" None);
        ((3, 0), station "COOKER" (Some (ItPan (Some (mkFood "MEAT" false 2)))));
        ((4, 0), station "SUBMIT" None); ((5, 0), station "TRASH" None)])
    (Some (mkBotState 3 1 None)) [] 100.

Lemma finish_cooking_pickup_discipline_witness :
  Commands.kind (Commands.FinishCookingCommand MEAT) = Commands.FinishCooking MEAT
  ∧ Commands.food_burned
      (Commands.execute ignore_requests 2 (Commands.FinishCookingCommand MEAT) 0
         (burnt_pan_world, [])).1 = true
  ∧ Commands.state
      (Commands.execute ignore_requests 2 (Commands.FinishCookingCommand MEAT) 0
         (burnt_pan_world, [])).1 = Commands.St_done.
Proof.
  split; [reflexivity|].
  destruct (finish_cooking_pickup_discipline ignore_requests 2 MEAT
              (Commands.FinishCookingCommand MEAT) 0 (burnt_pan_world, []) eq_refl)
    as [_ Hburnt].
  destruct (Hburnt 2) as (Hb & Hd & _); [vm_compute; reflexivity|lia|].
  split; [exact Hb|exact Hd].
Defined.

(** ** Stuck detection (C6) *)

Section StuckDetection.
Import Commands.
Variable apply_action : Action -> World -> World.
Variable plate_cost : Z.

(** The classes whose [execute] calls [check_progress]. *)
Definition records_fingerprint (k : CommandKind) : bool :=
  match k with
  | BuyIngredient _ | BuyPlate | ChopIngredient | PlaceOnCounter
  | PickupPlateFromCounter | AddFoodToPlate _ => true
  | _ => false
  end.

(** What they pass to it: the position and whether something is held;
    [ChopIngredientCommand] adds its state; [AddFoodToPlateCommand]
    passes its state and the position only. *)
Definition fingerprint_of (c : Command) (bs : BotState) : Fingerprint :=
  match kind c with
  | ChopIngredient =>
      mkFingerprint (Some (state c)) (bs_x bs) (bs_y bs)
                    (Some (negb (holds_nothing (holding bs))))
  | AddFoodToPlate _ => mkFingerprint (Some (state c)) (bs_x bs) (bs_y bs) None
  | _ => position_fingerprint bs
  end.

Ltac crush_execute :=
  repeat (first [progress simpl | case_match]); try done.

Lemma execute_tracking c bot_id ctl :
  kind (execute apply_action plate_cost c bot_id ctl).1 = kind c
  ∧ max_turns (execute apply_action plate_cost c bot_id ctl).1 = max_turns c
  ∧ turn_count (execute apply_action plate_cost c bot_id ctl).1 = turn_count c + 1
  ∧ match get_bot_state ctl.1 bot_id with
    | Some bs =>
      if records_fingerprint (kind c) then
        last_state (execute apply_action plate_cost c bot_id ctl).1
          = Some (fingerprint_of c bs)
        ∧ stuck_counter (execute apply_action plate_cost c bot_id ctl).1
          = (if bool_decide (Some (fingerprint_of c bs) = last_state c)
             then stuck_counter c + 1 else 0)
      else
        last_state (execute apply_action plate_cost c bot_id ctl).1 = last_state c
        ∧ stuck_counter (execute apply_action plate_cost c bot_id ctl).1
          = stuck_counter c
    | None =>
        last_state (execute apply_action plate_cost c bot_id ctl).1 = last_state c
        ∧ stuck_counter (execute apply_action plate_cost c bot_id ctl).1
          = stuck_counter c
    end.
Proof.
  destruct c as [k tc mt ls sc l st r mr fl fb ba sb ifc].
  unfold execute, fingerprint_of; simpl.
  destruct k; simpl.
  all: unfold execute_buy, execute_chop, execute_cook, execute_start_cooking,
         execute_finish_cooking, execute_store_in_box, execute_place_on_counter,
         execute_pickup_from_box, execute_pickup_plate_from_counter,
         execute_place_in_box, execute_pickup_plate_from_box,
         execute_add_food_to_plate, execute_submit, navigate_to_cooker,
         check_progress, locate, tick, retry_or_fail, retry_or_give_up,
         forget_target, bump_retries, give_up_burned, position_fingerprint.
  all: simpl.
  all: destruct (get_bot_state ctl.1 bot_id) as [bs|]; simpl; [|done].
  all: crush_execute.
Qed.

Lemma is_stuck_iff c :
  is_stuck c = true
  <-> max_turns c < turn_count c ∨ 20 < stuck_counter c ∨ failed c = true.
Proof.
  unfold is_stuck.
  destruct (turn_count c >? max_turns c) eqn:H1;
    [split; [left; lia|done]|].
  destruct (stuck_counter c >? 20) eqn:H2;
    [split; [right; left; lia|done]|].
  destruct (failed c); [split; [by right; right|done]|].
  split; [done|]. intros [?|[?|?]]; [lia|lia|done].
Qed.

(** C6.  A command is stuck exactly when its tick counter exceeds its
    ceiling, or its stuck counter exceeds 20, or it has set [failed].
    Every call of [execute] adds one to the tick counter and leaves the
    ceiling alone.  The buy, chop, place-on-counter,
    pick-up-plate-from-counter and add-to-plate classes record a
    fingerprint on every call that sees the bot state, counting up when
    it repeats the last one and restarting from 0 when it does not; the
    other classes never touch the fingerprint or the stuck counter.
    The ceiling of the cooking command is 150, that of the buying
    commands 30. *)
Theorem stuck_detection :
  (∀ c, is_stuck c = true
        <-> max_turns c < turn_count c ∨ 20 < stuck_counter c ∨ failed c = true)
  ∧ (∀ c bot_id ctl,
       turn_count (execute apply_action plate_cost c bot_id ctl).1 = turn_count c + 1
       ∧ max_turns (execute apply_action plate_cost c bot_id ctl).1 = max_turns c)
  ∧ (∀ c bot_id ctl bs,
       get_bot_state ctl.1 bot_id = Some bs ->
       records_fingerprint (kind c) = true ->
       last_state (execute apply_action plate_cost c bot_id ctl).1
         = Some (fingerprint_of c bs)
       ∧ stuck_counter (execute apply_action plate_cost c bot_id ctl).1
         = (if bool_decide (Some (fingerprint_of c bs) = last_state c)
            then stuck_counter c + 1 else 0))
  ∧ (∀ c bot_id ctl,
       records_fingerprint (kind c) = false ->
       last_state (execute apply_action plate_cost c bot_id ctl).1 = last_state c
       ∧ stuck_counter (execute apply_action plate_cost c bot_id ctl).1
         = stuck_counter c)
  ∧ max_turns CookIngredientCommand = 150
  ∧ (∀ food_type, max_turns (BuyIngredientCommand food_type) = 30)
  ∧ max_turns BuyPlateCommand = 30
  ∧ max_turns (BuyIngredientCommand MEAT) < max_turns CookIngredientCommand.
Proof.
  split_and!; try done.
  - apply is_stuck_iff.
  - intros c bot_id ctl.
    by destruct (execute_tracking c bot_id ctl) as (_ & ? & ? & _).
  - intros c bot_id ctl bs Hbs Hrec.
    destruct (execute_tracking c bot_id ctl) as (_ & _ & _ & H).
    by rewrite Hbs, Hrec in H.
  - intros c bot_id ctl Hrec.
    destruct (execute_tracking c bot_id ctl) as (_ & _ & _ & H).
    rewrite Hrec in H. by destruct (get_bot_state ctl.1 bot_id).
Qed.

End StuckDetection.

(** C6, as stated, fails twice.  [CookIngredientCommand.execute] sees
    the bot state and records no fingerprint; and a
    [ChopIngredientCommand] that lost its item reports itself stuck on
    its first tick, with the tick counter at 1 of 40 and the stuck
    counter at 0. *)
Lemma stuck_without_fingerprint_or_ceiling :
  get_bot_state empty_kitchen_world 0 = Some (mkBotState 1 1 None)
  ∧ Commands.last_state
      (Commands.execute ignore_requests 2 Commands.CookIngredientCommand 0
         (empty_kitchen_world, [])).1 = None
  ∧ Commands.is_stuck
      (Commands.execute ignore_requests 2 Commands.ChopIngredientCommand 0
         (empty_kitchen_world, [])).1 = true
  ∧ Commands.turn_count
      (Commands.execute ignore_requests 2 Commands.ChopIngredientCommand 0
         (empty_kitchen_world, [])).1 = 1
  ∧ Commands.max_turns
      (Commands.execute ignore_requests 2 Commands.ChopIngredientCommand 0
         (empty_kitchen_world, [])).1 = 40
  ∧ Commands.stuck_counter
      (Commands.execute ignore_requests 2 Commands.ChopIngredientCommand 0
         (empty_kitchen_world, [])).1 = 0.
Proof. by vm_compute. Qed.

(** ** The Order Selector (C2) *)

Section SelectorProperties.
Import BotPlayer.
Variable plate_cost : Z.
Variable food_types : list FoodType.

Lemma assess_some self w pos order cand :
  assess plate_cost food_types self w pos order = Some cand ->
  cand_order cand = order
  ∧ cand_remaining cand = remaining_turns w order
  ∧ cand_estimated cand = estimated_turns food_types order
  ∧ ingredient_cost plate_cost food_types order < reward order + penalty order.
Proof.
  unfold assess. intros H.
  repeat (case_match; try discriminate).
  injection H as <-. simpl. split_and!; try done. lia.
Qed.

Lemma collect_candidates_from orders : ∀ self w pos acc cand,
  cand ∈ (foldl (consider plate_cost food_types self w pos) acc orders).2 ->
  cand ∈ acc.2
  ∨ (cand_order cand ∈ orders
     ∧ is_active (cand_order cand) = true
     ∧ (order_id (cand_order cand) ∉ acc.1)
     ∧ assess plate_cost food_types self w pos (cand_order cand) = Some cand).
Proof.
  induction orders as [|o orders IH]; intros self w pos [processed cands] cand Hin;
    [by left|].
  cbn [foldl] in Hin. apply IH in Hin. unfold consider in Hin.
  destruct (is_active o) eqn:Hact; simpl in Hin.
  - destruct (bool_decide (order_id o ∈ processed)) eqn:Hproc; simpl in Hin.
    + destruct Hin as [?|(? & ? & ? & ?)]; [by left|right].
      split_and!; try done. by right.
    + apply bool_decide_eq_false in Hproc.
      destruct (assess plate_cost food_types self w pos o) as [c|] eqn:Hass;
        simpl in Hin.
      * destruct Hin as [[?|Heq%list_elem_of_singleton]%elem_of_app|(? & ? & ? & ?)].
        -- by left.
        -- subst cand. right. destruct (assess_some _ _ _ _ _ Hass) as (-> & _).
           split_and!; try done. left.
        -- right. split_and!; try done. by right.
      * destruct Hin as [?|(? & ? & Hn & ?)]; [by left|right].
        split_and!; try done; [by right|set_solver].
  - destruct Hin as [?|(? & ? & ? & ?)]; [by left|right].
    split_and!; try done. by right.
Qed.

Lemma insert_sorted_elem late x l y :
  y ∈ insert_sorted late x l -> y = x ∨ y ∈ l.
Proof.
  induction l as [|z l IH]; simpl.
  - intros ->%list_elem_of_singleton. by left.
  - destruct (sorts_before late x z).
    + intros [->|?]%elem_of_cons; [by left|by right].
    + intros [->|[->|?]%IH]%elem_of_cons; [right; left|by left|right; by right].
Qed.

Lemma sort_candidates_elem late l y :
  y ∈ sort_candidates late l -> y ∈ l.
Proof.
  unfold sort_candidates.
  assert (H : ∀ acc, y ∈ foldl (λ acc x, insert_sorted late x acc) acc l ->
                     y ∈ acc ∨ y ∈ l).
  { induction l as [|x l IH]; intros acc Hin; [by left|].
    cbn [foldl] in Hin. apply IH in Hin as [[->|?]%insert_sorted_elem|?].
    - right; left.
    - by left.
    - right; by right. }
  intros Hin. apply H in Hin as [?%elem_of_nil|?]; done.
Qed.

Lemma collect_candidates_grows orders : ∀ self w pos acc,
  acc.1 ⊆ (foldl (consider plate_cost food_types self w pos) acc orders).1.
Proof.
  induction orders as [|o orders IH]; intros self w pos [processed cands]; [done|].
  cbn [foldl]. etrans; [|apply IH]. unfold consider.
  destruct (is_active o && negb (bool_decide (order_id o ∈ processed))); [|done].
  destruct (assess plate_cost food_types self w pos o); simpl; set_solver.
Qed.

Lemma choose_best_spec self w pos best :
  choose_best w (collect_candidates plate_cost food_types self w pos).2 = Some best ->
  cand_order best ∈ get_orders w
  ∧ is_active (cand_order best) = true
  ∧ (order_id (cand_order best) ∉ processed_orders self)
  ∧ (∀ r, remaining_turns w (cand_order best) = Some r ->
          estimated_turns food_types (cand_order best) * buffer_multiplier w ≤ r * 100)
  ∧ ingredient_cost plate_cost food_types (cand_order best)
    < reward (cand_order best) + penalty (cand_order best).
Proof.
  unfold choose_best. intros Hfind.
  apply find_some in Hfind as [Hin Henough].
  apply list_elem_of_In, sort_candidates_elem in Hin.
  unfold collect_candidates in Hin.
  apply collect_candidates_from in Hin as [Hnil|(Horder & Hact & Hproc & Hass)];
    [by apply elem_of_nil in Hnil|].
  destruct (assess_some _ _ _ _ _ Hass) as (_ & Hrem & Hest & Hcost).
  split_and!; try done.
  intros r Hr. rewrite Hrem, Hest, Hr in Henough. simpl in Henough. lia.
Qed.

(** C2.  An order picked by the Order Selector is one of the reported
    orders, active and not yet processed; its remaining turns are at
    least its estimated turns times the buffer multiplier of that turn
    (1.15, or 1.30 in the late game; here in hundredths), and the cost
    of its ingredients and the plate is strictly less than reward plus
    penalty. *)
Theorem selected_order_is_feasible_and_profitable self w pos best :
  choose_best w (collect_candidates plate_cost food_types self w pos).2 = Some best ->
  cand_order best ∈ get_orders w
  ∧ is_active (cand_order best) = true
  ∧ (order_id (cand_order best) ∉ processed_orders self)
  ∧ (∀ r, remaining_turns w (cand_order best) = Some r ->
          estimated_turns food_types (cand_order best) * buffer_multiplier w ≤ r * 100)
  ∧ ingredient_cost plate_cost food_types (cand_order best)
    < reward (cand_order best) + penalty (cand_order best).
Proof. apply choose_best_spec. Qed.

End SelectorProperties.

(** The orders of the repository's selection test
    ([src/bots/test_choose_order.py]), shown on turn 10. *)
Definition test_orders : list Order :=
  [mkOrder 1 ["NOODLES"; "MEAT"] 120 30 (Some 200) true;
   mkOrder 2 ["VEGGIE"] 20 5 (Some 200) true;
   mkOrder 3 ["NOODLES"] 5 0 (Some 200) true].

Lemma selected_order_witness :
  BotPlayer.choose_best (two_counter_world 10 test_orders)
    (BotPlayer.collect_candidates 2 mock_food_types
       (BotPlayer.new_bot_player two_counter_kitchen)
       (two_counter_world 10 test_orders) (2, 2)).2
  = Some (BotPlayer.mkCandidate
            (mkOrder 1 ["NOODLES"; "MEAT"] 120 30 (Some 200) true)
            (Some 190) 63 150 19 131)
  ∧ BotPlayer.ingredient_cost 2 mock_food_types
      (mkOrder 1 ["NOODLES"; "MEAT"] 120 30 (Some 200) true) < 120 + 30.
Proof.
  assert (H : BotPlayer.choose_best (two_counter_world 10 test_orders)
    (BotPlayer.collect_candidates 2 mock_food_types
       (BotPlayer.new_bot_player two_counter_kitchen)
       (two_counter_world 10 test_orders) (2, 2)).2
  = Some (BotPlayer.mkCandidate
            (mkOrder 1 ["NOODLES"; "MEAT"] 120 30 (Some 200) true)
            (Some 190) 63 150 19 131)) by (vm_compute; reflexivity).
  split; [exact H|].
  exact (proj2 (proj2 (proj2 (proj2
    (selected_order_is_feasible_and_profitable 2 mock_food_types _ _ _ _ H))))).
Defined.

(** ** The Executor loop (C7, C10) *)

Section ExecutorProperties.
Import Commands BotPlayer.
Variable apply_action : Action -> World -> World.
Variable plate_cost : Z.
Variable food_types : list FoodType.

Local Abbreviation play_turn := (BotPlayer.play_turn apply_action plate_cost food_types).
Local Abbreviation run := (BotPlayer.run apply_action plate_cost food_types).
Local Abbreviation step_plan := (BotPlayer.step_plan apply_action plate_cost).
Local Abbreviation select_and_start :=
  (BotPlayer.select_and_start apply_action plate_cost food_types).
Local Abbreviation cleanup := (BotPlayer.cleanup apply_action).

(** What a part of [play_turn] may do to the bookkeeping of the
    executor: the processed set only grows; the bound order stays, is
    dropped, or is replaced by a so far unprocessed one; cleanup mode
    is left as it was or entered afresh. *)
Record turn_effect (self self' : BotPlayer) : Prop := {
  eff_processed : processed_orders self ⊆ processed_orders self';
  eff_order :
    current_order_id self' = current_order_id self
    ∨ current_order_id self' = None
    ∨ ∃ id, current_order_id self' = Some id ∧ id ∉ processed_orders self;
  eff_cleaning :
    (cleaning_workspace self' = cleaning_workspace self
     ∧ cleanup_turns self' = cleanup_turns self)
    ∨ (cleaning_workspace self' = true ∧ current_order_id self' = None
       ∧ command_queue self' = [] ∧ cleanup_turns self' = 0)
}.

Lemma abort_plan_effect self : turn_effect self (abort_plan self).
Proof.
  split; simpl.
  - destruct (current_order_id self); set_solver.
  - by right; left.
  - by right.
Qed.

Lemma step_plan_effect self bot_id ctl :
  turn_effect self (step_plan self bot_id ctl).1.
Proof.
  unfold BotPlayer.step_plan.
  destruct (get_current_command self) as [cmd|];
    [|split; simpl; [done|by right; left|by left]].
  destruct (is_stuck cmd); [apply abort_plan_effect|].
  destruct (execute apply_action plate_cost cmd bot_id ctl) as [cmd' ctl'].
  destruct (is_complete cmd' ctl'.1 bot_id); [|split; simpl; [done|by left|by left]].
  split; simpl.
  - destruct (current_order_id self); [|done]. case_bool_decide; set_solver.
  - case_bool_decide; [by right; left|by left].
  - by left.
Qed.

Lemma turn_effect_trans a b c :
  turn_effect a b -> turn_effect b c ->
  processed_orders a ⊆ processed_orders c
  ∧ (current_order_id c = current_order_id a
     ∨ current_order_id c = None
     ∨ ∃ id, current_order_id c = Some id ∧ id ∉ processed_orders a).
Proof.
  intros [Hp1 Ho1 _] [Hp2 Ho2 _]. split; [set_solver|].
  destruct Ho2 as [->|[?|(id & ? & ?)]]; [done|by right; left|].
  right; right. exists id. split; [done|set_solver].
Qed.

Lemma select_and_start_effect self bs bot_id ctl :
  turn_effect self (select_and_start self bs bot_id ctl).1.
Proof.
  unfold BotPlayer.select_and_start.
  pose proof (collect_candidates_grows plate_cost food_types (get_orders ctl.1)
                self ctl.1 (bot_pos bs) (processed_orders self, [])) as Hgrow.
  pose proof (choose_best_spec plate_cost food_types self ctl.1 (bot_pos bs)) as Hbest.
  unfold collect_candidates in *.
  destruct (foldl _ _ _) as [processed candidates]. simpl in Hgrow, Hbest.
  destruct (choose_best ctl.1 candidates) as [best|];
    [|split; simpl; [done|by left|by left]].
  destruct (Hbest best eq_refl) as (_ & _ & Hfresh & _).
  set (started := {| command_queue := _ |}).
  assert (Hstarted : turn_effect self started).
  { split; simpl; [done| |by left]. right; right. by eexists. }
  case_bool_decide; [done|].
  pose proof (step_plan_effect started bot_id ctl) as Hstep.
  destruct (turn_effect_trans _ _ _ Hstarted Hstep) as [Hp Ho].
  split; [done|done|].
  destruct (eff_cleaning _ _ Hstep) as [[-> ->]|?]; [by left|by right].
Qed.

Lemma cleanup_effect self bot_id ctl :
  command_queue (cleanup self bot_id ctl).1 = command_queue self
  ∧ current_command_index (cleanup self bot_id ctl).1 = current_command_index self
  ∧ processed_orders (cleanup self bot_id ctl).1 = processed_orders self
  ∧ current_order_id (cleanup self bot_id ctl).1 = current_order_id self
  ∧ (cleaning_workspace (cleanup self bot_id ctl).1 = true ->
     cleaning_workspace self = true
     ∧ cleanup_turns (cleanup self bot_id ctl).1 = cleanup_turns self + 1
     ∧ cleanup_turns (cleanup self bot_id ctl).1 ≤ max_cleanup_turns)
  ∧ (0 ≤ cleanup_turns self -> 0 ≤ cleanup_turns (cleanup self bot_id ctl).1).
Proof.
  unfold BotPlayer.cleanup. simpl.
  destruct (cleanup_turns self + 1 >? max_cleanup_turns) eqn:Hmax; simpl;
    [split_and!; try done|].
  assert (cleanup_turns self + 1 ≤ max_cleanup_turns) by lia.
  repeat case_match; simpl; split_and!; try done; lia.
Qed.

Lemma play_turn_effect self ctl :
  processed_orders self ⊆ processed_orders (play_turn self ctl).1
  ∧ (current_order_id (play_turn self ctl).1 = current_order_id self
     ∨ current_order_id (play_turn self ctl).1 = None
     ∨ ∃ id, current_order_id (play_turn self ctl).1 = Some id
             ∧ id ∉ processed_orders self).
Proof.
  unfold BotPlayer.play_turn.
  destruct (get_team_bot_ids ctl.1) as [|bot_id ?]; [split; [done|by left]|].
  set (self1 := match current_order_id self with Some _ => _ | None => _ end).
  assert (H1 : turn_effect self self1).
  { unfold self1. destruct (current_order_id self) as [id|];
      [destruct (order_still_active ctl.1 id)|];
      try apply abort_plan_effect; split; try done; by left. }
  assert (Hrefl : turn_effect self1 self1) by (split; try done; by left).
  destruct (cleaning_workspace self1).
  { destruct (cleanup_effect self1 bot_id ctl) as (_ & _ & Hp & Ho & _).
    rewrite Hp, Ho. exact (turn_effect_trans _ _ _ H1 Hrefl). }
  case_bool_decide.
  - destruct (get_bot_state ctl.1 bot_id) as [bs|];
      [|exact (turn_effect_trans _ _ _ H1 Hrefl)].
    destruct (holding bs); [exact (turn_effect_trans _ _ _ H1 Hrefl)|].
    exact (turn_effect_trans _ _ _ H1 (select_and_start_effect self1 bs bot_id ctl)).
  - exact (turn_effect_trans _ _ _ H1 (step_plan_effect self1 bot_id ctl)).
Qed.

(** An order id that was marked processed and is not the bound order
    stays that way. *)
Definition retired (id : Z) (self : BotPlayer) : Prop :=
  id ∈ processed_orders self ∧ current_order_id self ≠ Some id.

Lemma play_turn_retired id self ctl :
  retired id self -> retired id (play_turn self ctl).1.
Proof.
  intros [Hin Hne]. destruct (play_turn_effect self ctl) as [Hp Ho].
  split; [set_solver|].
  destruct Ho as [->|[->|(id' & -> & Hfresh)]]; [done|done|].
  intros [= ->]. done.
Qed.

Lemma run_retired id worlds : ∀ self,
  retired id self -> retired id (run self worlds).
Proof.
  induction worlds as [|w ws IH]; intros self Hr; [done|].
  apply IH. by apply play_turn_retired.
Qed.

(** [play_turn] returns at once when the team has no bot. *)
Lemma play_turn_without_bot self ctl :
  get_team_bot_ids ctl.1 = [] -> play_turn self ctl = (self, ctl).
Proof. intros Hbots. unfold BotPlayer.play_turn. by rewrite Hbots. Qed.

(** The bound order is no longer reported active: every entry of
    [get_orders] with its id, if there is one, is inactive. *)
Lemma order_still_active_false w id :
  order_still_active w id = false
  <-> ∀ o, o ∈ get_orders w -> order_id o = id -> is_active o = false.
Proof.
  unfold order_still_active. induction (get_orders w) as [|o l IH]; simpl.
  - split; [|done]. by intros _ o ?%elem_of_nil.
  - rewrite orb_false_iff, IH, andb_false_iff, Z.eqb_neq. split.
    + intros [Ho Hl] o' Hin Hid.
      apply elem_of_cons in Hin as [->|Hin]; [|by apply Hl].
      by destruct Ho.
    + intros Hall. split; [|intros o' Hin; apply Hall; by right].
      destruct (decide (order_id o = id)); [right|by left].
      apply Hall; [left|done].
Qed.

(** The turn on which the bound order is found inactive. *)
Lemma play_turn_expired self ctl id bot_id bots :
  get_team_bot_ids ctl.1 = bot_id :: bots ->
  current_order_id self = Some id ->
  order_still_active ctl.1 id = false ->
  play_turn self ctl = cleanup (abort_plan self) bot_id ctl.
Proof.
  intros Hbots Hid Hact. unfold BotPlayer.play_turn.
  by rewrite Hbots, Hid, Hact.
Qed.

(** C7, amended.  Let the executor be bound to an order that is no
    longer reported active: the turn's orders hold no active entry with
    its id.  On a turn on which the team has a bot, [play_turn] is the
    cleaning routine run on the executor with its plan abandoned: the
    queue is emptied, cleanup mode is entered and no command is
    stepped; the order id is marked processed, and on no later turn,
    whatever the engine shows, is it bound again or picked by the Order
    Selector.  On a turn on which the team has no bot, [play_turn]
    returns at once and leaves the executor as it was. *)
Theorem expired_order_is_abandoned self ctl id :
  current_order_id self = Some id ->
  (∀ o, o ∈ get_orders ctl.1 -> order_id o = id -> is_active o = false) ->
  match get_team_bot_ids ctl.1 with
  | [] => play_turn self ctl = (self, ctl)
  | bot_id :: _ =>
      play_turn self ctl = cleanup (abort_plan self) bot_id ctl
      ∧ command_queue (abort_plan self) = []
      ∧ cleaning_workspace (abort_plan self) = true
      ∧ command_queue (play_turn self ctl).1 = []
      ∧ current_order_id (play_turn self ctl).1 = None
      ∧ ∀ worlds,
          id ∈ processed_orders (run (play_turn self ctl).1 worlds)
          ∧ current_order_id (run (play_turn self ctl).1 worlds) ≠ Some id
          ∧ ∀ w pos best,
              choose_best w
                (collect_candidates plate_cost food_types
                   (run (play_turn self ctl).1 worlds) w pos).2 = Some best ->
              order_id (cand_order best) ≠ id
  end.
Proof.
  intros Hid Hact. apply order_still_active_false in Hact.
  destruct (get_team_bot_ids ctl.1) as [|bot_id bots] eqn:Hb;
    [by apply play_turn_without_bot|].
  pose proof (play_turn_expired self ctl id bot_id bots Hb Hid Hact) as Hturn.
  destruct (cleanup_effect (abort_plan self) bot_id ctl) as (Hq & _ & Hp & Ho & _).
  assert (Hret : retired id (play_turn self ctl).1).
  { rewrite Hturn. split; [rewrite Hp|by rewrite Ho]. simpl. rewrite Hid. set_solver. }
  split_and!; try done.
  - by rewrite Hturn, Hq.
  - by rewrite Hturn, Ho.
  - intros worlds. destruct (run_retired id worlds _ Hret) as [Hin Hne].
    split_and!; try done.
    intros w pos best Hbest Heq.
    destruct (choose_best_spec plate_cost food_types _ w pos best Hbest)
      as (_ & _ & Hfresh & _).
    by rewrite Heq in Hfresh.
Qed.

(** In every state the executor can reach, cleanup mode has no bound
    order and no plan, and the cleanup counter is not negative. *)
Definition cleaning_inv (self : BotPlayer) : Prop :=
  (cleaning_workspace self = true ->
   current_order_id self = None ∧ command_queue self = [])
  ∧ 0 ≤ cleanup_turns self.

Lemma cleaning_inv_effect self self' :
  cleaning_inv self -> turn_effect self self' ->
  cleaning_workspace self = false -> cleaning_inv self'.
Proof.
  intros [_ Hc] [_ _ [[Hcl Ht]|(? & ? & ? & ?)]] Hoff; split; try done; try lia.
  rewrite Hcl, Hoff. done.
Qed.

Lemma play_turn_cleaning_inv self ctl :
  cleaning_inv self -> cleaning_inv (play_turn self ctl).1.
Proof.
  intros Hinv. unfold BotPlayer.play_turn.
  destruct (get_team_bot_ids ctl.1) as [|bot_id ?]; [done|].
  set (self1 := match current_order_id self with Some _ => _ | None => _ end).
  assert (H1 : cleaning_inv self1).
  { unfold self1. destruct (current_order_id self) as [id|];
      [destruct (order_still_active ctl.1 id)|]; try done;
      (split; simpl; [done|lia]). }
  destruct (cleaning_workspace self1) eqn:Hcl.
  { destruct (cleanup_effect self1 bot_id ctl) as (Hq & _ & _ & Ho & _ & Hnn).
    destruct H1 as [Hnone Hpos]. split; [|by apply Hnn].
    intros _. rewrite Ho, Hq. by apply Hnone. }
  case_bool_decide.
  - destruct (get_bot_state ctl.1 bot_id) as [bs|]; [|done].
    destruct (holding bs); [done|].
    exact (cleaning_inv_effect _ _ H1 (select_and_start_effect self1 bs bot_id ctl) Hcl).
  - exact (cleaning_inv_effect _ _ H1 (step_plan_effect self1 bot_id ctl) Hcl).
Qed.

Lemma run_cleaning_inv worlds : ∀ self,
  cleaning_inv self -> cleaning_inv (run self worlds).
Proof.
  induction worlds as [|w ws IH]; intros self Hinv; [done|].
  apply IH. by apply play_turn_cleaning_inv.
Qed.

Lemma reachable_cleaning_inv map_copy worlds :
  cleaning_inv (run (new_bot_player map_copy) worlds).
Proof. apply run_cleaning_inv. split; [done|simpl; lia]. Qed.

(** One cleaning turn. *)
Lemma play_turn_cleaning self ctl :
  get_team_bot_ids ctl.1 ≠ [] ->
  cleaning_workspace self = true ->
  current_order_id self = None ->
  (cleaning_workspace (play_turn self ctl).1 = true ->
   cleanup_turns (play_turn self ctl).1 = cleanup_turns self + 1
   ∧ cleanup_turns (play_turn self ctl).1 ≤ 20)
  ∧ current_order_id (play_turn self ctl).1 = None
  ∧ command_queue (play_turn self ctl).1 = command_queue self
  ∧ (0 ≤ cleanup_turns self -> 0 ≤ cleanup_turns (play_turn self ctl).1).
Proof.
  intros Hbots Hcl Hnone. unfold BotPlayer.play_turn.
  destruct (get_team_bot_ids ctl.1) as [|bot_id bots]; [done|].
  rewrite Hnone, Hcl.
  destruct (cleanup_effect self bot_id ctl) as (Hq & _ & _ & Ho & Hstill & Hnn).
  split_and!; [|by rewrite Ho|done|done].
  intros Hon. destruct (Hstill Hon) as (_ & ? & ?). done.
Qed.

(** The executor is idle: not cleaning, no bound order, no plan; the
    next turn enters the order-selection block. *)
Definition idle (self : BotPlayer) : Prop :=
  cleaning_workspace self = false
  ∧ current_order_id self = None
  ∧ command_queue self = [].

(** The turns of a list on which the team has a bot. *)
Definition bot_turns (worlds : list World) : nat :=
  length (List.filter (λ w, negb (bool_decide (get_team_bot_ids w = []))) worlds).

Lemma bot_turns_cons w ws :
  bot_turns (w :: ws)
  = if bool_decide (get_team_bot_ids w = []) then bot_turns ws
    else S (bot_turns ws).
Proof. unfold bot_turns. simpl. by case_bool_decide. Qed.

(** From cleanup mode with the counter at [21 - n] or more, cleanup
    mode is left within [n] turns on which the team has a bot. *)
Lemma cleaning_ends_within worlds : ∀ (n : nat) self,
  cleaning_workspace self = true ->
  current_order_id self = None ->
  command_queue self = [] ->
  0 ≤ cleanup_turns self ->
  21 - cleanup_turns self ≤ Z.of_nat n ->
  (1 ≤ n)%nat ->
  (n ≤ bot_turns worlds)%nat ->
  ∃ k, (k ≤ length worlds)%nat
       ∧ (1 ≤ bot_turns (take k worlds) ≤ n)%nat
       ∧ idle (run self (take k worlds)).
Proof.
  induction worlds as [|w ws IH];
    intros n self Hcl Hnone Hq Hpos Hfuel Hone Hturns;
    [unfold bot_turns in Hturns; simpl in Hturns; lia|].
  rewrite bot_turns_cons in Hturns.
  destruct (bool_decide (get_team_bot_ids w = [])) eqn:Hw.
  - apply bool_decide_eq_true in Hw.
    destruct (IH n self Hcl Hnone Hq Hpos Hfuel Hone Hturns) as (k & Hk & Hn & Hoff).
    exists (S k). cbn [take]. rewrite bot_turns_cons, bool_decide_eq_true_2 by done.
    split; [simpl; lia|]. split; [done|].
    unfold run in *. cbn [foldl].
    by rewrite (play_turn_without_bot self (w, [])).
  - apply bool_decide_eq_false in Hw.
    destruct (play_turn_cleaning self (w, []) Hw Hcl Hnone)
      as (Hstill & Hnone' & Hq' & Hpos').
    rewrite Hq in Hq'.
    destruct (cleaning_workspace (play_turn self (w, [])).1) eqn:Hcl'.
    + destruct (Hstill eq_refl) as [Hinc Hle].
      destruct (IH (pred n) (play_turn self (w, [])).1 Hcl' Hnone' Hq' (Hpos' Hpos))
        as (k & Hk & Hn & Hoff); [lia..|].
      exists (S k). cbn [take]. rewrite bot_turns_cons, bool_decide_eq_false_2 by done.
      split; [simpl; lia|]. split; [lia|exact Hoff].
    + exists 1%nat. cbn [take]. rewrite bot_turns_cons, bool_decide_eq_false_2 by done.
      rewrite take_0. split; [simpl; lia|].
      split; [unfold bot_turns; simpl; lia|]. by split_and!.
Qed.

(** C10, amended.  Let the executor be in cleanup mode, in a state
    reached from a fresh [BotPlayer] by any history of turns.  On a
    turn on which the team has a bot and which stays in cleanup mode
    the cleanup counter goes up by exactly one and does not pass 20;
    the turn that would take it past 20 leaves cleanup mode.  On a turn
    on which the team has no bot [play_turn] returns at once: the
    counter and cleanup mode stay as they are.  So, whatever the
    worlds of the coming turns show, the executor is idle again, ready
    for order selection, by the time 21 of them had a bot. *)
Theorem cleaning_is_bounded map_copy history self :
  self = run (new_bot_player map_copy) history ->
  cleaning_workspace self = true ->
  (∀ ctl,
     match get_team_bot_ids ctl.1 with
     | [] => play_turn self ctl = (self, ctl)
     | _ :: _ =>
         (cleaning_workspace (play_turn self ctl).1 = true ->
          cleanup_turns (play_turn self ctl).1 = cleanup_turns self + 1
          ∧ cleanup_turns (play_turn self ctl).1 ≤ 20)
         ∧ (20 < cleanup_turns self + 1 ->
            cleaning_workspace (play_turn self ctl).1 = false)
     end)
  ∧ ∀ worlds,
      (21 ≤ bot_turns worlds)%nat ->
      ∃ k, (k ≤ length worlds)%nat
           ∧ (1 ≤ bot_turns (take k worlds) ≤ 21)%nat
           ∧ idle (run self (take k worlds)).
Proof.
  intros Hreach Hcl.
  destruct (reachable_cleaning_inv map_copy history) as [Hinv Hpos].
  rewrite <- Hreach in Hinv, Hpos. destruct (Hinv Hcl) as [Hnone Hq].
  split.
  - intros ctl. destruct (get_team_bot_ids ctl.1) as [|bot_id bots] eqn:Hbots;
      [by apply play_turn_without_bot|].
    assert (Hne : get_team_bot_ids ctl.1 ≠ []) by by rewrite Hbots.
    destruct (play_turn_cleaning self ctl Hne Hcl Hnone) as (Hstill & _).
    split; [done|]. intros Hover.
    destruct (cleaning_workspace (play_turn self ctl).1); [|done].
    destruct (Hstill eq_refl). lia.
  - intros worlds Hturns.
    by apply (cleaning_ends_within worlds 21 self); try lia.
Qed.

End ExecutorProperties.

(** An executor three commands into the plan for order 7 (scenario
    C). *)
Definition busy_bot_player : BotPlayer.BotPlayer :=
  BotPlayer.mkBotPlayer two_counter_kitchen
    (RecipePlanner.build_commands_for_order mock_food_types double_meat_order
       (Some (two_counter_world 10 [double_meat_order])))
    3 ∅ (Some 7) false 0.

(** Order 7 is still listed on turn 401, but no longer active. *)
Definition order_expired_world : World :=
  two_counter_world 401
    [mkOrder 7 ["MEAT"; "MEAT"; "NOODLES"] 120 30 (Some 400) false].

Lemma expired_order_is_abandoned_witness :
  BotPlayer.command_queue
    (BotPlayer.play_turn ignore_requests 2 mock_food_types busy_bot_player
       (order_expired_world, [])).1 = []
  ∧ BotPlayer.current_order_id
      (BotPlayer.play_turn ignore_requests 2 mock_food_types busy_bot_player
         (order_expired_world, [])).1 = None
  ∧ 7 ∈ BotPlayer.processed_orders
          (BotPlayer.play_turn ignore_requests 2 mock_food_types busy_bot_player
             (order_expired_world, [])).1.
Proof.
  assert (H1 : BotPlayer.current_order_id busy_bot_player = Some 7) by reflexivity.
  assert (H2 : ∀ o, o ∈ get_orders (order_expired_world, @nil Action).1 ->
                    order_id o = 7 -> is_active o = false).
  { intros o Hin _. apply list_elem_of_singleton in Hin. by subst o. }
  destruct (expired_order_is_abandoned ignore_requests 2 mock_food_types
              busy_bot_player (order_expired_world, []) 7 H1 H2)
    as (_ & _ & _ & Hq & Ho & Hlater).
  exact (conj Hq (conj Ho (proj1 (Hlater [])))).
Defined.

(** A turn on which the team has no bot: turn 401, order 7 gone. *)
Definition nobody_world : World :=
  mkWorld 401 two_counter_kitchen [] (λ _, None) [] 100.

(** C7, as stated, fails on a turn without a bot: the executor is
    bound to order 7, which is no longer reported, and [play_turn]
    leaves the plan, the binding and the mode as they are. *)
Lemma expired_plan_stays_without_bot :
  BotPlayer.current_order_id busy_bot_player = Some 7
  ∧ get_orders nobody_world = []
  ∧ BotPlayer.play_turn ignore_requests 2 mock_food_types busy_bot_player
      (nobody_world, [])
    = (busy_bot_player, (nobody_world, []))
  ∧ BotPlayer.command_queue busy_bot_player ≠ []
  ∧ BotPlayer.cleaning_workspace busy_bot_player = false.
Proof. split_and!; [done..|discriminate|done]. Qed.

(** The world of a turn on which order 1 is no longer reported while
    the bot carries raw meat. *)
Definition order_gone_holding_world : World :=
  one_bot_world 230 two_counter_kitchen
    (Some (mkBotState 2 2 (Some (ItFood (mkFood "MEAT" false 0))))) [] 100.

(** A short match: order 1 of the test orders is picked on turn 10 and
    has vanished on turn 230. *)
Definition short_history : list World :=
  [two_counter_world 10 test_orders; order_gone_holding_world].

Lemma cleaning_is_bounded_witness :
  BotPlayer.cleaning_workspace
    (BotPlayer.run ignore_requests 2 mock_food_types
       (BotPlayer.new_bot_player two_counter_kitchen) short_history) = true
  ∧ ∃ k, (k ≤ 30)%nat
         ∧ idle
             (BotPlayer.run ignore_requests 2 mock_food_types
                (BotPlayer.run ignore_requests 2 mock_food_types
                   (BotPlayer.new_bot_player two_counter_kitchen) short_history)
                (take k (replicate 9 nobody_world
                         ++ replicate 21 order_gone_holding_world))).
Proof.
  assert (H1 : BotPlayer.cleaning_workspace
      (BotPlayer.run ignore_requests 2 mock_food_types
         (BotPlayer.new_bot_player two_counter_kitchen) short_history) = true)
    by (vm_compute; reflexivity).
  destruct (cleaning_is_bounded ignore_requests 2 mock_food_types
              two_counter_kitchen short_history _ eq_refl H1) as [_ Hbound].
  destruct (Hbound (replicate 9 nobody_world
                    ++ replicate 21 order_gone_holding_world))
    as (k & Hk & _ & Hidle); [vm_compute; lia|].
  exact (conj H1 (ex_intro _ k (conj Hk Hidle))).
Defined.

(** C10, as stated, fails on turns without a bot: over 100 such turns
    in a row the executor stays in cleanup mode and the counter does
    not move. *)
Lemma cleaning_stalls_without_bot :
  BotPlayer.cleaning_workspace
    (BotPlayer.run ignore_requests 2 mock_food_types
       (BotPlayer.new_bot_player two_counter_kitchen) short_history) = true
  ∧ BotPlayer.cleaning_workspace
      (BotPlayer.run ignore_requests 2 mock_food_types
         (BotPlayer.run ignore_requests 2 mock_food_types
            (BotPlayer.new_bot_player two_counter_kitchen) short_history)
         (replicate 100 nobody_world)) = true
  ∧ BotPlayer.cleanup_turns
      (BotPlayer.run ignore_requests 2 mock_food_types
         (BotPlayer.run ignore_requests 2 mock_food_types
            (BotPlayer.new_bot_player two_counter_kitchen) short_history)
         (replicate 100 nobody_world))
    = BotPlayer.cleanup_turns
        (BotPlayer.run ignore_requests 2 mock_food_types
           (BotPlayer.new_bot_player two_counter_kitchen) short_history).
Proof. by vm_compute. Qed.

(** * Further properties of the bots *)

(** ** Tile search *)

Section TileSearch.

(** The order in which [for x in range(m.width): for y in
    range(m.height)] reaches the cells. *)
Definition scanned_before (a b : Cell) : Prop :=
  a.1 < b.1 ∨ (a.1 = b.1 ∧ a.2 < b.2).

Lemma elem_of_scan m c : c ∈ scan m <-> Navigator.in_bounds m c = true.
Proof.
  unfold scan, Navigator.grid_cells, Navigator.in_bounds.
  destruct c as [x y]; simpl. rewrite list_elem_of_bind. split.
  - intros (x' & Hin & Hx). apply list_elem_of_bind in Hin as (y' & Hin & Hy).
    apply list_elem_of_singleton in Hin. injection Hin as -> ->.
    apply elem_of_seqZ in Hx, Hy.
    repeat (apply andb_true_intro; split); lia.
  - intros H. repeat (apply andb_prop in H as [H ?]).
    exists x. split; [|apply elem_of_seqZ; lia].
    apply list_elem_of_bind. exists y. split; [by apply list_elem_of_singleton|].
    apply elem_of_seqZ; lia.
Qed.

Lemma seqZ_sorted n : ∀ a, StronglySorted Z.lt (seqZ a n).
Proof.
  remember (Z.to_nat n) as k eqn:Hk. revert n Hk.
  induction k as [|k IH]; intros n Hk a.
  - rewrite seqZ_nil by lia. constructor.
  - rewrite seqZ_cons by lia. constructor; [apply IH; lia|].
    apply Forall_seqZ. lia.
Qed.

Lemma bind_sorted {A B} (R1 : relation A) (R2 : relation B)
    (f : A -> list B) (l : list A) :
  StronglySorted R1 l ->
  (∀ x, StronglySorted R2 (f x)) ->
  (∀ x x' a b, R1 x x' -> a ∈ f x -> b ∈ f x' -> R2 a b) ->
  StronglySorted R2 (l ≫= f).
Proof.
  intros Hl Hf HR. induction Hl as [|x l Hl IH Hx]; [constructor|].
  rewrite bind_cons. apply StronglySorted_app_2; [|done..].
  intros a b Ha Hb. apply list_elem_of_bind in Hb as (x' & Hb & Hx').
  rewrite Forall_forall in Hx. by eapply HR; [apply Hx, Hx'|..].
Qed.

Lemma filter_sorted {A} (R : relation A) (P : A -> Prop)
    `{∀ x, Decision (P x)} (l : list A) :
  StronglySorted R l -> StronglySorted R (filter P l).
Proof.
  induction 1 as [|x l Hl IH Hx]; [constructor|].
  rewrite filter_cons. destruct (decide (P x)); [|done].
  constructor; [done|]. rewrite Forall_forall in *.
  intros y Hy. apply list_elem_of_filter in Hy as [_ Hy]. by apply Hx.
Qed.

Lemma scan_sorted m : StronglySorted scanned_before (scan m).
Proof.
  unfold scan, Navigator.grid_cells.
  apply (bind_sorted Z.lt); [apply seqZ_sorted| |].
  - intros x. apply (bind_sorted Z.lt); [apply seqZ_sorted| |].
    + intros y. repeat constructor.
    + intros y y' a b Hlt ->%list_elem_of_singleton ->%list_elem_of_singleton.
      right. by simpl.
  - intros x x' a b Hlt Ha Hb.
    apply list_elem_of_bind in Ha as (y & ->%list_elem_of_singleton & _).
    apply list_elem_of_bind in Hb as (y' & ->%list_elem_of_singleton & _).
    by left.
Qed.

(** What the early-[return] loops compute: the first cell, in scan
    order, that passes the test. *)
Lemma first_in_scan m (P : Cell -> Prop) `{∀ c, Decision (P c)} :
  match head (filter P (scan m)) with
  | Some c =>
      Navigator.in_bounds m c = true ∧ P c
      ∧ ∀ c', Navigator.in_bounds m c' = true -> P c' ->
          c' = c ∨ scanned_before c c'
  | None => ∀ c', Navigator.in_bounds m c' = true -> ¬ P c'
  end.
Proof.
  destruct (head (filter P (scan m))) as [c|] eqn:Hhead.
  - assert (Hc : c ∈ filter P (scan m)).
    { destruct (filter P (scan m)); [done|]. injection Hhead as ->. left. }
    apply list_elem_of_filter in Hc as [HP Hc].
    apply head_filter_Some in Hhead as (l1 & l2 & Hl & Hl1).
    split_and!; [by apply elem_of_scan|done|].
    intros c' Hin HP'. apply elem_of_scan in Hin.
    pose proof (scan_sorted m) as Hs. rewrite Hl in Hin, Hs.
    apply elem_of_app in Hin as [Hin|Hin].
    + rewrite Forall_forall in Hl1. by destruct (Hl1 _ Hin).
    + apply elem_of_cons in Hin as [?|Hin]; [by left|right].
      apply StronglySorted_app_1_r in Hs. inversion Hs as [|? ? _ Hall]; subst.
      rewrite Forall_forall in Hall. by apply Hall.
  - intros c' Hin HP'. apply elem_of_scan in Hin.
    assert (Hc : c' ∈ filter P (scan m)) by by apply list_elem_of_filter.
    destruct (filter P (scan m)); [by apply elem_of_nil in Hc|done].
Qed.

(** X1.  [find_tile] returns the first tile of the given name in scan
    order, a cell of the map; it returns [None] exactly when the map
    has no tile of that name. *)
Theorem find_tile_first w name :
  match find_tile w name with
  | Some c =>
      Navigator.in_bounds (get_map w) c = true
      ∧ tile_name (tile_at (get_map w) c) = name
      ∧ ∀ c', Navigator.in_bounds (get_map w) c' = true ->
          tile_name (tile_at (get_map w) c') = name ->
          c' = c ∨ scanned_before c c'
  | None =>
      ∀ c', Navigator.in_bounds (get_map w) c' = true ->
        tile_name (tile_at (get_map w) c') ≠ name
  end.
Proof.
  unfold find_tile.
  pose proof (first_in_scan (get_map w)
                (λ c, tile_name (tile_at (get_map w) c) = name)) as Hfirst.
  destruct (head _) as [c|]; [|done].
  destruct Hfirst as (Hin & Hname & Hmin). by split_and!.
Qed.

(** X2.  [find_empty_tile] returns the first tile of the given name
    that carries no item; it returns [None] exactly when every tile of
    that name carries an item (in particular when there is none). *)
Theorem find_empty_tile_first w name :
  match find_empty_tile w name with
  | Some c =>
      Navigator.in_bounds (get_map w) c = true
      ∧ tile_name (tile_at (get_map w) c) = name
      ∧ item (tile_at (get_map w) c) = None
      ∧ ∀ c', Navigator.in_bounds (get_map w) c' = true ->
          tile_name (tile_at (get_map w) c') = name ->
          item (tile_at (get_map w) c') = None ->
          c' = c ∨ scanned_before c c'
  | None =>
      ∀ c', Navigator.in_bounds (get_map w) c' = true ->
        tile_name (tile_at (get_map w) c') = name ->
        item (tile_at (get_map w) c') ≠ None
  end.
Proof.
  unfold find_empty_tile.
  pose proof (first_in_scan (get_map w)
                (λ c, tile_name (tile_at (get_map w) c) = name
                      ∧ item (tile_at (get_map w) c) = None)) as Hfirst.
  destruct (head _) as [c|].
  - destruct Hfirst as (Hin & [Hname Hitem] & Hmin). split_and!; [done..|].
    intros c' Hin' Hname' Hitem'. by apply Hmin.
  - intros c' Hin' Hname' Hitem'. by apply (Hfirst c' Hin').
Qed.

(** X3.  [find_item_on_tile] returns the first tile of the given name
    whose item passes [item_check]; it returns [None] exactly when no
    tile of that name carries such an item.  A tile without an item
    never qualifies, whatever the check. *)
Theorem find_item_on_tile_first w name item_check :
  match find_item_on_tile w name item_check with
  | Some c =>
      Navigator.in_bounds (get_map w) c = true
      ∧ tile_name (tile_at (get_map w) c) = name
      ∧ (∃ it, item (tile_at (get_map w) c) = Some it ∧ item_check it = true)
      ∧ ∀ c' it, Navigator.in_bounds (get_map w) c' = true ->
          tile_name (tile_at (get_map w) c') = name ->
          item (tile_at (get_map w) c') = Some it -> item_check it = true ->
          c' = c ∨ scanned_before c c'
  | None =>
      ∀ c' it, Navigator.in_bounds (get_map w) c' = true ->
        tile_name (tile_at (get_map w) c') = name ->
        item (tile_at (get_map w) c') = Some it -> item_check it = false
  end.
Proof.
  unfold find_item_on_tile.
  pose proof (first_in_scan (get_map w)
                (λ c, tile_name (tile_at (get_map w) c) = name
                      ∧ from_option item_check false
                          (item (tile_at (get_map w) c)) = true)) as Hfirst.
  destruct (head _) as [c|].
  - destruct Hfirst as (Hin & [Hname Hitem] & Hmin). split_and!; [done..| |].
    + destruct (item (tile_at (get_map w) c)) as [it|]; [|done]. by exists it.
    + intros c' it Hin' Hname' Hitem' Hcheck. apply Hmin; [done|].
      by rewrite Hitem'.
  - intros c' it Hin' Hname' Hitem'.
    destruct (item_check it) eqn:Hcheck; [|done].
    destruct (Hfirst c' Hin'). by rewrite Hitem'.
Qed.

(** The running minimum keeps the first of the closest candidates:
    those before it are strictly farther, those after it at least as
    far. *)
Lemma closest_spec from_pos cands :
  match closest from_pos cands with
  | Some c =>
      ∃ l1 l2, cands = l1 ++ c :: l2
        ∧ Forall (λ c', chebyshev c from_pos < chebyshev c' from_pos) l1
        ∧ Forall (λ c', chebyshev c from_pos ≤ chebyshev c' from_pos) l2
  | None => cands = []
  end.
Proof.
  unfold closest.
  assert (Hinv :
    match foldl (closer from_pos) None cands with
    | Some (c, d) =>
        d = chebyshev c from_pos
        ∧ ∃ l1 l2, cands = l1 ++ c :: l2
            ∧ Forall (λ c', chebyshev c from_pos < chebyshev c' from_pos) l1
            ∧ Forall (λ c', chebyshev c from_pos ≤ chebyshev c' from_pos) l2
    | None => cands = []
    end).
  { induction cands as [|x l IH] using rev_ind; [done|].
    rewrite foldl_snoc. destruct (foldl (closer from_pos) None l) as [[c d]|].
    - destruct IH as (-> & l1 & l2 & -> & H1 & H2). simpl.
      destruct (chebyshev x from_pos <? chebyshev c from_pos) eqn:Hlt.
      + split; [done|]. exists (l1 ++ c :: l2), []. split_and!; [done| |done].
        apply Forall_app. split; [|constructor].
        * eapply Forall_impl; [exact H1|]. simpl. lia.
        * lia.
        * eapply Forall_impl; [exact H2|]. simpl. lia.
      + split; [done|]. exists l1, (l2 ++ [x]). split_and!.
        * by rewrite <- app_assoc.
        * done.
        * apply Forall_app. split; [done|]. constructor; [lia|done].
    - subst l. simpl. split; [done|]. by exists [], []. }
  destruct (foldl (closer from_pos) None cands) as [[c d]|]; simpl; [|done].
  by destruct Hinv as [_ ?].
Qed.

(** The closest cell that passes a test: a nearest one, and of the
    nearest ones the first in scan order. *)
Lemma closest_in_scan m from_pos (P : Cell -> Prop) `{∀ c, Decision (P c)} :
  match closest from_pos (filter P (scan m)) with
  | Some c =>
      Navigator.in_bounds m c = true ∧ P c
      ∧ ∀ c', Navigator.in_bounds m c' = true -> P c' ->
          chebyshev c from_pos < chebyshev c' from_pos
          ∨ (chebyshev c from_pos = chebyshev c' from_pos
             ∧ (c' = c ∨ scanned_before c c'))
  | None => ∀ c', Navigator.in_bounds m c' = true -> ¬ P c'
  end.
Proof.
  pose proof (closest_spec from_pos (filter P (scan m))) as Hspec.
  destruct (closest from_pos (filter P (scan m))) as [c|].
  - destruct Hspec as (l1 & l2 & Hl & Hl1 & Hl2).
    assert (Hc : c ∈ filter P (scan m)) by (rewrite Hl; set_solver).
    apply list_elem_of_filter in Hc as [HP Hc].
    split_and!; [by apply elem_of_scan|done|].
    intros c' Hin HP'.
    assert (Hc' : c' ∈ filter P (scan m))
      by by apply list_elem_of_filter; split; [|apply elem_of_scan].
    pose proof (filter_sorted scanned_before P _ (scan_sorted m)) as Hs.
    rewrite Hl in Hc', Hs. rewrite Forall_forall in Hl1, Hl2.
    apply elem_of_app in Hc' as [Hc'|Hc']; [left; by apply Hl1|].
    apply elem_of_cons in Hc' as [->|Hc']; [right; split; [done|by left]|].
    specialize (Hl2 _ Hc').
    destruct (decide (chebyshev c from_pos = chebyshev c' from_pos));
      [right|left; lia].
    split; [done|right].
    apply StronglySorted_app_1_r in Hs. inversion Hs as [|? ? _ Hall]; subst.
    rewrite Forall_forall in Hall. by apply Hall.
  - intros c' Hin HP'.
    assert (Hc' : c' ∈ filter P (scan m))
      by by apply list_elem_of_filter; split; [|apply elem_of_scan].
    rewrite Hspec in Hc'. by apply elem_of_nil in Hc'.
Qed.

(** X4.  [find_closest_tile] returns a tile of the given name nearest
    to [from_pos] in Chebyshev distance: no tile of that name is
    strictly closer, and a tile of that name at the same distance comes
    later in scan order.  It returns [None] exactly when [find_tile]
    does. *)
Theorem find_closest_tile_nearest w name from_pos :
  match find_closest_tile w name from_pos with
  | Some c =>
      Navigator.in_bounds (get_map w) c = true
      ∧ tile_name (tile_at (get_map w) c) = name
      ∧ is_Some (find_tile w name)
      ∧ ∀ c', Navigator.in_bounds (get_map w) c' = true ->
          tile_name (tile_at (get_map w) c') = name ->
          chebyshev c from_pos < chebyshev c' from_pos
          ∨ (chebyshev c from_pos = chebyshev c' from_pos
             ∧ (c' = c ∨ scanned_before c c'))
  | None =>
      find_tile w name = None
      ∧ ∀ c', Navigator.in_bounds (get_map w) c' = true ->
          tile_name (tile_at (get_map w) c') ≠ name
  end.
Proof.
  unfold find_closest_tile.
  pose proof (closest_in_scan (get_map w) from_pos
                (λ c, tile_name (tile_at (get_map w) c) = name)) as Hnear.
  pose proof (first_in_scan (get_map w)
                (λ c, tile_name (tile_at (get_map w) c) = name)) as Hfirst.
  fold (find_tile w name) in Hfirst.
  destruct (closest _ _) as [c|].
  - destruct Hnear as (Hin & Hname & Hmin). split_and!; [done..| |done].
    destruct (find_tile w name); [done|]. by destruct (Hfirst c Hin).
  - split; [|done].
    destruct (find_tile w name) as [c|]; [|done].
    destruct Hfirst as (Hin & Hname & _). by destruct (Hnear c Hin).
Qed.

(** X5.  [find_closest_empty_tile] returns an empty tile of the given
    name nearest to [from_pos] (of the nearest ones, the first in scan
    order), and [None] exactly when [find_empty_tile] does: when every
    tile of that name carries an item. *)
Theorem find_closest_empty_tile_nearest w name from_pos :
  match find_closest_empty_tile w name from_pos with
  | Some c =>
      Navigator.in_bounds (get_map w) c = true
      ∧ tile_name (tile_at (get_map w) c) = name
      ∧ item (tile_at (get_map w) c) = None
      ∧ is_Some (find_empty_tile w name)
      ∧ ∀ c', Navigator.in_bounds (get_map w) c' = true ->
          tile_name (tile_at (get_map w) c') = name ->
          item (tile_at (get_map w) c') = None ->
          chebyshev c from_pos < chebyshev c' from_pos
          ∨ (chebyshev c from_pos = chebyshev c' from_pos
             ∧ (c' = c ∨ scanned_before c c'))
  | None =>
      find_empty_tile w name = None
      ∧ ∀ c', Navigator.in_bounds (get_map w) c' = true ->
          tile_name (tile_at (get_map w) c') = name ->
          item (tile_at (get_map w) c') ≠ None
  end.
Proof.
  unfold find_closest_empty_tile.
  pose proof (closest_in_scan (get_map w) from_pos
                (λ c, tile_name (tile_at (get_map w) c) = name
                      ∧ item (tile_at (get_map w) c) = None)) as Hnear.
  pose proof (first_in_scan (get_map w)
                (λ c, tile_name (tile_at (get_map w) c) = name
                      ∧ item (tile_at (get_map w) c) = None)) as Hfirst.
  fold (find_empty_tile w name) in Hfirst.
  destruct (closest _ _) as [c|].
  - destruct Hnear as (Hin & [Hname Hitem] & Hmin). split_and!; [done..| |].
    + destruct (find_empty_tile w name); [done|]. by destruct (Hfirst c Hin).
    + intros c' Hin' Hname' Hitem'. by apply Hmin.
  - split.
    + destruct (find_empty_tile w name) as [c|]; [|done].
      destruct Hfirst as (Hin & Hc & _). by destruct (Hnear c Hin).
    + intros c' Hin' Hname' Hitem'. by apply (Hnear c' Hin').
Qed.

End TileSearch.

(** ** Staging the plate (C8) *)

Section PlateStaging.
Import Commands RecipePlanner.
Variable food_types : list FoodType.

(** The map has a station of the given name at cell [c]. *)
Definition station_at (m : GameMap) (name : string) (c : Cell) : Prop :=
  0 ≤ c.1 < width m ∧ 0 ≤ c.2 < height m ∧ tile_name (tile_at m c) = name.

(** The map has exactly one counter station and at least one box
    station. *)
Definition one_counter_and_a_box (m : GameMap) : Prop :=
  (∃ c, station_at m "COUNTER" c ∧ ∀ c', station_at m "COUNTER" c' -> c' = c)
  ∧ ∃ b, station_at m "BOX" b.

Lemma scan_NoDup m : NoDup (scan m).
Proof.
  pose proof (scan_sorted m) as Hs.
  induction Hs as [|c l Hs IH Hc]; constructor; [|done].
  intros Hin. rewrite Forall_forall in Hc. specialize (Hc _ Hin).
  unfold scanned_before in Hc. lia.
Qed.

Lemma station_at_scan m name c :
  station_at m name c
  <-> c ∈ filter (λ c, tile_name (tile_at m c) = name) (scan m).
Proof.
  rewrite list_elem_of_filter, elem_of_scan. unfold station_at, Navigator.in_bounds.
  rewrite !andb_true_iff, !Z.leb_le, !Z.ltb_lt. tauto.
Qed.

(** [count_tiles] counts the stations of a name. *)
Lemma count_tiles_one w name :
  count_tiles w name = 1
  <-> ∃ c, station_at (get_map w) name c
           ∧ ∀ c', station_at (get_map w) name c' -> c' = c.
Proof.
  unfold count_tiles. setoid_rewrite station_at_scan.
  pose proof (NoDup_filter (λ c, tile_name (tile_at (get_map w) c) = name) _
                (scan_NoDup (get_map w))) as Hnd.
  destruct (filter _ (scan (get_map w))) as [|c [|c' l]]; simpl.
  - split; [lia|]. by intros (c & ?%elem_of_nil & _).
  - split; [|done]. intros _. exists c. split; [left|].
    by intros c' ->%list_elem_of_singleton.
  - split; [lia|]. intros (c0 & _ & Hall).
    apply NoDup_cons in Hnd as [Hc _].
    assert (c = c0) as -> by (apply Hall; left).
    assert (c' = c0) as -> by (apply Hall; right; left).
    exfalso. apply Hc. left.
Qed.

Lemma count_tiles_some w name :
  1 ≤ count_tiles w name <-> ∃ c, station_at (get_map w) name c.
Proof.
  unfold count_tiles. setoid_rewrite station_at_scan.
  destruct (filter _ (scan (get_map w))) as [|c l]; simpl.
  - split; [lia|]. by intros (c & ?%elem_of_nil).
  - split; [|lia]. intros _. exists c. left.
Qed.

Lemma use_box_for_plate_spec controller :
  use_box_for_plate controller = true
  <-> ∃ w, controller = Some w ∧ one_counter_and_a_box (get_map w).
Proof.
  unfold use_box_for_plate, one_counter_and_a_box.
  destruct controller as [w|]; [|split; [done|by intros (w & ? & _)]].
  rewrite andb_true_iff, Z.eqb_eq, Z.geb_le, count_tiles_one, count_tiles_some.
  split; [intros H; by exists w|by intros (w' & [= <-] & H)].
Qed.

(** C8.  Every compiled sequence starts with buying and staging the
    plate and ends with picking it up from the same place and
    submitting; the place is a box exactly when a controller is passed
    whose map has exactly one counter station and at least one box
    station, and a counter otherwise (also when the planner is called
    without a controller, and so without a map to count on). *)
Theorem plan_brackets_with_plate order controller :
  ∃ stage body pickup,
    build_commands_for_order food_types order controller
      = BuyPlateCommand :: stage :: body
        ++ [pickup; SubmitOrderCommand (order_id order)]
    ∧ ((∃ w, controller = Some w ∧ one_counter_and_a_box (get_map w))
         ∧ stage = PlaceInBoxCommand ∧ pickup = PickupPlateFromBoxCommand
       ∨ ¬ (∃ w, controller = Some w ∧ one_counter_and_a_box (get_map w))
         ∧ stage = PlaceOnCounterCommand ∧ pickup = PickupPlateFromCounterCommand).
Proof.
  unfold build_commands_for_order.
  set (body := if use_parallel_cooking _ _ _ then _ else _).
  exists (stage_plate (use_box_for_plate controller)), body,
         (pickup_plate (use_box_for_plate controller)).
  split; [done|].
  pose proof (use_box_for_plate_spec controller) as Hspec.
  unfold stage_plate, pickup_plate.
  destruct (use_box_for_plate controller); [left|right]; split_and!; try done.
  - by apply Hspec.
  - intros H. apply Hspec in H. done.
Qed.

End PlateStaging.

(** ** More on the Navigator *)

Section NavigatorProperties.
Import Navigator.

Lemma visit_own_cell m occupied start c path st d :
  visit m (occupied ∖ {[start]}) start c path st d
  = visit m occupied start c path st d.
Proof.
  unfold visit. destruct st as [queue visited].
  destruct ((d.1 =? 0) && (d.2 =? 0)); [done|].
  destruct (bool_decide (move c d ∈ visited)); [done|].
  destruct (negb (in_bounds m (move c d))); [done|].
  replace (bool_decide (move c d ∈ occupied ∖ {[start]})
           && negb (bool_decide (move c d = start)))
    with (bool_decide (move c d ∈ occupied)
          && negb (bool_decide (move c d = start))); [done|].
  repeat case_bool_decide; simpl; try done; set_solver.
Qed.

Lemma foldl_visit_own_cell m occupied start c path ds : ∀ st,
  foldl (visit m (occupied ∖ {[start]}) start c path) st ds
  = foldl (visit m occupied start c path) st ds.
Proof.
  induction ds as [|d ds IH]; intros st; [done|].
  cbn [foldl]. rewrite visit_own_cell. apply IH.
Qed.

Lemma expand_own_cell m occupied start c path queue visited :
  expand m (occupied ∖ {[start]}) start c path queue visited
  = expand m occupied start c path queue visited.
Proof. apply foldl_visit_own_cell. Qed.

Lemma bfs_loop_own_cell m occupied start goal fuel : ∀ queue visited,
  bfs_loop m (occupied ∖ {[start]}) start goal fuel queue visited
  = bfs_loop m occupied start goal fuel queue visited.
Proof.
  induction fuel as [|fuel IH]; intros queue visited; [done|].
  cbn [bfs_loop]. destruct queue as [|[c path] rest]; [done|].
  destruct (adjacent c goal); [done|].
  rewrite expand_own_cell.
  destruct (expand m occupied start c path rest visited) as [q' V'].
  apply IH.
Qed.

(** X6.  The searching bot is no obstacle to itself: whether or not the
    start cell is among the occupied cells makes no difference to the
    result of [bfs_to_adjacent]. *)
Theorem bfs_ignores_own_cell m occupied start goal :
  bfs_to_adjacent m (occupied ∖ {[start]}) start goal
  = bfs_to_adjacent m occupied start goal
  ∧ bfs_to_adjacent m ({[start]} ∪ occupied) start goal
  = bfs_to_adjacent m occupied start goal.
Proof.
  assert (Heq : ({[start]} ∪ occupied) ∖ {[start]} = occupied ∖ {[start]})
    by set_solver.
  assert (Hown : ∀ occ, bfs_to_adjacent m (occ ∖ {[start]}) start goal
                        = bfs_to_adjacent m occ start goal).
  { intros occ. unfold bfs_to_adjacent.
    destruct (adjacent start goal); [done|].
    by rewrite bfs_loop_own_cell. }
  split; [apply Hown|].
  rewrite <- (Hown ({[start]} ∪ occupied)), Heq. apply Hown.
Qed.

(** [shortest m occupied start goal n]: a cell adjacent to the goal is
    [n] walkable moves from [start], and no fewer. *)
Definition shortest (m : GameMap) (occupied : gset Cell) (start goal : Cell)
    (n : nat) : Prop :=
  (∃ c p, walk m occupied start start p c ∧ adjacent c goal = true ∧ length p = n)
  ∧ ∀ x p', walk m occupied start start p' x -> adjacent x goal = true ->
      (n ≤ length p')%nat.

Lemma walk_ext m occ start occ' start' :
  (∀ c, enterable m occ start c = enterable m occ' start' c) ->
  ∀ a p b, walk m occ start a p b -> walk m occ' start' a p b.
Proof.
  intros Hent a p b Hw. induction Hw as [|c d p c' Hd He _ IH]; [constructor|].
  constructor; [done| |done]. by rewrite <- Hent.
Qed.

(** X7.  Following the Navigator makes progress: after the returned
    step, with the other bots where they were, the number of moves to a
    cell adjacent to the goal is exactly one less than before, and the
    next call returns [None] exactly when the bot has arrived. *)
Theorem bfs_step_makes_progress m others start goal s :
  start ∉ others ->
  bfs_to_adjacent m ({[start]} ∪ others) start goal = Some s ->
  ∃ n, shortest m ({[start]} ∪ others) start goal (S n)
     ∧ shortest m ({[move start s]} ∪ others) (move start s) goal n
     ∧ (bfs_to_adjacent m ({[move start s]} ∪ others) (move start s) goal = None
        <-> n = 0%nat).
Proof.
  intros Hstart Hs.
  apply bfs_to_adjacent_some in Hs as [Hfar (c & p & Hw & Hc & Hmin)].
  inversion Hw as [|? ? ? ? Hvd He Hw']; subst.
  set (start' := move start s) in *.
  assert (Hne : start' ≠ start).
  { destruct Hvd as [_ Hz]. destruct start as [x y], s as [dx dy].
    unfold start', move; simpl. intros [= ? ?]. apply Hz. f_equal; lia. }
  assert (Hfree : start' ∉ others).
  { unfold enterable in He. repeat (apply andb_prop in He as [He ?]).
    intros Hin. rewrite bool_decide_true, bool_decide_false in * by set_solver.
    done. }
  assert (Hent : ∀ x, enterable m ({[start]} ∪ others) start x
                      = enterable m ({[start']} ∪ others) start' x).
  { intros x. unfold enterable. do 2 f_equal.
    repeat case_bool_decide; simpl; try done; set_solver. }
  assert (Hent' : ∀ x, enterable m ({[start']} ∪ others) start' x
                       = enterable m ({[start]} ∪ others) start x) by done.
  exists (length p). split_and!.
  - split; [by exists c, (s :: p)|done].
  - split; [exists c, p; split_and!; [|done..]; by eapply walk_ext|].
    intros x p' Hp' Hx.
    assert (walk m ({[start]} ∪ others) start start (s :: p') x) as Hsp'.
    { constructor; [done..|]. by eapply walk_ext. }
    specialize (Hmin _ _ Hsp' Hx). simpl in Hmin. lia.
  - rewrite bfs_to_adjacent_none. split.
    + intros [Hadj|Hno].
      * assert (walk m ({[start]} ∪ others) start start [s] start') as Hone
          by (constructor; [done..|constructor]).
        specialize (Hmin _ _ Hone Hadj). simpl in Hmin. lia.
      * destruct Hno. exists c, p. split; [|done]. by eapply walk_ext.
    + intros Hp. left. destruct p; [|done]. by inversion Hw'; subst.
Qed.

End NavigatorProperties.

Lemma bfs_step_makes_progress_witness :
  ∃ n, shortest Navigator.detour_map ({[(2, 0)]} ∪ ∅) (2, 0) (5, 0) (S n)
     ∧ shortest Navigator.detour_map ({[move (2, 0) (-1, 0)]} ∪ ∅)
         (move (2, 0) (-1, 0)) (5, 0) n
     ∧ (Navigator.bfs_to_adjacent Navigator.detour_map
          ({[move (2, 0) (-1, 0)]} ∪ ∅) (move (2, 0) (-1, 0)) (5, 0) = None
        <-> n = 0%nat).
Proof.
  apply (bfs_step_makes_progress Navigator.detour_map ∅ (2, 0) (5, 0) (-1, 0)).
  - set_solver.
  - by vm_compute.
Defined.

(** ** Resource availability *)

Section Accessibility.
Local Abbreviation bfs_in_world := bfs_to_adjacent.
Import Navigator BotPlayer.

Lemma directions_nonzero d :
  negb ((d.1 =? 0) && (d.2 =? 0)) = true <-> d ≠ (0, 0).
Proof.
  destruct d as [dx dy]; simpl. rewrite negb_true_iff, andb_false_iff. split.
  - intros [H|H] [= -> ->]; lia.
  - intros Hne. destruct (decide (dx = 0)) as [->|]; [|left; lia].
    right. apply Z.eqb_neq. intros ->. by apply Hne.
Qed.

Lemma reachable_or_adjacent w from_pos tile_pos :
  bool_decide (is_Some (bfs_in_world w from_pos tile_pos))
  || adjacent from_pos tile_pos = true
  <-> reachable_adjacent (get_map w) (occupied_tiles w) from_pos tile_pos.
Proof.
  unfold bfs_in_world. rewrite orb_true_iff, bool_decide_eq_true.
  split.
  - intros [[s Hs]|Hadj].
    + apply bfs_to_adjacent_some in Hs as [_ (c & p & Hw & Hc & _)].
      by exists c, (s :: p).
    + exists from_pos, []. split; [constructor|done].
  - intros Hreach. destruct (adjacent from_pos tile_pos) eqn:Hadj; [by right|left].
    destruct (bfs_to_adjacent _ _ _ _) eqn:Hs; [done|].
    apply bfs_to_adjacent_none in Hs as [?|?]; [congruence|done].
Qed.

(** X8.  [has_accessible_tile_type] holds exactly when the bot's copy
    of the map has a tile of the given name with a walkable cell of the
    map next to it, and on the controller's map a cell adjacent to that
    tile can be reached from [from_pos] by walkable moves (none, if the
    bot already stands next to it). *)
Theorem has_accessible_tile_type_spec self w name from_pos :
  has_accessible_tile_type self w name from_pos = true
  <-> ∃ tile_pos,
        in_bounds (bp_map self) tile_pos = true
        ∧ tile_name (tile_at (bp_map self) tile_pos) = name
        ∧ (∃ d, valid_dir d
              ∧ in_bounds (bp_map self) (move tile_pos d) = true
              ∧ is_walkable (tile_at (bp_map self) (move tile_pos d)) = true)
        ∧ reachable_adjacent (get_map w) (occupied_tiles w) from_pos tile_pos.
Proof.
  unfold has_accessible_tile_type. rewrite existsb_exists. split.
  - intros (tile_pos & Hin & Hok). apply list_elem_of_In, elem_of_scan in Hin.
    apply andb_prop in Hok as [Hname Hdirs].
    apply bool_decide_eq_true in Hname.
    apply existsb_exists in Hdirs as (d & Hd & Hok).
    apply list_elem_of_In in Hd.
    apply andb_prop in Hok as [Hok Hreach].
    apply andb_prop in Hok as [Hok Hwalk].
    apply andb_prop in Hok as [Hnz Hinb].
    exists tile_pos. split_and!; [done..| |by apply reachable_or_adjacent].
    exists d. split_and!; [|done..]. split; [done|by apply directions_nonzero].
  - intros (tile_pos & Hin & Hname & (d & [Hd Hnz] & Hinb & Hwalk) & Hreach).
    exists tile_pos. split; [by apply list_elem_of_In, elem_of_scan|].
    apply andb_true_intro. split; [by apply bool_decide_eq_true|].
    apply existsb_exists. exists d. split; [by apply list_elem_of_In|].
    apply andb_true_intro; split; [|by apply reachable_or_adjacent].
    apply andb_true_intro; split; [|done].
    apply andb_true_intro; split; [|done].
    by apply directions_nonzero.
Qed.

End Accessibility.

(** ** The requests of a command *)

Section Requests.
Import Commands.
Variable apply_action : Action -> World -> World.
Variable plate_cost : Z.

(** The bot a request is made for. *)
Definition request_bot (a : Action) : Z :=
  match a with
  | Act_move b _ _ | Act_buy b _ _ _ | Act_place b _ _ | Act_pickup b _ _
  | Act_chop b _ _ | Act_take_from_pan b _ _ | Act_add_food_to_plate b _ _
  | Act_submit b _ _ | Act_trash b _ _ => b
  end.

(** What a command has observed, in the bot state [bs] and the world
    [w] of the call, when it makes a request. *)
Definition request_guard (c : Command) (w : World) (bs : BotState) (a : Action)
    : Prop :=
  match a with
  | Act_move _ dx dy =>
      ∃ target, bfs_to_adjacent w (bot_pos bs) target = Some (dx, dy)
  | Act_buy _ what x y =>
      holding bs = None ∧ adjacent (bot_pos bs) (x, y) = true
      ∧ buy_attempted c = false
      ∧ match kind c, what with
        | BuyIngredient ft, Some ft' => ft' = ft ∧ buy_cost ft ≤ get_team_money w
        | BuyPlate, None => plate_cost ≤ get_team_money w
        | _, _ => False
        end
  | Act_place _ _ _ => holding bs ≠ None
  | Act_pickup _ x y =>
      kind c = ChopIngredient
      ∨ (holding bs = None ∧ adjacent (bot_pos bs) (x, y) = true)
  | Act_chop _ x y =>
      holding bs = None
      ∧ ∃ f, item (tile_at (get_map w) (x, y)) = Some (ItFood f)
             ∧ chopped f = false
  | Act_take_from_pan _ x y =>
      ∃ f, item (tile_at (get_map w) (x, y)) = Some (ItPan (Some f))
           ∧ cooked_stage f = 1
  | Act_add_food_to_plate _ x y =>
      holds_plate (holding bs) = true
      ∧ ∃ ft, kind c = AddFoodToPlate ft
              ∧ from_option (item_is_food_named (ft_name ft)) false
                  (item (tile_at (get_map w) (x, y))) = true
  | Act_submit _ x y =>
      holds_plate (holding bs) = true ∧ adjacent (bot_pos bs) (x, y) = true
      ∧ submitted c = false
  | Act_trash _ _ _ => False
  end.

Ltac split_cells :=
  repeat match goal with
         | p : Cell |- _ => destruct p
         | p : Step |- _ => destruct p
         | p : (Z * Z)%type |- _ => destruct p
         end.

Ltac close_guard :=
  simpl in *; split_cells; simpl in *;
  repeat match goal with
         | H : _ && _ = true |- _ => apply andb_prop in H as [? ?]
         | H : (_ <? _) = false |- _ => apply Z.ltb_ge in H
         | H : (_ =? _) = true |- _ => apply Z.eqb_eq in H
         | H : negb _ = true |- _ => apply negb_true_iff in H
         | H : negb _ = false |- _ => apply negb_false_iff in H
         end;
  subst; simpl in *;
  first [ done
        | congruence
        | by eauto
        | by split_and!; eauto
        | by left
        | by right; split_and!; eauto ].

Ltac close_request :=
  simplify_eq;
  first [ left; reflexivity
        | right; eexists; split_and!;
          [reflexivity|reflexivity|close_guard|simpl; congruence] ].

Definition is_buy (a : Action) : bool :=
  match a with Act_buy _ _ _ _ => true | _ => false end.

Lemma execute_requests c bot_id ctl :
  match get_bot_state ctl.1 bot_id with
  | None => (execute apply_action plate_cost c bot_id ctl).2 = ctl
  | Some bs =>
      (execute apply_action plate_cost c bot_id ctl).2 = ctl
      ∨ ∃ a, (execute apply_action plate_cost c bot_id ctl).2
               = issue apply_action a ctl
             ∧ request_bot a = bot_id
             ∧ request_guard c ctl.1 bs a
             ∧ (is_buy a = true ->
                buy_attempted (execute apply_action plate_cost c bot_id ctl).1 = true)
  end
  ∧ (buy_attempted c = true ->
     buy_attempted (execute apply_action plate_cost c bot_id ctl).1 = true).
Proof.
  destruct c as [k tc mt ls sc l st r mr fl fb ba sb ifc].
  unfold execute; simpl.
  destruct k; simpl.
  all: unfold execute_buy, execute_chop, execute_cook, execute_start_cooking,
         execute_finish_cooking, execute_store_in_box, execute_place_on_counter,
         execute_pickup_from_box, execute_pickup_plate_from_counter,
         execute_place_in_box, execute_pickup_plate_from_box,
         execute_add_food_to_plate, execute_submit, navigate_to_cooker,
         check_progress, locate, tick, retry_or_fail, retry_or_give_up,
         forget_target, bump_retries, give_up_burned, position_fingerprint,
         move_or_stay, move_toward, item_at, holds_nothing.
  all: simpl.
  all: destruct (get_bot_state ctl.1 bot_id) as [bs|]; simpl; [|done].
  all: repeat (first [progress simpl | case_match]).
  all: split; [|try done].
  all: try close_request.
Qed.

(** *** The requests of a turn *)

Import BotPlayer.
Variable food_types : list FoodType.

(** What the cleanup and disposal code has observed when it makes a
    request. *)
Definition disposal_guard (w : World) (bs : BotState) (a : Action) : Prop :=
  match a with
  | Act_move _ dx dy =>
      ∃ target, bfs_to_adjacent w (bot_pos bs) target = Some (dx, dy)
  | Act_place _ x y =>
      (∃ held, holding bs = Some held ∧ clean_empty_plate held = true)
      ∧ adjacent (bot_pos bs) (x, y) = true
      ∧ plate_spot w (bot_pos bs) = Some (x, y)
  | Act_trash _ x y =>
      (∃ held, holding bs = Some held ∧ clean_empty_plate held = false)
      ∧ adjacent (bot_pos bs) (x, y) = true
      ∧ find_tile w "TRASH" = Some (x, y)
  | Act_pickup _ x y =>
      holding bs = None
      ∧ adjacent (bot_pos bs) (x, y) = true
      ∧ cleanup_target w = Some (x, y)
  | _ => False
  end.

(** A part of a turn makes no request, or one for [bot_id] that passes
    [guard]. *)
Definition one_request (guard : Action -> Prop) (bot_id : Z) (ctl ctl' : Ctl)
    : Prop :=
  ctl' = ctl
  ∨ ∃ a, ctl' = issue apply_action a ctl ∧ request_bot a = bot_id ∧ guard a.

Lemma reach_and_requests act bot_id pos target ctl :
  reach_and apply_action act bot_id pos target ctl = ctl
  ∨ (adjacent pos target = true
     ∧ reach_and apply_action act bot_id pos target ctl = issue apply_action act ctl)
  ∨ (∃ d, bfs_to_adjacent ctl.1 pos target = Some d
          ∧ reach_and apply_action act bot_id pos target ctl
            = issue apply_action (Act_move bot_id d.1 d.2) ctl).
Proof.
  unfold reach_and, move_or_stay, move_toward.
  destruct (adjacent pos target); [by right; left|].
  destruct (bfs_to_adjacent ctl.1 pos target) as [d|]; simpl; [|by left].
  right; right. by exists d.
Qed.

Lemma dispose_held_requests held bs bot_id ctl :
  holding bs = Some held ->
  one_request (disposal_guard ctl.1 bs) bot_id ctl
    (dispose_held apply_action held bs bot_id ctl).
Proof.
  intros Hheld. unfold dispose_held, one_request.
  destruct (clean_empty_plate held) eqn:Hclean.
  - destruct (plate_spot ctl.1 (bot_pos bs)) as [[x y]|] eqn:Hspot; [|by left].
    simpl.
    destruct (reach_and_requests (Act_place bot_id x y) bot_id (bot_pos bs) (x, y) ctl)
      as [->|[[Hadj ->]|([dx dy] & Hbfs & ->)]]; [by left|right..].
    + eexists. split_and!; [done..|]. split_and!; [|done..]. by exists held.
    + eexists. split_and!; [done..|]. by exists (x, y).
  - destruct (find_tile ctl.1 "TRASH") as [[x y]|] eqn:Htrash; [|by left].
    simpl.
    destruct (reach_and_requests (Act_trash bot_id x y) bot_id (bot_pos bs) (x, y) ctl)
      as [->|[[Hadj ->]|([dx dy] & Hbfs & ->)]]; [by left|right..].
    + eexists. split_and!; [done..|]. split_and!; [|done..]. by exists held.
    + eexists. split_and!; [done..|]. by exists (x, y).
Qed.

Lemma cleanup_requests self bot_id ctl :
  match get_bot_state ctl.1 bot_id with
  | None => (cleanup apply_action self bot_id ctl).2 = ctl
  | Some bs =>
      one_request (disposal_guard ctl.1 bs) bot_id ctl
        (cleanup apply_action self bot_id ctl).2
  end.
Proof.
  unfold cleanup, one_request.
  destruct (_ >? max_cleanup_turns);
    [by destruct (get_bot_state ctl.1 bot_id); [left|]|].
  destruct (get_bot_state ctl.1 bot_id) as [bs|]; [|done].
  destruct (holding bs) as [held|] eqn:Hheld.
  - destruct (clean_empty_plate held) eqn:Hclean.
    + destruct (plate_spot ctl.1 (bot_pos bs)) as [[x y]|] eqn:Hspot; [|by left].
      simpl.
      destruct (reach_and_requests (Act_place bot_id x y) bot_id (bot_pos bs) (x, y) ctl)
        as [->|[[Hadj ->]|([dx dy] & Hbfs & ->)]]; [by left|right..].
      * eexists. split_and!; [done..|]. split_and!; [|done..]. by exists held.
      * eexists. split_and!; [done..|]. by exists (x, y).
    + destruct (find_tile ctl.1 "TRASH") as [[x y]|] eqn:Htrash; [|by left].
      simpl.
      destruct (reach_and_requests (Act_trash bot_id x y) bot_id (bot_pos bs) (x, y) ctl)
        as [->|[[Hadj ->]|([dx dy] & Hbfs & ->)]]; [by left|right..].
      * eexists. split_and!; [done..|]. split_and!; [|done..]. by exists held.
      * eexists. split_and!; [done..|]. by exists (x, y).
  - destruct (cleanup_target ctl.1) as [[x y]|] eqn:Htarget; [|by left].
    simpl.
    destruct (reach_and_requests (Act_pickup bot_id x y) bot_id (bot_pos bs) (x, y) ctl)
      as [->|[[Hadj ->]|([dx dy] & Hbfs & ->)]]; [by left|right..].
    + eexists. by split_and!.
    + eexists. split_and!; [done..|]. by exists (x, y).
Qed.

Lemma step_plan_requests self bot_id ctl :
  match get_bot_state ctl.1 bot_id with
  | None => (step_plan apply_action plate_cost self bot_id ctl).2 = ctl
  | Some bs =>
      one_request (λ a, ∃ c, get_current_command self = Some c
                             ∧ request_guard c ctl.1 bs a) bot_id ctl
        (step_plan apply_action plate_cost self bot_id ctl).2
  end.
Proof.
  unfold step_plan, one_request.
  destruct (get_current_command self) as [c|];
    [|by destruct (get_bot_state ctl.1 bot_id); [left|]].
  destruct (is_stuck c);
    [by destruct (get_bot_state ctl.1 bot_id); [left|]|].
  pose proof (execute_requests c bot_id ctl) as [Hreq _].
  destruct (execute apply_action plate_cost c bot_id ctl) as [c' ctl'].
  assert (Hsnd : ∀ a b : BotPlayer * Ctl,
            (if is_complete c' ctl'.1 bot_id then a else b).2
            = if is_complete c' ctl'.1 bot_id then a.2 else b.2)
    by (intros; by destruct (is_complete _ _ _)).
  rewrite Hsnd. simpl in *.
  replace (if is_complete c' ctl'.1 bot_id then ctl' else ctl') with ctl'
    by by destruct (is_complete _ _ _).
  destruct (get_bot_state ctl.1 bot_id) as [bs|]; [|done].
  destruct Hreq as [?|(a & ? & ? & ? & _)]; [by left|right].
  exists a. split_and!; [done..|]. by exists c.
Qed.

(** A turn makes no request, or one request, for the first bot of the
    team, that passes the guard of the cleanup code or that of the
    current command. *)
Lemma play_turn_requests self ctl :
  (play_turn apply_action plate_cost food_types self ctl).2 = ctl
  ∨ ∃ bot_id rest bs a,
      get_team_bot_ids ctl.1 = bot_id :: rest
      ∧ get_bot_state ctl.1 bot_id = Some bs
      ∧ (play_turn apply_action plate_cost food_types self ctl).2
        = issue apply_action a ctl
      ∧ request_bot a = bot_id
      ∧ (disposal_guard ctl.1 bs a ∨ ∃ c, request_guard c ctl.1 bs a).
Proof.
  unfold play_turn.
  destruct (get_team_bot_ids ctl.1) as [|bot_id rest] eqn:Hbots; [by left|].
  set (self1 := match current_order_id self with Some _ => _ | None => _ end).
  clearbody self1.
  destruct (cleaning_workspace self1).
  { pose proof (cleanup_requests self1 bot_id ctl) as Hreq.
    destruct (get_bot_state ctl.1 bot_id) as [bs|] eqn:Hbs; [|by left].
    destruct Hreq as [?|(a & ? & ? & ?)]; [by left|right].
    exists bot_id, rest, bs, a. split_and!; [done..|by left]. }
  case_bool_decide.
  - destruct (get_bot_state ctl.1 bot_id) as [bs|] eqn:Hbs; [|by left].
    destruct (holding bs) as [held|] eqn:Hheld.
    + destruct (dispose_held_requests held bs bot_id ctl Hheld)
        as [?|(a & ? & ? & ?)]; [by left|right].
      exists bot_id, rest, bs, a. split_and!; [done..|by left].
    + unfold select_and_start.
      destruct (collect_candidates _ _ _ _ _) as [processed candidates].
      destruct (choose_best ctl.1 candidates) as [best|]; [|by left].
      case_bool_decide; [by left|].
      pose proof (step_plan_requests
        {| bp_map := bp_map self1;
           command_queue := RecipePlanner.build_commands_for_order food_types
                              (cand_order best) (Some ctl.1);
           current_command_index := 0;
           processed_orders := processed;
           current_order_id := Some (order_id (cand_order best));
           cleaning_workspace := cleaning_workspace self1;
           cleanup_turns := cleanup_turns self1 |} bot_id ctl) as Hreq.
      rewrite Hbs in Hreq.
      destruct Hreq as [?|(a & ? & ? & c & _ & ?)]; [by left|right].
      exists bot_id, rest, bs, a. split_and!; [done..|right; by exists c].
  - pose proof (step_plan_requests self1 bot_id ctl) as Hreq.
    destruct (get_bot_state ctl.1 bot_id) as [bs|] eqn:Hbs; [|by left].
    destruct Hreq as [?|(a & ? & ? & c & _ & ?)]; [by left|right].
    exists bot_id, rest, bs, a. split_and!; [done..|right; by exists c].
Qed.

(** X9.  A turn makes at most one request, and only for the first bot
    of the team, whose state the controller reports: [play_turn] leaves
    the controller as it was or issues exactly one request. *)
Theorem one_request_per_turn self ctl :
  (play_turn apply_action plate_cost food_types self ctl).2 = ctl
  ∨ ∃ a, (play_turn apply_action plate_cost food_types self ctl).2
           = (apply_action a ctl.1, ctl.2 ++ [a])
         ∧ head (get_team_bot_ids ctl.1) = Some (request_bot a)
         ∧ is_Some (get_bot_state ctl.1 (request_bot a)).
Proof.
  destruct (play_turn_requests self ctl)
    as [?|(bot_id & rest & bs & a & Hbots & Hbs & Hreq & Hbot & _)]; [by left|].
  right. exists a. subst bot_id. split_and!; [done| |by exists bs].
  by rewrite Hbots.
Qed.

(** X10.  Every move requested in a turn is a single step to one of the
    eight neighbouring cells, and the cell it leads to lies on the map,
    is walkable, and has no bot of the team standing on it. *)
Theorem moves_are_legal self ctl bot_id dx dy :
  (play_turn apply_action plate_cost food_types self ctl).2.2
    = ctl.2 ++ [Act_move bot_id dx dy] ->
  ∃ bs, get_bot_state ctl.1 bot_id = Some bs
    ∧ chebyshev (move (bot_pos bs) (dx, dy)) (bot_pos bs) = 1
    ∧ Navigator.in_bounds (get_map ctl.1) (move (bot_pos bs) (dx, dy)) = true
    ∧ is_walkable (tile_at (get_map ctl.1) (move (bot_pos bs) (dx, dy))) = true
    ∧ ∀ other bs', other ∈ get_team_bot_ids ctl.1 ->
        get_bot_state ctl.1 other = Some bs' ->
        bot_pos bs' ≠ move (bot_pos bs) (dx, dy).
Proof.
  intros Htrace.
  destruct (play_turn_requests self ctl)
    as [Heq|(b & rest & bs & a & Hbots & Hbs & Hreq & Hbot & Hguard)].
  { rewrite Heq in Htrace. rewrite <- (app_nil_r ctl.2) in Htrace at 1.
    by apply app_inv_head in Htrace. }
  rewrite Hreq in Htrace. simpl in Htrace.
  apply app_inv_head in Htrace. injection Htrace as ->. simpl in Hbot. subst b.
  assert (∃ target, bfs_to_adjacent ctl.1 (bot_pos bs) target = Some (dx, dy))
    as [target Hbfs] by (by destruct Hguard as [?|[c ?]]).
  apply Navigator.bfs_to_adjacent_some in Hbfs as [_ (c & p & Hw & _)].
  inversion Hw as [|? ? ? ? [Hdir Hnz] Hent _]; subst.
  unfold Navigator.enterable in Hent.
  apply andb_prop in Hent as [Hent Hwalk]. apply andb_prop in Hent as [Hinb Hfree].
  exists bs. split_and!; [done| |done..|].
  - destruct bs as [x y h]. unfold chebyshev, move, bot_pos; simpl.
    unfold Navigator.directions in Hdir.
    assert (dx ∈ [-1; 0; 1] ∧ dy ∈ [-1; 0; 1]) as [Hdx Hdy].
    { apply list_elem_of_bind in Hdir as (dx' & Hdir & Hdx).
      apply list_elem_of_bind in Hdir as (dy' & Hdir & Hdy).
      apply list_elem_of_singleton in Hdir. by injection Hdir as -> ->. }
    assert (¬ (dx = 0 ∧ dy = 0)) by (intros [-> ->]; by apply Hnz).
    rewrite !elem_of_cons, elem_of_nil in Hdx, Hdy. lia.
  - intros other bs' Hother Hbs' Hpos.
    apply negb_true_iff, andb_false_iff in Hfree as [Hfree|Hfree].
    + apply bool_decide_eq_false in Hfree. apply Hfree.
      unfold occupied_tiles. apply elem_of_list_to_set, list_elem_of_omap.
      exists other. split; [done|]. by rewrite Hbs'; simpl; rewrite Hpos.
    + apply negb_false_iff, bool_decide_eq_true in Hfree.
      destruct bs as [x y h]. unfold move, bot_pos in Hfree; simpl in Hfree.
      apply Hnz. injection Hfree as ? ?. f_equal; lia.
Qed.

Lemma buys_at_most_once bot_id worlds : ∀ c,
  (length (filter (λ a, is_buy a = true)
             (execute_calls apply_action plate_cost c bot_id worlds).2)
   ≤ if buy_attempted c then 0 else 1)%nat.
Proof.
  induction worlds as [|w ws IH]; intros c; [simpl; case_match; lia|].
  cbn [execute_calls].
  pose proof (execute_requests c bot_id (w, [])) as [Hreq Hkeep].
  destruct (execute apply_action plate_cost c bot_id (w, [])) as [c' ctl'].
  specialize (IH c').
  destruct (execute_calls apply_action plate_cost c' bot_id ws) as [c'' acts].
  simpl in *. rewrite filter_app, length_app.
  assert (Hcases : ctl' = (w, [])
            ∨ ∃ a, ctl' = issue apply_action a (w, [])
                   ∧ (is_buy a = true ->
                      buy_attempted c = false ∧ buy_attempted c' = true)).
  { destruct (get_bot_state w bot_id) as [bs|]; [|by left].
    destruct Hreq as [?|(a & ? & _ & Hguard & Hset)]; [by left|right].
    exists a. split; [done|]. intros Hbuy. split; [|by apply Hset].
    destruct a; try done. by destruct Hguard as (_ & _ & ? & _). }
  destruct Hcases as [->|(a & -> & Hbuy)]; simpl.
  - destruct (buy_attempted c); [rewrite Hkeep in IH by done|]; simpl in *;
      [lia|]. destruct (buy_attempted c'); lia.
  - rewrite filter_cons, filter_nil.
    destruct (decide (is_buy a = true)) as [Ha|Ha]; simpl.
    + destruct (Hbuy Ha) as [-> Hc']. rewrite Hc' in IH. lia.
    + destruct (buy_attempted c); [rewrite Hkeep in IH by done|]; simpl in *;
        [lia|]. destruct (buy_attempted c'); lia.
Qed.

(** X11.  A command requests a purchase only when the bot's hands are
    empty, it stands next to the tile it buys from, the command has not
    requested a purchase before and the team's money covers the price
    of what the command is to buy; the request sets [buy_attempted].
    Over any number of calls a command requests at most one purchase,
    whether or not the purchase succeeded. *)
Theorem purchase_discipline :
  (∀ c bot_id ctl,
     (execute apply_action plate_cost c bot_id ctl).2 = ctl
     ∨ ∃ a, (execute apply_action plate_cost c bot_id ctl).2
              = issue apply_action a ctl
            ∧ match a with
              | Act_buy b what x y =>
                  b = bot_id
                  ∧ (∃ bs, get_bot_state ctl.1 bot_id = Some bs
                       ∧ holding bs = None
                       ∧ adjacent (bot_pos bs) (x, y) = true)
                  ∧ buy_attempted c = false
                  ∧ buy_attempted (execute apply_action plate_cost c bot_id ctl).1
                    = true
                  ∧ match kind c, what with
                    | BuyIngredient ft, Some ft' =>
                        ft' = ft ∧ buy_cost ft ≤ get_team_money ctl.1
                    | BuyPlate, None => plate_cost ≤ get_team_money ctl.1
                    | _, _ => False
                    end
              | _ => True
              end)
  ∧ (∀ c bot_id worlds,
       (length (filter (λ a, is_buy a = true)
                  (execute_calls apply_action plate_cost c bot_id worlds).2)
        ≤ 1)%nat).
Proof.
  split.
  - intros c bot_id ctl.
    pose proof (execute_requests c bot_id ctl) as [Hreq _].
    destruct (get_bot_state ctl.1 bot_id) as [bs|]; [|by left].
    destruct Hreq as [?|(a & Hissue & Hbot & Hguard & Hset)]; [by left|right].
    exists a. split; [done|]. destruct a; try done.
    simpl in Hbot, Hguard. destruct Hguard as (Hempty & Hadj & Hfirst & Hcost).
    split_and!; [done| |done|by apply Hset|done]. by exists bs.
  - intros c bot_id worlds. pose proof (buys_at_most_once bot_id worlds c).
    destruct (buy_attempted c); lia.
Qed.

(** X12.  The request of a turn agrees with what the bot holds: it
    places only with something in hand, trashes only a held item that
    is not a clean empty plate, buys and chops only with empty hands,
    and adds to the plate or submits only with a plate in hand. *)
Theorem requests_agree_with_hands self ctl :
  (play_turn apply_action plate_cost food_types self ctl).2 = ctl
  ∨ ∃ a bs,
      (play_turn apply_action plate_cost food_types self ctl).2
        = issue apply_action a ctl
      ∧ get_bot_state ctl.1 (request_bot a) = Some bs
      ∧ match a with
        | Act_place _ _ _ => holding bs ≠ None
        | Act_trash _ _ _ =>
            ∃ held, holding bs = Some held ∧ clean_empty_plate held = false
        | Act_buy _ _ _ _ | Act_chop _ _ _ => holding bs = None
        | Act_add_food_to_plate _ _ _ | Act_submit _ _ _ =>
            holds_plate (holding bs) = true
        | _ => True
        end.
Proof.
  destruct (play_turn_requests self ctl)
    as [?|(bot_id & rest & bs & a & Hbots & Hbs & Hreq & Hbot & Hguard)];
    [by left|right].
  exists a, bs. subst bot_id. split_and!; [done..|].
  destruct a; simpl in Hguard; try done.
  - by destruct Hguard as [?|[c (? & _)]].
  - destruct Hguard as [((held & Hheld & _) & _)|[c ?]]; [congruence|done].
  - by destruct Hguard as [?|[c (? & _)]].
  - by destruct Hguard as [?|[c (? & _)]].
  - by destruct Hguard as [?|[c (? & _)]].
  - by destruct Hguard as [(? & _)|[c ?]].
Qed.

(** X13.  The request of a turn agrees with what lies on the tile it
    names: food is taken from a pan only at cooked stage exactly 1,
    whichever command asks for it; only unchopped food is chopped; and
    what is added to the plate is food lying on the tile. *)
Theorem requests_agree_with_tiles self ctl :
  (play_turn apply_action plate_cost food_types self ctl).2 = ctl
  ∨ ∃ a,
      (play_turn apply_action plate_cost food_types self ctl).2
        = issue apply_action a ctl
      ∧ match a with
        | Act_take_from_pan _ x y =>
            ∃ f, item (tile_at (get_map ctl.1) (x, y)) = Some (ItPan (Some f))
                 ∧ cooked_stage f = 1
        | Act_chop _ x y =>
            ∃ f, item (tile_at (get_map ctl.1) (x, y)) = Some (ItFood f)
                 ∧ chopped f = false
        | Act_add_food_to_plate _ x y =>
            ∃ f, item (tile_at (get_map ctl.1) (x, y)) = Some (ItFood f)
        | _ => True
        end.
Proof.
  destruct (play_turn_requests self ctl)
    as [?|(bot_id & rest & bs & a & Hbots & Hbs & Hreq & Hbot & Hguard)];
    [by left|right].
  exists a. split; [done|].
  destruct a; simpl in Hguard; try done.
  - by destruct Hguard as [?|[c (_ & ?)]].
  - by destruct Hguard as [?|[c ?]].
  - destruct Hguard as [?|[c (_ & ft & _ & Hitem)]]; [done|].
    destruct (item _) as [[f| |]|]; try done. by exists f.
Qed.


End Requests.

Definition trash_world : World :=
  one_bot_world 10 (kitchen_map 5 3 [((4, 1), station "TRASH" None)])
    (Some (mkBotState 1 1 (Some (ItFood (mkFood "MEAT" false 0))))) [] 0.

Lemma moves_are_legal_witness :
  ∃ bs, get_bot_state trash_world 0 = Some bs
    ∧ chebyshev (move (bot_pos bs) (1, -1)) (bot_pos bs) = 1
    ∧ Navigator.in_bounds (get_map trash_world) (move (bot_pos bs) (1, -1)) = true
    ∧ is_walkable (tile_at (get_map trash_world) (move (bot_pos bs) (1, -1))) = true
    ∧ ∀ other bs', other ∈ get_team_bot_ids trash_world ->
        get_bot_state trash_world other = Some bs' ->
        bot_pos bs' ≠ move (bot_pos bs) (1, -1).
Proof.
  apply (moves_are_legal ignore_requests 2 mock_food_types
           (BotPlayer.new_bot_player (kitchen_map 5 3 [])) (trash_world, []) 0 1 (-1)).
  by vm_compute.
Defined.

(** ** What a compiled plan contains *)

Section PlanContents.
Import Commands RecipePlanner.
Variable food_types : list FoodType.

(** The ingredients a plan buys, and those it adds to the plate, in the
    order of the plan. *)
Definition bought (plan : list Command) : list FoodType :=
  omap (λ c, match kind c with BuyIngredient ft => Some ft | _ => None end) plan.

Definition plated (plan : list Command) : list FoodType :=
  omap (λ c, match kind c with AddFoodToPlate ft => Some ft | _ => None end) plan.

(** The number of commands of a plan whose class passes [p]. *)
Definition count_kind (p : CommandKind -> bool) (plan : list Command) : nat :=
  length (List.filter (λ c, p (kind c)) plan).

Definition is_chop (k : CommandKind) : bool :=
  match k with ChopIngredient => true | _ => false end.
Definition is_cook (k : CommandKind) : bool :=
  match k with CookIngredient => true | _ => false end.
Definition is_start_cooking (k : CommandKind) : bool :=
  match k with StartCooking => true | _ => false end.
Definition is_finish_cooking (k : CommandKind) : bool :=
  match k with FinishCooking _ => true | _ => false end.

Lemma count_kind_app p l1 l2 :
  count_kind p (l1 ++ l2) = (count_kind p l1 + count_kind p l2)%nat.
Proof. unfold count_kind. by rewrite List.filter_app, length_app. Qed.

Lemma strictly_sequential_contents use_box foods :
  bought (strictly_sequential use_box foods) = foods
  ∧ plated (strictly_sequential use_box foods) = foods
  ∧ length (strictly_sequential use_box foods)
    = (5 * length foods + length (List.filter can_chop foods)
       + length (List.filter can_cook foods))%nat
  ∧ count_kind is_chop (strictly_sequential use_box foods)
    = length (List.filter can_chop foods)
  ∧ count_kind is_cook (strictly_sequential use_box foods)
    = length (List.filter can_cook foods)
  ∧ count_kind is_start_cooking (strictly_sequential use_box foods) = 0%nat
  ∧ count_kind is_finish_cooking (strictly_sequential use_box foods) = 0%nat.
Proof.
  unfold strictly_sequential, bought, plated.
  induction foods as [|ft foods (IH1 & IH2 & IH3 & IH4 & IH5 & IH6 & IH7)];
    [done|].
  rewrite bind_cons, !omap_app, !count_kind_app, length_app.
  rewrite IH1, IH2, IH3, IH4, IH5, IH6, IH7. clear.
  unfold item_steps. cbn [List.filter length].
  destruct (can_chop ft), (can_cook ft), use_box; simpl; split_and!;
    try done; lia.
Qed.

Lemma filter_partition {A} (p : A -> bool) (l : list A) :
  List.filter p l ++ List.filter (λ x, negb (p x)) l ≡ₚ l.
Proof.
  induction l as [|x l IH]; [done|]. simpl. destruct (p x); simpl.
  - by f_equiv.
  - by rewrite <- Permutation_middle; f_equiv.
Qed.

Lemma filter_partition_length {A} (p q : A -> bool) (l : list A) :
  length (List.filter q l)
  = (length (List.filter q (List.filter p l))
     + length (List.filter q (List.filter (λ x, negb (p x)) l)))%nat.
Proof.
  induction l as [|x l IH]; [done|]. simpl.
  destruct (p x), (q x) eqn:Hq; simpl; rewrite ?Hq; simpl; lia.
Qed.

Lemma filter_filter_same {A} (p : A -> bool) (l : list A) :
  List.filter p (List.filter p l) = List.filter p l.
Proof.
  induction l as [|x l IH]; [done|]. simpl.
  destruct (p x) eqn:Hp; simpl; rewrite ?Hp; by rewrite ?IH.
Qed.

Lemma filter_filter_neg {A} (p : A -> bool) (l : list A) :
  List.filter p (List.filter (λ x, negb (p x)) l) = [].
Proof.
  induction l as [|x l IH]; [done|]. simpl.
  destruct (p x) eqn:Hp; simpl; rewrite ?Hp; by rewrite ?IH.
Qed.

(** The compiled sequence in its two shapes. *)
Lemma build_commands_shape order controller :
  let use_box := use_box_for_plate controller in
  build_commands_for_order food_types order controller
  = [BuyPlateCommand; stage_plate use_box]
    ++ (if use_parallel_cooking food_types order controller then
          match cooking_foods food_types order with
          | first :: others =>
              BuyIngredientCommand first
                :: (if can_chop first then [ChopIngredientCommand] else [])
                ++ [StartCookingCommand]
                ++ strictly_sequential use_box (non_cooking_foods food_types order)
                ++ [FinishCookingCommand first; PlaceOnCounterCommand;
                    pickup_plate use_box; AddFoodToPlateCommand first;
                    stage_plate use_box]
                ++ strictly_sequential use_box others
          | [] => []
          end
        else strictly_sequential use_box (required_foods food_types order))
    ++ [pickup_plate use_box; SubmitOrderCommand (order_id order)].
Proof.
  intros use_box. unfold build_commands_for_order. fold use_box.
  destruct (use_parallel_cooking food_types order controller); [|done].
  destruct (cooking_foods food_types order) as [|first others] eqn:Hcook; [done|].
  pose proof (Forall_filter_true needs_cooking (required_foods food_types order))
    as Hall.
  fold (cooking_foods food_types order) in Hall. rewrite Hcook in Hall.
  apply Forall_cons in Hall as [Hfirst Hothers].
  rewrite parallel_strategy_spec; [done..|].
  apply (Forall_filter_true (λ f, negb (needs_cooking f))).
Qed.

End PlanContents.

Section PlanAccounting.
Import Commands RecipePlanner.
Variable food_types : list FoodType.

Lemma bought_app l1 l2 : bought (l1 ++ l2) = bought l1 ++ bought l2.
Proof. apply omap_app. Qed.

Lemma plated_app l1 l2 : plated (l1 ++ l2) = plated l1 ++ plated l2.
Proof. apply omap_app. Qed.

Lemma bought_cons c l : bought (c :: l) = bought [c] ++ bought l.
Proof. exact (bought_app [c] l). Qed.

Lemma plated_cons c l : plated (c :: l) = plated [c] ++ plated l.
Proof. exact (plated_app [c] l). Qed.

(** X15.  A compiled plan buys every required ingredient exactly once
    and adds every required ingredient to the plate exactly once: the
    ingredients bought, and those plated, are the required food types
    up to order (and in their order when the plan is sequential). *)
Theorem plan_handles_each_ingredient_once order controller :
  bought (build_commands_for_order food_types order controller)
    ≡ₚ required_foods food_types order
  ∧ plated (build_commands_for_order food_types order controller)
    ≡ₚ required_foods food_types order
  ∧ (use_parallel_cooking food_types order controller = false ->
     bought (build_commands_for_order food_types order controller)
       = required_foods food_types order
     ∧ plated (build_commands_for_order food_types order controller)
       = required_foods food_types order).
Proof.
  rewrite build_commands_shape.
  set (use_box := use_box_for_plate controller).
  destruct (use_parallel_cooking food_types order controller) eqn:Hpar.
  - destruct (cooking_foods food_types order) as [|first others] eqn:Hcook.
    { unfold use_parallel_cooking in Hpar. by rewrite Hcook in Hpar. }
    pose proof (filter_partition needs_cooking (required_foods food_types order))
      as Hperm.
    fold (cooking_foods food_types order) (non_cooking_foods food_types order)
      in Hperm.
    rewrite Hcook in Hperm.
    destruct (strictly_sequential_contents use_box
                (non_cooking_foods food_types order)) as (Hb1 & Hp1 & _).
    destruct (strictly_sequential_contents use_box others) as (Hb2 & Hp2 & _).
    split_and!; [| |done]; rewrite <- Hperm.
    + rewrite !bought_app, (bought_cons (BuyIngredientCommand first)),
        !bought_app, Hb1, Hb2.
      destruct (can_chop first), use_box; simpl; rewrite app_nil_r;
        constructor; apply Permutation_app_comm.
    + rewrite !plated_app, (plated_cons (BuyIngredientCommand first)),
        !plated_app, Hp1, Hp2.
      destruct (can_chop first), use_box; simpl; rewrite app_nil_r;
        rewrite <- Permutation_middle; constructor; apply Permutation_app_comm.
  - destruct (strictly_sequential_contents use_box
                (required_foods food_types order)) as (Hb & Hp & _).
    rewrite !bought_app, !plated_app, Hb, Hp.
    assert (Hends : ∀ l : list FoodType,
              bought [BuyPlateCommand; stage_plate use_box] ++ l
                ++ bought [pickup_plate use_box; SubmitOrderCommand (order_id order)]
              = l
              ∧ plated [BuyPlateCommand; stage_plate use_box] ++ l
                ++ plated [pickup_plate use_box; SubmitOrderCommand (order_id order)]
              = l).
    { intros l. destruct use_box; simpl; by rewrite app_nil_r. }
    destruct (Hends (required_foods food_types order)) as [Hbought Hplated].
    by rewrite Hbought, Hplated.
Qed.

Lemma count_kind_cons p c l :
  count_kind p (c :: l) = (count_kind p [c] + count_kind p l)%nat.
Proof. exact (count_kind_app p [c] l). Qed.

Lemma sequential_plan_never_starts_cooking order controller :
  use_parallel_cooking food_types order controller = false ->
  count_kind is_start_cooking
    (build_commands_for_order food_types order controller) = 0%nat.
Proof.
  intros Hpar. rewrite build_commands_shape, Hpar.
  destruct (strictly_sequential_contents (use_box_for_plate controller)
              (required_foods food_types order))
    as (_ & _ & _ & _ & _ & Hs & _).
  rewrite !count_kind_app, Hs.
  destruct (use_box_for_plate controller); unfold count_kind; simpl; lia.
Qed.

(** X16.  The size of a compiled plan.  It has one chop command for
    every required ingredient that can be chopped and one cooking
    command ([CookIngredient] or [StartCooking]) for every one that can
    be cooked; an interleaved plan has exactly one [StartCooking] and
    one [FinishCooking], a sequential plan none.  In all it has four
    commands for the plate, five for every required ingredient, one for
    every chop and every cook, and one more when it interleaves. *)
Theorem plan_composition order controller :
  let plan := build_commands_for_order food_types order controller in
  let foods := required_foods food_types order in
  let interleaves :=
    if use_parallel_cooking food_types order controller then 1%nat else 0%nat in
  count_kind is_chop plan = length (List.filter can_chop foods)
  ∧ (count_kind is_cook plan + count_kind is_start_cooking plan)%nat
    = length (List.filter can_cook foods)
  ∧ count_kind is_start_cooking plan = interleaves
  ∧ count_kind is_finish_cooking plan = interleaves
  ∧ length plan
    = (4 + 5 * length foods + length (List.filter can_chop foods)
       + length (List.filter can_cook foods) + interleaves)%nat.
Proof.
  intros plan foods interleaves. unfold plan, interleaves.
  rewrite build_commands_shape.
  set (use_box := use_box_for_plate controller).
  destruct (use_parallel_cooking food_types order controller) eqn:Hpar.
  - destruct (cooking_foods food_types order) as [|first others] eqn:Hcook.
    { unfold use_parallel_cooking in Hpar. by rewrite Hcook in Hpar. }
    assert (Hchops : length (List.filter can_chop foods)
              = (length (List.filter can_chop (cooking_foods food_types order))
                 + length (List.filter can_chop
                             (non_cooking_foods food_types order)))%nat)
      by exact (filter_partition_length needs_cooking can_chop foods).
    assert (Hlen : length (cooking_foods food_types order
                           ++ non_cooking_foods food_types order) = length foods)
      by exact (Permutation_length (filter_partition needs_cooking foods)).
    assert (Hsame : List.filter can_cook (cooking_foods food_types order)
                    = cooking_foods food_types order)
      by exact (filter_filter_same needs_cooking foods).
    assert (Hneg : List.filter can_cook (non_cooking_foods food_types order) = [])
      by exact (filter_filter_neg needs_cooking foods).
    assert (Hcooks : List.filter can_cook foods = cooking_foods food_types order)
      by reflexivity.
    rewrite Hcooks. rewrite Hcook in Hchops, Hlen, Hsame |- *.
    rewrite length_app in Hlen. cbn [length] in Hlen |- *.
    assert (Hfirst : can_cook first = true ∧ List.filter can_cook others = others).
    { simpl in Hsame. destruct (can_cook first) eqn:Hf.
      - split; [done|]. by injection Hsame.
      - pose proof (Forall_filter_true can_cook others) as Hall.
        rewrite Hsame in Hall. apply Forall_cons in Hall as [? _]. congruence. }
    destruct Hfirst as [Hfirst Hothers].
    destruct (strictly_sequential_contents use_box
                (non_cooking_foods food_types order))
      as (_ & _ & Hl1 & Hc1 & Hk1 & Hs1 & Hf1).
    destruct (strictly_sequential_contents use_box others)
      as (_ & _ & Hl2 & Hc2 & Hk2 & Hs2 & Hf2).
    rewrite Hothers in Hl2, Hk2. rewrite Hneg in Hl1, Hk1.
    rewrite !length_app, !count_kind_app.
    rewrite (count_kind_cons is_chop (BuyIngredientCommand first)),
      (count_kind_cons is_cook (BuyIngredientCommand first)),
      (count_kind_cons is_start_cooking (BuyIngredientCommand first)),
      (count_kind_cons is_finish_cooking (BuyIngredientCommand first)),
      !count_kind_app.
    cbn [length]. rewrite !length_app.
    rewrite Hl1, Hl2, Hc1, Hc2, Hk1, Hk2, Hs1, Hs2, Hf1, Hf2.
    simpl in Hchops.
    destruct (can_chop first), use_box; unfold count_kind; simpl in *;
      split_and!; lia.
  - destruct (strictly_sequential_contents use_box foods)
      as (_ & _ & Hl & Hc & Hk & Hs & Hf).
    rewrite !length_app, !count_kind_app. fold foods.
    rewrite Hl, Hc, Hk, Hs, Hf.
    destruct use_box; unfold count_kind; simpl; split_and!; lia.
Qed.

(** [food_name in [ft.name for ft in FoodType]] *)
Definition known_name (name : string) : bool :=
  bool_decide (is_Some (lookup_food food_types name)).

Lemma required_foods_known names :
  omap (lookup_food food_types) (List.filter known_name names)
  = omap (lookup_food food_types) names.
Proof.
  induction names as [|n names IH]; [done|]. simpl. unfold known_name at 1.
  destruct (lookup_food food_types n) as [ft|] eqn:Hn; simpl; [|done].
  rewrite Hn. f_equal. exact IH.
Qed.

(** X17.  Names of an order that are not food types are skipped: the
    plan is the one for the order without them.  An order none of
    whose names is a food type (an empty one, for instance) compiles to
    the four plate commands alone. *)
Theorem unknown_names_are_skipped order controller :
  build_commands_for_order food_types order controller
  = build_commands_for_order food_types
      (mkOrder (order_id order) (List.filter known_name (required order))
               (reward order) (penalty order) (expires_turn order)
               (is_active order))
      controller
  ∧ (Forall (λ name, lookup_food food_types name = None) (required order) ->
     build_commands_for_order food_types order controller
     = [BuyPlateCommand; stage_plate (use_box_for_plate controller);
        pickup_plate (use_box_for_plate controller);
        SubmitOrderCommand (order_id order)]).
Proof.
  split.
  - unfold build_commands_for_order, use_parallel_cooking, cooking_foods,
      non_cooking_foods, required_foods. simpl.
    by rewrite required_foods_known.
  - intros Hunknown.
    assert (Hnone : required_foods food_types order = []).
    { unfold required_foods.
      induction Hunknown as [|n names Hn _ IH]; [done|]. simpl. by rewrite Hn. }
    unfold build_commands_for_order, use_parallel_cooking, cooking_foods,
      non_cooking_foods. rewrite Hnone. simpl. done.
Qed.

End PlanAccounting.

(** ** More on the Order Selector *)

Section SelectorOrder.
Import BotPlayer.
Variable plate_cost : Z.
Variable food_types : list FoodType.

#[local] Instance Order_eq_dec : EqDecision Order.
Proof. solve_decision. Defined.
#[local] Instance Candidate_eq_dec : EqDecision Candidate.
Proof. solve_decision. Defined.

(** *** The float quotient *)

Lemma round_half_even_bounds a b :
  0 ≤ a -> 0 < b ->
  a / b ≤ round_half_even a b ≤ a / b + 1.
Proof. intros Ha Hb. unfold round_half_even. repeat case_match; lia. Qed.

Lemma round_half_even_mono a1 b1 a2 b2 :
  0 ≤ a1 -> 0 < b1 -> 0 ≤ a2 -> 0 < b2 ->
  a1 * b2 ≤ a2 * b1 ->
  round_half_even a1 b1 ≤ round_half_even a2 b2.
Proof.
  intros Ha1 Hb1 Ha2 Hb2 Hle.
  pose proof (Z.div_mod a1 b1 ltac:(lia)) as E1.
  pose proof (Z.div_mod a2 b2 ltac:(lia)) as E2.
  pose proof (Z.mod_pos_bound a1 b1 Hb1) as R1.
  pose proof (Z.mod_pos_bound a2 b2 Hb2) as R2.
  assert (Hq : a1 / b1 ≤ a2 / b2).
  { apply Z.div_le_lower_bound; [done|].
    apply (Z.mul_le_mono_pos_l _ _ b1); [done|]. nia. }
  unfold round_half_even.
  set (q1 := a1 / b1) in *. set (q2 := a2 / b2) in *.
  set (r1 := a1 mod b1) in *. set (r2 := a2 mod b2) in *.
  destruct (decide (q1 = q2)) as [Heq|Hne].
  - assert (Hr : r1 * b2 ≤ r2 * b1) by nia.
    rewrite <- Heq.
    destruct (2 * r1 <? b1) eqn:T1; [repeat case_match; lia|].
    apply Z.ltb_ge in T1.
    assert (T2 : b2 ≤ 2 * r2) by nia.
    replace (2 * r2 <? b2) with false by (symmetry; apply Z.ltb_ge; lia).
    destruct (b1 <? 2 * r1) eqn:T3.
    + apply Z.ltb_lt in T3.
      replace (b2 <? 2 * r2) with true by (symmetry; apply Z.ltb_lt; nia). lia.
    + repeat case_match; lia.
  - assert (q1 + 1 ≤ q2) by lia. repeat case_match; lia.
Qed.

Lemma round_half_even_exact n b : 0 < b -> round_half_even (n * b) b = n.
Proof.
  intros Hb. unfold round_half_even.
  rewrite Z.div_mul, Z.mod_mul by lia.
  replace (2 * 0 <? b) with true by (symmetry; apply Z.ltb_lt; lia). done.
Qed.

Lemma round_half_even_le a b n :
  0 ≤ a -> 0 < b -> a ≤ n * b -> round_half_even a b ≤ n.
Proof.
  intros Ha Hb Hle. rewrite <- (round_half_even_exact n b Hb).
  apply round_half_even_mono; try lia. nia.
Qed.

Lemma round_half_even_ge a b n :
  0 ≤ a -> 0 < b -> 0 ≤ n -> n * b ≤ a -> n ≤ round_half_even a b.
Proof.
  intros Ha Hb Hn Hle. rewrite <- (round_half_even_exact n b Hb) at 1.
  apply round_half_even_mono; try lia. nia.
Qed.

Lemma quotient_exponent_spec a b :
  0 < a -> 0 < b ->
  b * 2 ^ Z.max 0 (quotient_exponent a b)
    ≤ a * 2 ^ Z.max 0 (- quotient_exponent a b)
  ∧ a * 2 ^ Z.max 0 (- quotient_exponent a b)
    < 2 * (b * 2 ^ Z.max 0 (quotient_exponent a b)).
Proof.
  intros Ha Hb. unfold quotient_exponent.
  destruct (Z.log2_spec a Ha) as [La Ua]. destruct (Z.log2_spec b Hb) as [Lb Ub].
  pose proof (Z.log2_nonneg a) as Na. pose proof (Z.log2_nonneg b) as Nb.
  rewrite Z.pow_succ_r in Ua, Ub by done.
  set (la := Z.log2 a) in *. set (lb := Z.log2 b) in *.
  set (d := la - lb).
  destruct (decide (0 ≤ d)) as [Hd|Hd].
  - replace (Z.max 0 d) with d by lia. replace (Z.max 0 (- d)) with 0 by lia.
    assert (Hla : 2 ^ la = 2 ^ lb * 2 ^ d).
    { rewrite <- Z.pow_add_r by lia. f_equal. unfold d. lia. }
    pose proof (Z.pow_pos_nonneg 2 d ltac:(lia) Hd) as Pd.
    pose proof (Z.pow_pos_nonneg 2 lb ltac:(lia) Nb) as Plb.
    rewrite Z.pow_0_r, Z.mul_1_r.
    destruct (a <? b * 2 ^ d) eqn:T.
    + apply Z.ltb_lt in T.
      destruct (decide (d = 0)) as [Hd0|Hd0].
      * rewrite Hd0 in *. change (Z.max 0 (0 - 1)) with 0.
        change (Z.max 0 (- (0 - 1))) with 1.
        rewrite Z.pow_0_r in *. rewrite Z.pow_1_r. lia.
      * replace (Z.max 0 (d - 1)) with (d - 1) by lia.
        replace (Z.max 0 (- (d - 1))) with 0 by lia.
        rewrite Z.pow_0_r, Z.mul_1_r.
        assert (Hd2 : 2 ^ d = 2 * 2 ^ (d - 1)).
        { rewrite <- Z.pow_succ_r by lia. f_equal. lia. }
        pose proof (Z.pow_pos_nonneg 2 (d - 1) ltac:(lia) ltac:(lia)) as Pd1.
        rewrite Hd2 in *. set (P := 2 ^ (d - 1)) in *. set (B := 2 ^ lb) in *.
        nia.
    + apply Z.ltb_ge in T.
      replace (Z.max 0 d) with d by lia. replace (Z.max 0 (- d)) with 0 by lia.
      rewrite Z.pow_0_r, Z.mul_1_r.
      set (P := 2 ^ d) in *. set (B := 2 ^ lb) in *. nia.
  - replace (Z.max 0 d) with 0 by lia. replace (Z.max 0 (- d)) with (- d) by lia.
    assert (Hlb : 2 ^ lb = 2 ^ la * 2 ^ (- d)).
    { rewrite <- Z.pow_add_r by lia. f_equal. unfold d. lia. }
    pose proof (Z.pow_pos_nonneg 2 (- d) ltac:(lia) ltac:(lia)) as Pd.
    pose proof (Z.pow_pos_nonneg 2 la ltac:(lia) Na) as Pla.
    rewrite Z.pow_0_r, Z.mul_1_r.
    destruct (a * 2 ^ (- d) <? b) eqn:T.
    + apply Z.ltb_lt in T.
      replace (Z.max 0 (d - 1)) with 0 by lia.
      replace (Z.max 0 (- (d - 1))) with (Z.succ (- d)) by lia.
      rewrite Z.pow_succ_r by lia. rewrite Z.pow_0_r, Z.mul_1_r.
      set (Q := 2 ^ (- d)) in *. set (A := 2 ^ la) in *. nia.
    + apply Z.ltb_ge in T.
      replace (Z.max 0 d) with 0 by lia. replace (Z.max 0 (- d)) with (- d) by lia.
      rewrite Z.pow_0_r, Z.mul_1_r.
      set (Q := 2 ^ (- d)) in *. set (A := 2 ^ la) in *. nia.
Qed.

(** The spacing [2^s] of the doubles around [a / b]: in units of
    [2^-1074] the quotient lies below [2^53] spacings, and from [2^52]
    spacings on in the normal range. *)
Lemma spacing_bounds a b :
  0 < a -> 0 < b ->
  let s := Z.max 0 (quotient_exponent a b + 1022) in
  a * 2 ^ 1074 < 2 ^ 53 * (b * 2 ^ s)
  ∧ (0 < s -> 2 ^ 52 * (b * 2 ^ s) ≤ a * 2 ^ 1074).
Proof.
  intros Ha Hb s. unfold s. clear s.
  destruct (quotient_exponent_spec a b Ha Hb) as [Lo Hi].
  set (e := quotient_exponent a b) in *.
  destruct (decide (0 ≤ e)) as [He|He].
  - replace (Z.max 0 (e + 1022)) with (e + 1022) by lia.
    replace (Z.max 0 e) with e in Lo, Hi by lia.
    replace (Z.max 0 (- e)) with 0 in Lo, Hi by lia.
    rewrite Z.pow_0_r, Z.mul_1_r in Lo, Hi.
    rewrite Z.pow_add_r by lia.
    replace 1074 with (1022 + 52) by lia. rewrite (Z.pow_add_r 2 1022 52) by lia.
    replace (2 ^ 53) with (2 * 2 ^ 52) by (by rewrite <- Z.pow_succ_r by lia).
    pose proof (Z.pow_pos_nonneg 2 e ltac:(lia) He) as Pe.
    pose proof (Z.pow_pos_nonneg 2 1022 ltac:(lia) ltac:(lia)) as P1.
    pose proof (Z.pow_pos_nonneg 2 52 ltac:(lia) ltac:(lia)) as P2.
    set (E := 2 ^ e) in *. set (K := 2 ^ 1022) in *. set (M := 2 ^ 52) in *.
    split; [|intros _]; nia.
  - replace (Z.max 0 e) with 0 in Lo, Hi by lia.
    replace (Z.max 0 (- e)) with (- e) in Lo, Hi by lia.
    rewrite Z.pow_0_r, Z.mul_1_r in Lo, Hi.
    replace (2 ^ 53) with (2 * 2 ^ 52) by (by rewrite <- Z.pow_succ_r by lia).
    pose proof (Z.pow_pos_nonneg 2 52 ltac:(lia) ltac:(lia)) as P2.
    destruct (decide (0 ≤ e + 1022)) as [Hn|Hn].
    + replace (Z.max 0 (e + 1022)) with (e + 1022) by lia.
      replace 1074 with (- e + ((e + 1022) + 52)) by lia.
      rewrite (Z.pow_add_r 2 (- e)) by lia.
      rewrite (Z.pow_add_r 2 (e + 1022) 52) by lia.
      pose proof (Z.pow_pos_nonneg 2 (- e) ltac:(lia) ltac:(lia)) as Pe.
      pose proof (Z.pow_pos_nonneg 2 (e + 1022) ltac:(lia) Hn) as Ps.
      set (E := 2 ^ (- e)) in *. set (S := 2 ^ (e + 1022)) in *.
      set (M := 2 ^ 52) in *.
      split; [|intros _]; nia.
    + replace (Z.max 0 (e + 1022)) with 0 by lia.
      split; [|lia]. rewrite Z.pow_0_r, Z.mul_1_r.
      assert (Hp : 2 ^ 1023 ≤ 2 ^ (- e)) by (apply Z.pow_le_mono_r; lia).
      replace 1074 with (1023 + 51) by lia. rewrite (Z.pow_add_r 2 1023 51) by lia.
      replace (2 ^ 52) with (2 * 2 ^ 51) by (by rewrite <- Z.pow_succ_r by lia).
      pose proof (Z.pow_pos_nonneg 2 51 ltac:(lia) ltac:(lia)) as P3.
      pose proof (Z.pow_pos_nonneg 2 1023 ltac:(lia) ltac:(lia)) as P4.
      set (E := 2 ^ (- e)) in *. set (K := 2 ^ 1023) in *. set (M := 2 ^ 51) in *.
      nia.
Qed.

Lemma nearest_double_nonneg a b : 0 ≤ a -> 0 < b -> 0 ≤ nearest_double a b.
Proof.
  intros Ha Hb. unfold nearest_double. destruct (a =? 0); [done|].
  set (s := Z.max 0 _).
  pose proof (Z.pow_pos_nonneg 2 s ltac:(lia) ltac:(lia)) as Ps.
  pose proof (Z.pow_pos_nonneg 2 1074 ltac:(lia) ltac:(lia)) as Pk.
  assert (Na : 0 ≤ a * 2 ^ 1074) by (apply Z.mul_nonneg_nonneg; lia).
  assert (Nb : 0 < b * 2 ^ s) by (apply Z.mul_pos_pos; lia).
  pose proof (round_half_even_bounds _ _ Na Nb) as [Hlo _].
  pose proof (Z.div_pos _ _ Na Nb).
  apply Z.mul_nonneg_nonneg; lia.
Qed.

(** Rounding to the nearest double is monotone. *)
Lemma nearest_double_mono a1 b1 a2 b2 :
  0 ≤ a1 -> 0 < b1 -> 0 ≤ a2 -> 0 < b2 ->
  a1 * b2 ≤ a2 * b1 ->
  nearest_double a1 b1 ≤ nearest_double a2 b2.
Proof.
  intros Ha1 Hb1 Ha2 Hb2 Hle.
  destruct (decide (a1 = 0)) as [->|Hne1];
    [by apply nearest_double_nonneg|].
  assert (Hpos1 : 0 < a1) by lia. assert (Hpos2 : 0 < a2) by nia.
  unfold nearest_double.
  replace (a1 =? 0) with false by (symmetry; apply Z.eqb_neq; lia).
  replace (a2 =? 0) with false by (symmetry; apply Z.eqb_neq; lia).
  destruct (spacing_bounds a1 b1 Hpos1 Hb1) as [H1 L1].
  destruct (spacing_bounds a2 b2 Hpos2 Hb2) as [H2 L2].
  cbv zeta in H1, L1, H2, L2.
  set (s1 := Z.max 0 (quotient_exponent a1 b1 + 1022)) in *.
  set (s2 := Z.max 0 (quotient_exponent a2 b2 + 1022)) in *.
  assert (Hs1 : 0 ≤ s1) by (unfold s1; lia).
  assert (Hs2 : 0 ≤ s2) by (unfold s2; lia).
  pose proof (Z.pow_pos_nonneg 2 s1 ltac:(lia) Hs1) as P1.
  pose proof (Z.pow_pos_nonneg 2 s2 ltac:(lia) Hs2) as P2.
  pose proof (Z.pow_pos_nonneg 2 1074 ltac:(lia) ltac:(lia)) as Pk.
  pose proof (Z.pow_pos_nonneg 2 52 ltac:(lia) ltac:(lia)) as Pm.
  assert (H53 : 2 ^ 53 = 2 * 2 ^ 52) by (by rewrite <- Z.pow_succ_r by lia).
  rewrite H53 in H1, H2.
  set (K := 2 ^ 1074) in *. set (M := 2 ^ 52) in *.
  assert (Na1 : 0 ≤ a1 * K) by (apply Z.mul_nonneg_nonneg; lia).
  assert (Na2 : 0 ≤ a2 * K) by (apply Z.mul_nonneg_nonneg; lia).
  assert (Nb1 : 0 < b1 * 2 ^ s1) by (apply Z.mul_pos_pos; lia).
  assert (Nb2 : 0 < b2 * 2 ^ s2) by (apply Z.mul_pos_pos; lia).
  assert (C : a1 * K * b2 ≤ a2 * K * b1).
  { replace (a1 * K * b2) with (a1 * b2 * K) by lia.
    replace (a2 * K * b1) with (a2 * b1 * K) by lia.
    apply Z.mul_le_mono_nonneg_r; [lia|done]. }
  destruct (Z.lt_trichotomy s1 s2) as [Hlt|[Heq|Hgt]].
  - (* a higher binade *)
    assert (Hp : 2 * 2 ^ s1 ≤ 2 ^ s2).
    { rewrite <- Z.pow_succ_r by done. apply Z.pow_le_mono_r; lia. }
    assert (R1 : round_half_even (a1 * K) (b1 * 2 ^ s1) ≤ 2 * M)
      by (apply round_half_even_le; lia).
    assert (R2 : M ≤ round_half_even (a2 * K) (b2 * 2 ^ s2)).
    { specialize (L2 ltac:(lia)). apply round_half_even_ge; lia. }
    set (r1 := round_half_even (a1 * K) _) in *.
    set (r2 := round_half_even (a2 * K) _) in *.
    set (S1 := 2 ^ s1) in *. set (S2 := 2 ^ s2) in *.
    apply (Z.le_trans _ (S1 * (2 * M))).
    { apply Z.mul_le_mono_nonneg_l; lia. }
    apply (Z.le_trans _ (S2 * M)).
    { replace (S1 * (2 * M)) with (2 * S1 * M) by lia.
      apply Z.mul_le_mono_nonneg_r; lia. }
    apply Z.mul_le_mono_nonneg_l; lia.
  - (* the same spacing *)
    rewrite <- Heq in *. apply Z.mul_le_mono_nonneg_l; [lia|].
    apply round_half_even_mono; try lia.
    set (S1 := 2 ^ s1) in *.
    replace (a1 * K * (b2 * S1)) with (a1 * K * b2 * S1) by lia.
    replace (a2 * K * (b1 * S1)) with (a2 * K * b1 * S1) by lia.
    apply Z.mul_le_mono_nonneg_r; lia.
  - (* impossible: the smaller quotient cannot lie in a higher binade *)
    exfalso.
    assert (Hp : 2 * 2 ^ s2 ≤ 2 ^ s1).
    { rewrite <- Z.pow_succ_r by done. apply Z.pow_le_mono_r; lia. }
    specialize (L1 ltac:(lia)).
    set (S1 := 2 ^ s1) in *. set (S2 := 2 ^ s2) in *.
    assert (A : M * (b1 * S1) * b2 ≤ a1 * K * b2)
      by (apply Z.mul_le_mono_nonneg_r; lia).
    assert (B : a2 * K * b1 < 2 * M * (b2 * S2) * b1)
      by (apply Z.mul_lt_mono_pos_r; lia).
    assert (D : 2 * M * (b2 * S2) * b1 ≤ M * (b1 * S1) * b2).
    { replace (2 * M * (b2 * S2) * b1) with (M * b1 * b2 * (2 * S2)) by lia.
      replace (M * (b1 * S1) * b2) with (M * b1 * b2 * S1) by lia.
      apply Z.mul_le_mono_nonneg_l; [|done].
      apply Z.mul_nonneg_nonneg; [apply Z.mul_nonneg_nonneg|]; lia. }
    lia.
Qed.

Lemma true_divide_pos a b :
  0 < a -> 0 < b -> true_divide a b = nearest_double a b.
Proof.
  intros Ha Hb. unfold true_divide.
  rewrite !Z.sgn_pos, !Z.abs_eq by lia. lia.
Qed.

(** Some quotients as Python computes them: [1 / 3] is
    [0x1.5555555555555p-2]; [(10^17 - 7) / 35] and [(10^17 - 6) / 35]
    are both [2857142857142857.0]; [-7 / 2] is [-3.5]; and below the
    normal range [1 / 2^1074] is the least positive double, while the
    halves [1 / 2^1075] and [3 / 2^1075] go to their even neighbours. *)
Lemma true_divide_examples :
  true_divide 1 3 = 6004799503160661 * 2 ^ 1020
  ∧ true_divide (10 ^ 17 - 7) 35 = 2857142857142857 * 2 ^ 1074
  ∧ true_divide (10 ^ 17 - 6) 35 = 2857142857142857 * 2 ^ 1074
  ∧ true_divide (-7) 2 = - (7 * 2 ^ 1073)
  ∧ true_divide 1 (2 ^ 1074) = 1
  ∧ true_divide 1 (2 ^ 1075) = 0
  ∧ true_divide 3 (2 ^ 1075) = 2.
Proof. by vm_compute. Qed.

(** *** The sorted candidates *)

Lemma sorts_before_asym late a b :
  sorts_before late a b = true -> sorts_before late b a = false.
Proof.
  unfold sorts_before. destruct late.
  - rewrite orb_true_iff, orb_false_iff, andb_true_iff, andb_false_iff. lia.
  - lia.
Qed.

Lemma sorts_before_trans late a b c :
  sorts_before late a b = true -> sorts_before late b c = true ->
  sorts_before late a c = true.
Proof.
  unfold sorts_before. destruct late.
  - rewrite !orb_true_iff, !andb_true_iff. lia.
  - lia.
Qed.

(** [a] may stand before [b] in the sorted list. *)
Definition ranked (late : bool) (a b : Candidate) : Prop :=
  sorts_before late b a = false.

Lemma insert_sorted_ranked late x l :
  StronglySorted (ranked late) l ->
  StronglySorted (ranked late) (insert_sorted late x l).
Proof.
  intros Hs. induction Hs as [|y l Hs IH Hy]; simpl.
  - repeat constructor.
  - destruct (sorts_before late x y) eqn:Hxy.
    + constructor; [by constructor|].
      constructor; [by apply sorts_before_asym|].
      rewrite Forall_forall in Hy |- *. intros z Hz. unfold ranked.
      destruct (sorts_before late z x) eqn:Hzx; [|done].
      rewrite <- (Hy z Hz). symmetry.
      by apply (sorts_before_trans late z x y).
    + constructor; [by apply IH|].
      rewrite Forall_forall in Hy |- *. intros z Hz.
      apply insert_sorted_elem in Hz as [->|Hz]; [done|by apply Hy].
Qed.

Lemma elem_of_insert_sorted late x l y :
  y ∈ insert_sorted late x l <-> y = x ∨ y ∈ l.
Proof.
  split; [apply insert_sorted_elem|].
  induction l as [|z l IH]; simpl.
  - intros [->|?%elem_of_nil]; [left|done].
  - destruct (sorts_before late x z).
    + intros [->|?]; [left|by right].
    + intros [->|[->|?]%elem_of_cons]; [right; apply IH; by left|left|].
      right. apply IH. by right.
Qed.

Lemma sort_candidates_spec late l :
  StronglySorted (ranked late) (sort_candidates late l)
  ∧ ∀ y, y ∈ sort_candidates late l <-> y ∈ l.
Proof.
  unfold sort_candidates.
  assert (H : ∀ acc,
    StronglySorted (ranked late) acc ->
    StronglySorted (ranked late) (foldl (λ acc x, insert_sorted late x acc) acc l)
    ∧ ∀ y, y ∈ foldl (λ acc x, insert_sorted late x acc) acc l <-> y ∈ acc ∨ y ∈ l).
  { induction l as [|x l IH]; intros acc Hs.
    - split; [done|]. intros y. rewrite elem_of_nil. tauto.
    - cbn [foldl].
      destruct (IH (insert_sorted late x acc)) as [Hs' Hin].
      + by apply insert_sorted_ranked.
      + split; [done|]. intros y.
        rewrite Hin, elem_of_insert_sorted, elem_of_cons. tauto. }
  destruct (H []) as [Hs Hin]; [constructor|].
  split; [done|]. intros y. rewrite Hin, elem_of_nil. tauto.
Qed.

Lemma sorts_before_neg_trans late b y c :
  sorts_before late b y = true -> sorts_before late c y = false ->
  sorts_before late b c = true.
Proof.
  unfold sorts_before. destruct late.
  - rewrite !orb_true_iff, !andb_true_iff, orb_false_iff, andb_false_iff. lia.
  - lia.
Qed.

(** [c] occurs in [l] with no [b] in front of it. *)
Definition stands_before (c b : Candidate) (l : list Candidate) : Prop :=
  ∃ l1 l2, l = l1 ++ c :: l2 ∧ b ∉ l1.

(** Insertion keeps an element in front of those that do not sort
    before it: the sort is stable. *)
Lemma insert_sorted_stands_before late x c b l :
  StronglySorted (ranked late) l ->
  sorts_before late b c = false ->
  stands_before c b l -> stands_before c b (insert_sorted late x l).
Proof.
  intros Hs Hbc (l1 & l2 & -> & Hb). revert Hs Hb.
  induction l1 as [|y l1 IH]; intros Hs Hb; simpl.
  - destruct (sorts_before late x c) eqn:Hxc.
    + exists [x], l2. split; [done|].
      intros Hin. apply list_elem_of_singleton in Hin. subst x. congruence.
    + by exists [], (insert_sorted late x l2).
  - apply not_elem_of_cons in Hb as [Hby Hb].
    inversion Hs as [|? ? Hs' Hy]; subst.
    destruct (sorts_before late x y) eqn:Hxy.
    + exists (x :: y :: l1), l2. split; [done|].
      intros Hin. apply elem_of_cons in Hin as [Hbx|Hin];
        [subst x|apply elem_of_cons in Hin as [?|?]; done].
      rewrite Forall_forall in Hy.
      assert (Hcy : ranked late y c) by (apply Hy; set_solver).
      pose proof (sorts_before_neg_trans late b y c Hxy Hcy). congruence.
    + destruct (IH Hs' Hb) as (m1 & m2 & -> & Hm).
      exists (y :: m1), m2. split; [done|].
      by intros [->|?]%elem_of_cons.
Qed.

Lemma sort_candidates_stable late l1 c l2 b :
  b ∉ l1 -> b ≠ c -> sorts_before late b c = false ->
  stands_before c b (sort_candidates late (l1 ++ c :: l2)).
Proof.
  intros Hb Hne Hbc. unfold sort_candidates.
  rewrite foldl_app. cbn [foldl].
  fold (sort_candidates late l1).
  destruct (sort_candidates_spec late l1) as [Hs1 Hin1].
  assert (H0 : stands_before c b (insert_sorted late c (sort_candidates late l1))).
  { assert (Hc : c ∈ insert_sorted late c (sort_candidates late l1))
      by (apply elem_of_insert_sorted; by left).
    apply list_elem_of_split in Hc as (m1 & m2 & Heq).
    exists m1, m2. split; [done|]. intros Hin.
    assert (Hb' : b ∈ insert_sorted late c (sort_candidates late l1))
      by (rewrite Heq; set_solver).
    apply elem_of_insert_sorted in Hb' as [?|Hb']; [done|].
    by apply Hin1 in Hb'. }
  assert (Hs0 : StronglySorted (ranked late)
                  (insert_sorted late c (sort_candidates late l1)))
    by by apply insert_sorted_ranked.
  revert H0 Hs0. generalize (insert_sorted late c (sort_candidates late l1)).
  induction l2 as [|x l2 IH]; intros acc H0 Hs0; [done|].
  cbn [foldl]. apply IH.
  - by apply insert_sorted_stands_before.
  - by apply insert_sorted_ranked.
Qed.

Lemma find_first {A} (p : A -> bool) (l : list A) x :
  List.find p l = Some x ->
  ∃ l1 l2, l = l1 ++ x :: l2 ∧ p x = true ∧ Forall (λ y, p y = false) l1.
Proof.
  induction l as [|y l IH]; [done|]. simpl.
  destruct (p y) eqn:Hy.
  - intros [= ->]. by exists [], l.
  - intros (l1 & l2 & -> & Hx & Hl1)%IH.
    exists (y :: l1), l2. split_and!; [done..|by constructor].
Qed.

Lemma estimated_turns_positive order : 25 ≤ estimated_turns food_types order.
Proof.
  unfold estimated_turns, cooking_turns, num_ingredients, chopping_count,
    cooking_count.
  repeat case_match; lia.
Qed.

Lemma candidates_positive self w pos c :
  c ∈ (collect_candidates plate_cost food_types self w pos).2 ->
  0 < cand_estimated c ∧ 0 < cand_profit c.
Proof.
  intros Hc. unfold collect_candidates in Hc.
  apply collect_candidates_from in Hc as [?%elem_of_nil|(_ & _ & _ & Hass)];
    [done|].
  pose proof (estimated_turns_positive (cand_order c)).
  unfold assess in Hass. repeat (case_match; try discriminate).
  injection Hass as <-. simpl. lia.
Qed.

(** X18.  The selector picks a best candidate.  Of the candidates that
    leave enough time under the buffer of the turn, none ranks strictly
    before the chosen one: in the late game none has a smaller
    estimate, or the same estimate and a larger profit; otherwise none
    has a larger [profit_per_turn], the float quotient the source sorts
    on.  A candidate whose exact profit per estimated turn is larger
    than that of the chosen one is passed over only when the two
    quotients round to the same double.  And of the candidates of the
    same rank that leave enough time, the first in the order of
    [get_orders] is chosen: the sort is stable. *)
Theorem selected_order_is_best self w pos best c :
  choose_best w (collect_candidates plate_cost food_types self w pos).2 = Some best ->
  c ∈ (collect_candidates plate_cost food_types self w pos).2 ->
  enough_time (buffer_multiplier w) (cand_remaining c) (cand_estimated c) = true ->
  (if late_game w
   then cand_estimated best < cand_estimated c
        ∨ (cand_estimated best = cand_estimated c
           ∧ cand_profit c ≤ cand_profit best)
   else profit_per_turn c ≤ profit_per_turn best
        ∧ (cand_profit best * cand_estimated c < cand_profit c * cand_estimated best ->
           profit_per_turn c = profit_per_turn best))
  ∧ ∀ l1 l2,
      (collect_candidates plate_cost food_types self w pos).2 = l1 ++ c :: l2 ->
      (if late_game w
       then cand_estimated c = cand_estimated best
            ∧ cand_profit c = cand_profit best
       else profit_per_turn c = profit_per_turn best) ->
      best ∈ l1 ∨ best = c.
Proof.
  intros Hbest Hc Htime. unfold choose_best in Hbest.
  destruct (sort_candidates_spec (late_game w)
              (collect_candidates plate_cost food_types self w pos).2)
    as [Hsorted Hsame].
  apply find_first in Hbest as (p1 & p2 & Hl & _ & Hp1).
  assert (Hb : best ∈ (collect_candidates plate_cost food_types self w pos).2).
  { apply Hsame. rewrite Hl. set_solver. }
  destruct (candidates_positive _ _ _ _ Hb) as [Heb Hpb].
  destruct (candidates_positive _ _ _ _ Hc) as [Hec Hpc].
  split.
  - apply Hsame in Hc. rewrite Hl in Hc, Hsorted.
    assert (Hrank : c = best ∨ ranked (late_game w) best c).
    { apply elem_of_app in Hc as [Hc|Hc].
      - rewrite Forall_forall in Hp1. specialize (Hp1 _ Hc). simpl in Hp1. congruence.
      - apply elem_of_cons in Hc as [?|Hc]; [by left|right].
        apply StronglySorted_app_1_r in Hsorted.
        inversion Hsorted as [|? ? _ Hall]; subst.
        rewrite Forall_forall in Hall. by apply Hall. }
    destruct Hrank as [->|Hrank]; [destruct (late_game w); lia|].
    unfold ranked, sorts_before in Hrank. destruct (late_game w).
    + rewrite orb_false_iff, andb_false_iff in Hrank. lia.
    + apply Z.ltb_ge in Hrank. split; [done|]. intros Hexact.
      apply Z.le_antisymm; [done|]. unfold profit_per_turn.
      rewrite !true_divide_pos by done.
      apply nearest_double_mono; lia.
  - intros l1 l2 Hsplit Hrank.
    destruct (decide (best ∈ l1)) as [?|Hnot]; [by left|right].
    destruct (decide (best = c)) as [?|Hne]; [done|exfalso].
    assert (Hbc : sorts_before (late_game w) best c = false).
    { unfold sorts_before. destruct (late_game w).
      - rewrite orb_false_iff, andb_false_iff. lia.
      - lia. }
    pose proof (sort_candidates_stable (late_game w) l1 c l2 best Hnot Hne Hbc)
      as (o1 & o2 & Ho & Hbo).
    rewrite <- Hsplit, Hl in Ho.
    assert (Hco : c ∉ p1).
    { intros Hin. rewrite Forall_forall in Hp1. specialize (Hp1 _ Hin).
      simpl in Hp1. congruence. }
    destruct (Nat.lt_trichotomy (length p1) (length o1)) as [Hlt|[Heq|Hgt]].
    + apply Hbo. apply list_elem_of_lookup. exists (length p1).
      rewrite <- (lookup_app_l o1 (c :: o2)) by lia.
      rewrite <- Ho. by rewrite list_lookup_middle.
    + apply Hne. apply (inj Some).
      rewrite <- (list_lookup_middle p1 p2 best (length p1) eq_refl).
      rewrite Ho. apply list_lookup_middle. lia.
    + apply Hco. apply list_elem_of_lookup. exists (length o1).
      rewrite <- (lookup_app_l p1 (best :: p2)) by lia.
      rewrite Ho. by rewrite list_lookup_middle.
Qed.

Lemma collect_candidates_keeps orders : ∀ self w pos acc cand,
  cand ∈ acc.2 ->
  cand ∈ (foldl (consider plate_cost food_types self w pos) acc orders).2.
Proof.
  induction orders as [|o orders IH]; intros self w pos [processed cands] cand Hin;
    [done|].
  cbn [foldl]. apply IH. unfold consider.
  destruct (is_active o && negb (bool_decide (order_id o ∈ processed))); [|done].
  destruct (assess plate_cost food_types self w pos o); simpl in *; [|done].
  apply elem_of_app. by left.
Qed.

Lemma collect_candidates_covers orders : ∀ self w pos acc o,
  o ∈ orders -> is_active o = true ->
  order_id o ∈ (foldl (consider plate_cost food_types self w pos) acc orders).1
  ∨ ∃ cand,
      cand ∈ (foldl (consider plate_cost food_types self w pos) acc orders).2
      ∧ cand_order cand = o.
Proof.
  induction orders as [|o' orders IH]; intros self w pos [processed cands] o Hin Hact;
    [by apply elem_of_nil in Hin|].
  cbn [foldl]. apply elem_of_cons in Hin as [->|Hin]; [|by apply IH].
  unfold consider at 2 4. rewrite Hact. simpl.
  destruct (bool_decide (order_id o' ∈ processed)) eqn:Hproc; simpl.
  - left. apply bool_decide_eq_true in Hproc.
    by apply (collect_candidates_grows plate_cost food_types orders self w pos
                (processed, cands)).
  - destruct (assess plate_cost food_types self w pos o') as [cand|] eqn:Hass.
    + right. exists cand. split; [|by apply assess_some in Hass as (? & _)].
      apply collect_candidates_keeps. simpl. apply elem_of_app. right. left.
    + left.
      apply (collect_candidates_grows plate_cost food_types orders self w pos
               ({[order_id o']} ∪ processed, cands)).
      simpl. set_solver.
Qed.

Lemma collect_candidates_rejects orders : ∀ self w pos acc id,
  id ∈ (foldl (consider plate_cost food_types self w pos) acc orders).1 ->
  id ∈ acc.1
  ∨ ∃ o, o ∈ orders ∧ order_id o = id ∧ is_active o = true
         ∧ assess plate_cost food_types self w pos o = None.
Proof.
  induction orders as [|o' orders IH]; intros self w pos [processed cands] id Hin;
    [by left|].
  cbn [foldl] in Hin. apply IH in Hin as [Hin|(o & ? & ? & ? & ?)].
  - unfold consider in Hin.
    destruct (is_active o') eqn:Hact; simpl in Hin; [|by left].
    destruct (bool_decide (order_id o' ∈ processed)); simpl in Hin; [by left|].
    destruct (assess plate_cost food_types self w pos o') eqn:Hass; simpl in Hin;
      [by left|].
    apply elem_of_union in Hin as [->%elem_of_singleton|?]; [right|by left].
    exists o'. split_and!; [left|done..].
  - right. exists o. split_and!; [by right|done..].
Qed.

(** X19.  The selection pass accounts for every active order: after
    it, an active order of the turn is a candidate or its id is in the
    processed set.  The processed set only grows, and an id is added
    only for an active order of the turn that failed one of the checks
    (too little time, no reachable cooker or counter, no profit); such
    an order is never considered again. *)
Theorem selection_accounts_for_every_order self w pos :
  (∀ o, o ∈ get_orders w -> is_active o = true ->
     order_id o ∈ (collect_candidates plate_cost food_types self w pos).1
     ∨ ∃ cand, cand ∈ (collect_candidates plate_cost food_types self w pos).2
               ∧ cand_order cand = o)
  ∧ processed_orders self ⊆ (collect_candidates plate_cost food_types self w pos).1
  ∧ (∀ id, id ∈ (collect_candidates plate_cost food_types self w pos).1 ->
       id ∈ processed_orders self
       ∨ ∃ o, o ∈ get_orders w ∧ order_id o = id ∧ is_active o = true
              ∧ assess plate_cost food_types self w pos o = None)
  ∧ (∀ o, o ∈ get_orders w -> is_active o = true ->
       order_id o ∈ (collect_candidates plate_cost food_types self w pos).1 ->
       ∀ self' w' pos',
         (collect_candidates plate_cost food_types self w pos).1
           ⊆ processed_orders self' ->
         ∀ cand, cand ∈ (collect_candidates plate_cost food_types self' w' pos').2 ->
                 order_id (cand_order cand) ≠ order_id o).
Proof.
  unfold collect_candidates. split_and!.
  - intros o Hin Hact. by apply collect_candidates_covers.
  - apply (collect_candidates_grows plate_cost food_types (get_orders w) self w pos
             (processed_orders self, [])).
  - intros id Hin. by apply collect_candidates_rejects in Hin.
  - intros o Hin Hact Hproc self' w' pos' Hsub cand Hcand Heq.
    apply collect_candidates_from in Hcand as [?%elem_of_nil|(_ & _ & Hfresh & _)];
      [done|].
    simpl in Hfresh. rewrite Heq in Hfresh. apply Hfresh. by apply Hsub.
Qed.

Lemma known_foods_length (p : FoodType -> bool) order :
  (length (List.filter p (known_foods food_types order))
   ≤ length (required order))%nat.
Proof.
  unfold known_foods, RecipePlanner.required_foods.
  induction (required order) as [|n names IH]; [done|]. simpl in IH |- *.
  destruct (RecipePlanner.lookup_food food_types n) as [ft|]; simpl;
    [destruct (p ft); simpl|];
    [apply le_n_S; exact IH|apply le_S; exact IH..].
Qed.

(** X20.  The estimate of an order with [n] required names lies
    between [25 + 10 n] and [25 + 45 n] turns, and is [25 + 10 n] when
    nothing is to be chopped or cooked.  In particular it is positive,
    so the profit per turn is always defined. *)
Theorem estimated_turns_bounds order :
  25 + 10 * num_ingredients order ≤ estimated_turns food_types order
  ∧ estimated_turns food_types order ≤ 25 + 45 * num_ingredients order
  ∧ (chopping_count food_types order = 0 -> cooking_count food_types order = 0 ->
     estimated_turns food_types order = 25 + 10 * num_ingredients order)
  ∧ 0 < estimated_turns food_types order.
Proof.
  pose proof (known_foods_length can_chop order) as Hchop.
  pose proof (known_foods_length can_cook order) as Hcook.
  unfold estimated_turns, cooking_turns, num_ingredients, chopping_count,
    cooking_count.
  rewrite Z.gtb_ltb.
  destruct (Z.ltb_spec 0 (Z.of_nat (length (List.filter can_cook
                                      (known_foods food_types order)))));
    [destruct (Z.leb_spec
                 (Z.of_nat (length (required order))
                  - Z.of_nat (length (List.filter can_cook
                                        (known_foods food_types order)))) 1)|];
    split_and!; lia.
Qed.

End SelectorOrder.

(** Two orders whose profits per turn differ but round to the same
    double, [2857142857142857.0]: the stable sort leaves the first in
    front. *)
Definition close_orders : list Order :=
  [mkOrder 1 ["NOODLES"] (10 ^ 17) 0 (Some 200) true;
   mkOrder 2 ["NOODLES"] (10 ^ 17 + 1) 0 (Some 200) true].

Lemma selected_order_is_best_witness :
  BotPlayer.choose_best (two_counter_world 10 close_orders)
    (BotPlayer.collect_candidates 2 mock_food_types
       (BotPlayer.new_bot_player two_counter_kitchen)
       (two_counter_world 10 close_orders) (2, 2)).2
  = Some (BotPlayer.mkCandidate
            (mkOrder 1 ["NOODLES"] (10 ^ 17) 0 (Some 200) true)
            (Some 190) 35 (10 ^ 17) 7 (10 ^ 17 - 7))
  ∧ BotPlayer.profit_per_turn
      (BotPlayer.mkCandidate
         (mkOrder 2 ["NOODLES"] (10 ^ 17 + 1) 0 (Some 200) true)
         (Some 190) 35 (10 ^ 17 + 1) 7 (10 ^ 17 + 1 - 7))
    = BotPlayer.profit_per_turn
        (BotPlayer.mkCandidate
           (mkOrder 1 ["NOODLES"] (10 ^ 17) 0 (Some 200) true)
           (Some 190) 35 (10 ^ 17) 7 (10 ^ 17 - 7)).
Proof.
  assert (H1 : BotPlayer.choose_best (two_counter_world 10 close_orders)
    (BotPlayer.collect_candidates 2 mock_food_types
       (BotPlayer.new_bot_player two_counter_kitchen)
       (two_counter_world 10 close_orders) (2, 2)).2
  = Some (BotPlayer.mkCandidate
            (mkOrder 1 ["NOODLES"] (10 ^ 17) 0 (Some 200) true)
            (Some 190) 35 (10 ^ 17) 7 (10 ^ 17 - 7))) by (vm_compute; reflexivity).
  assert (H2 : BotPlayer.mkCandidate
            (mkOrder 2 ["NOODLES"] (10 ^ 17 + 1) 0 (Some 200) true)
            (Some 190) 35 (10 ^ 17 + 1) 7 (10 ^ 17 + 1 - 7)
    ∈ (BotPlayer.collect_candidates 2 mock_food_types
       (BotPlayer.new_bot_player two_counter_kitchen)
       (two_counter_world 10 close_orders) (2, 2)).2).
  { vm_compute. right. left. }
  split; [exact H1|].
  refine (proj2 (proj1 (selected_order_is_best 2 mock_food_types _ _ _ _ _
                          H1 H2 eq_refl)) _).
  by vm_compute.
Defined.

(** ** More on the Executor loop *)

Section ExecutorInvariants.
Import Commands BotPlayer.
Variable apply_action : Action -> World -> World.
Variable plate_cost : Z.
Variable food_types : list FoodType.

(** What holds of the bookkeeping in every state the executor can
    reach. *)
Definition executor_inv (self : BotPlayer) : Prop :=
  (current_command_index self ≤ length (command_queue self))%nat
  ∧ (is_Some (current_order_id self) ->
     (current_command_index self < length (command_queue self))%nat
     ∧ cleaning_workspace self = false)
  ∧ (cleaning_workspace self = true -> command_queue self = [])
  ∧ 0 ≤ cleanup_turns self ≤ max_cleanup_turns.

Lemma executor_inv_new map_copy : executor_inv (new_bot_player map_copy).
Proof.
  split_and!; simpl; try done; try (by intros [? ?]);
    unfold max_cleanup_turns; lia.
Qed.

Lemma executor_inv_abort self : executor_inv (abort_plan self).
Proof.
  split_and!; simpl; try done; try (by intros [? ?]);
    unfold max_cleanup_turns; lia.
Qed.

Lemma build_commands_nonempty order controller :
  RecipePlanner.build_commands_for_order food_types order controller ≠ [].
Proof. done. Qed.

Lemma executor_inv_step_plan self bot_id ctl :
  executor_inv self ->
  executor_inv (step_plan apply_action plate_cost self bot_id ctl).1.
Proof.
  intros (Hidx & Hbound & Hclean & Hturns). unfold step_plan, get_current_command.
  destruct (command_queue self !! current_command_index self) as [cmd|] eqn:Hcmd.
  2:{ split_and!; simpl; try done; lia. }
  destruct (is_stuck cmd); [apply executor_inv_abort|].
  destruct (execute apply_action plate_cost cmd bot_id ctl) as [cmd' ctl'].
  apply lookup_lt_Some in Hcmd.
  destruct (is_complete cmd' ctl'.1 bot_id); simpl.
  - split_and!; simpl; rewrite ?length_insert; try done; try lia.
    + case_bool_decide; [by intros [? ?]|]. intros Hsome.
      split; [lia|by apply Hbound].
    + intros Hc. rewrite (Hclean Hc) in Hcmd. simpl in Hcmd. lia.
  - split_and!; simpl; rewrite ?length_insert; try done; try lia.
    intros Hc. rewrite (Hclean Hc) in Hcmd. simpl in Hcmd. lia.
Qed.

Lemma executor_inv_cleanup self bot_id ctl :
  executor_inv self -> cleaning_workspace self = true ->
  executor_inv (cleanup apply_action self bot_id ctl).1.
Proof.
  intros (Hidx & Hbound & Hclean & Hturns) Hc.
  assert (Hnone : current_order_id self = None).
  { destruct (current_order_id self) eqn:Ho; [|done].
    destruct Hbound as [_ ?]; [done|congruence]. }
  destruct (cleanup_effect apply_action self bot_id ctl)
    as (Hq & Hi & _ & Ho & Hstill & Hnn).
  unfold executor_inv. rewrite Hq, Hi, Ho, Hnone.
  split_and!; [done|by intros [? ?]|by intros; apply Hclean|apply Hnn; lia|].
  unfold cleanup.
  destruct (cleanup_turns (set_cleanup_turns (cleanup_turns self + 1) self)
            >? max_cleanup_turns) eqn:Hmax; simpl in *.
  - unfold max_cleanup_turns. lia.
  - assert (cleanup_turns self + 1 ≤ max_cleanup_turns) by lia.
    repeat case_match; simpl; lia.
Qed.

Lemma executor_inv_play_turn self ctl :
  executor_inv self ->
  executor_inv (play_turn apply_action plate_cost food_types self ctl).1.
Proof.
  intros Hinv. unfold play_turn.
  destruct (get_team_bot_ids ctl.1) as [|bot_id ?]; [done|].
  set (self1 := match current_order_id self with Some _ => _ | None => _ end).
  assert (H1 : executor_inv self1).
  { unfold self1. destruct (current_order_id self) as [id|]; [|done].
    destruct (order_still_active ctl.1 id); [done|apply executor_inv_abort]. }
  clearbody self1.
  destruct (cleaning_workspace self1) eqn:Hcl; [by apply executor_inv_cleanup|].
  case_bool_decide as Hover; [|by apply executor_inv_step_plan].
  destruct (get_bot_state ctl.1 bot_id) as [bs|]; [|done].
  destruct (holding bs); [done|].
  unfold select_and_start.
  destruct (collect_candidates _ _ _ _ _) as [processed candidates].
  destruct H1 as (Hidx & Hbound & Hclean & Hturns).
  assert (Hnone : current_order_id self1 = None).
  { destruct (current_order_id self1) eqn:Ho; [|done].
    destruct Hbound as [? _]; [done|lia]. }
  destruct (choose_best ctl.1 candidates) as [best|].
  - case_bool_decide as Hempty; [by destruct (build_commands_nonempty _ _ Hempty)|].
    apply executor_inv_step_plan.
    split_and!; simpl; try done; try lia; [|by rewrite Hcl].
    intros _. split; [|done].
    destruct (RecipePlanner.build_commands_for_order _ _ _); [done|simpl; lia].
  - split_and!; simpl; try done; try lia; rewrite Hnone; by intros [? ?].
Qed.

(** X21.  In every state the executor reaches from a fresh bot,
    whatever the engine shows: the command index never runs past the
    end of the queue; while an order is bound there is a current
    command and the bot is not in cleanup mode; in cleanup mode the
    queue is empty; and the cleanup counter stays between 0 and 20. *)
Theorem executor_invariants map_copy history :
  let self := run apply_action plate_cost food_types
                  (new_bot_player map_copy) history in
  (current_command_index self ≤ length (command_queue self))%nat
  ∧ (is_Some (current_order_id self) ->
     is_Some (get_current_command self) ∧ cleaning_workspace self = false)
  ∧ (cleaning_workspace self = true ->
     command_queue self = [] ∧ current_order_id self = None)
  ∧ 0 ≤ cleanup_turns self ≤ 20.
Proof.
  intros self.
  assert (Hinv : executor_inv self).
  { unfold self, run. generalize (executor_inv_new map_copy).
    generalize (new_bot_player map_copy).
    induction history as [|w ws IH]; intros s Hs; [done|].
    cbn [foldl]. apply IH. by apply executor_inv_play_turn. }
  destruct Hinv as (Hidx & Hbound & Hclean & Hturns).
  unfold max_cleanup_turns in Hturns.
  split_and!; [done| | |lia..].
  - intros Hsome. destruct (Hbound Hsome) as [Hlt ?]. split; [|done].
    by apply lookup_lt_is_Some_2.
  - intros Hc. split; [by apply Hclean|].
    destruct (current_order_id self) eqn:Ho; [|done].
    destruct Hbound as [_ ?]; [done|congruence].
Qed.

Lemma release_marks_processed self ctl id :
  executor_inv self ->
  current_order_id self = Some id ->
  current_order_id (play_turn apply_action plate_cost food_types self ctl).1
    ≠ Some id ->
  id ∈ processed_orders (play_turn apply_action plate_cost food_types self ctl).1.
Proof.
  intros (Hidx & Hbound & Hclean & Hturns) Hid. unfold play_turn.
  destruct (get_team_bot_ids ctl.1) as [|bot_id ?]; [done|].
  rewrite Hid. destruct (order_still_active ctl.1 id).
  - destruct (Hbound (mk_is_Some _ _ Hid)) as [Hlt ->].
    rewrite bool_decide_false by lia.
    unfold step_plan, get_current_command.
    destruct (command_queue self !! current_command_index self) as [cmd|] eqn:Hcmd.
    2:{ apply lookup_ge_None in Hcmd. lia. }
    destruct (is_stuck cmd); [simpl; rewrite Hid; set_solver|].
    destruct (execute apply_action plate_cost cmd bot_id ctl) as [cmd' ctl'].
    destruct (is_complete cmd' ctl'.1 bot_id); simpl; [|done].
    rewrite Hid. case_bool_decide; [set_solver|done].
  - intros _. simpl.
    destruct (cleanup_effect apply_action (abort_plan self) bot_id ctl)
      as (_ & _ & -> & _).
    simpl. rewrite Hid. set_solver.
Qed.

Lemma run_executor_inv worlds : ∀ self,
  executor_inv self ->
  executor_inv (run apply_action plate_cost food_types self worlds).
Proof.
  induction worlds as [|w ws IH]; intros self Hinv; [done|].
  apply IH. by apply executor_inv_play_turn.
Qed.

(** X22.  An order is taken up at most once.  When the executor lets
    go of the order it is bound to, because the plan is finished, a
    command is stuck or the order is no longer active, the order id is
    marked processed, and on no later turn, whatever the engine shows,
    is that id bound again or picked by the Order Selector. *)
Theorem order_is_taken_up_at_most_once map_copy history w id later :
  current_order_id
    (run apply_action plate_cost food_types (new_bot_player map_copy) history)
    = Some id ->
  current_order_id
    (run apply_action plate_cost food_types (new_bot_player map_copy)
         (history ++ [w])) ≠ Some id ->
  id ∈ processed_orders
         (run apply_action plate_cost food_types (new_bot_player map_copy)
              (history ++ w :: later))
  ∧ current_order_id
      (run apply_action plate_cost food_types (new_bot_player map_copy)
           (history ++ w :: later)) ≠ Some id
  ∧ ∀ w' pos best,
      choose_best w'
        (collect_candidates plate_cost food_types
           (run apply_action plate_cost food_types (new_bot_player map_copy)
                (history ++ w :: later)) w' pos).2 = Some best ->
      order_id (cand_order best) ≠ id.
Proof.
  unfold run. rewrite !foldl_app. cbn [foldl].
  fold (run apply_action plate_cost food_types (new_bot_player map_copy) history).
  set (self := run apply_action plate_cost food_types (new_bot_player map_copy)
                   history).
  intros Hid Hgone.
  assert (Hinv : executor_inv self)
    by apply run_executor_inv, executor_inv_new.
  assert (Hret : retired id (play_turn apply_action plate_cost food_types self
                               (w, [])).1).
  { split; [|done]. by apply release_marks_processed. }
  pose proof (run_retired apply_action plate_cost food_types id later _ Hret)
    as [Hin Hne].
  unfold run in Hin, Hne. split_and!; [done..|].
  intros w' pos best Hbest Heq.
  destruct (choose_best_spec plate_cost food_types _ w' pos best Hbest)
    as (_ & _ & Hfresh & _).
  by rewrite Heq in Hfresh.
Qed.

(** *** Every plan comes to an end *)

(** The calls a command has left before [is_stuck] stops it, and one
    more. *)
Definition budget (c : Command) : nat :=
  Z.to_nat (max_turns c + 2 - turn_count c).

Definition remaining_budget (self : BotPlayer) : nat :=
  sum_list (budget <$> drop (current_command_index self) (command_queue self)).

Lemma sum_budget_cons c l :
  sum_list (budget <$> c :: l) = (budget c + sum_list (budget <$> l))%nat.
Proof. done. Qed.

Lemma step_plan_progress self bot_id ctl cmd :
  get_current_command self = Some cmd ->
  get_current_command (step_plan apply_action plate_cost self bot_id ctl).1 = None
  ∨ (cleaning_workspace (step_plan apply_action plate_cost self bot_id ctl).1
     = cleaning_workspace self
     ∧ (remaining_budget (step_plan apply_action plate_cost self bot_id ctl).1
        < remaining_budget self)%nat).
Proof.
  intros Hcmd. unfold step_plan. rewrite Hcmd.
  unfold get_current_command in Hcmd.
  destruct (is_stuck cmd) eqn:Hstuck; [by left|].
  pose proof (execute_tracking apply_action plate_cost cmd bot_id ctl)
    as (_ & Hmax & Hcount & _).
  destruct (execute apply_action plate_cost cmd bot_id ctl) as [cmd' ctl'].
  simpl in Hmax, Hcount.
  assert (Hle : turn_count cmd ≤ max_turns cmd).
  { destruct (decide (turn_count cmd ≤ max_turns cmd)); [done|].
    assert (is_stuck cmd = true) by (apply is_stuck_iff; lia). congruence. }
  assert (Hbudget : (budget cmd' < budget cmd)%nat ∧ (0 < budget cmd)%nat).
  { unfold budget. rewrite Hmax, Hcount. lia. }
  assert (Hrest : drop (S (current_command_index self))
                    (<[current_command_index self:=cmd']> (command_queue self))
                  = drop (S (current_command_index self)) (command_queue self))
    by (apply drop_insert_lt; lia).
  assert (Hold : remaining_budget self
            = (budget cmd
               + sum_list (budget <$> drop (S (current_command_index self))
                                        (command_queue self)))%nat).
  { unfold remaining_budget. by rewrite (drop_S _ _ _ Hcmd), sum_budget_cons. }
  right. destruct (is_complete cmd' ctl'.1 bot_id); simpl.
  - split; [done|]. unfold remaining_budget at 1. simpl. rewrite Hrest, Hold. lia.
  - split; [done|]. unfold remaining_budget at 1. simpl.
    rewrite (drop_S _ cmd' (current_command_index self)).
    2:{ apply list_lookup_insert_eq. by apply lookup_lt_Some in Hcmd. }
    rewrite Hrest, Hold, sum_budget_cons. lia.
Qed.

Lemma play_turn_progress self w cmd :
  get_team_bot_ids w ≠ [] ->
  cleaning_workspace self = false ->
  get_current_command self = Some cmd ->
  get_current_command
    (play_turn apply_action plate_cost food_types self (w, [])).1 = None
  ∨ (cleaning_workspace
       (play_turn apply_action plate_cost food_types self (w, [])).1 = false
     ∧ (remaining_budget
          (play_turn apply_action plate_cost food_types self (w, [])).1
        < remaining_budget self)%nat).
Proof.
  intros Hbots Hclean Hcmd. unfold play_turn. simpl.
  destruct (get_team_bot_ids w) as [|bot_id ?]; [done|].
  set (self1 := match current_order_id self with Some _ => _ | None => _ end).
  assert (Hcase : self1 = self ∨ self1 = abort_plan self)
    by (unfold self1; repeat case_match; auto).
  clearbody self1. destruct Hcase as [->| ->].
  - rewrite Hclean.
    rewrite bool_decide_false
      by (unfold get_current_command in Hcmd; apply lookup_lt_Some in Hcmd; lia).
    destruct (step_plan_progress self bot_id (w, []) cmd Hcmd) as [?|[Hc ?]];
      [by left|right]. by rewrite Hc.
  - change (cleaning_workspace (abort_plan self)) with true. cbv iota.
    left. destruct (cleanup_effect apply_action (abort_plan self) bot_id (w, []))
      as (Hq & Hi & _).
    unfold get_current_command. by rewrite Hq, Hi.
Qed.

Lemma plan_is_over_within n : ∀ self worlds,
  cleaning_workspace self = false ->
  Forall (λ w, get_team_bot_ids w ≠ []) worlds ->
  (remaining_budget self ≤ n)%nat -> (n < length worlds)%nat ->
  ∃ k, (k ≤ S n)%nat
       ∧ get_current_command
           (run apply_action plate_cost food_types self (take k worlds)) = None.
Proof.
  induction n as [|n IH]; intros self worlds Hclean Hbots Hle Hlen.
  - destruct (get_current_command self) as [cmd|] eqn:Hcmd;
      [|by exists 0%nat; split; [lia|]].
    destruct worlds as [|w ws]; [simpl in Hlen; lia|].
    apply Forall_cons in Hbots as [Hw _].
    destruct (play_turn_progress self w cmd Hw Hclean Hcmd) as [Hover|[_ Hlt]];
      [|lia].
    exists 1%nat. split; [lia|]. cbn [take]. rewrite take_0. exact Hover.
  - destruct (get_current_command self) as [cmd|] eqn:Hcmd;
      [|by exists 0%nat; split; [lia|]].
    destruct worlds as [|w ws]; [simpl in Hlen; lia|].
    apply Forall_cons in Hbots as [Hw Hws].
    destruct (play_turn_progress self w cmd Hw Hclean Hcmd) as [Hover|[Hc Hlt]].
    + exists 1%nat. split; [lia|]. cbn [take]. rewrite take_0. exact Hover.
    + destruct (IH _ ws Hc Hws) as (k & Hk & Hover); [lia|simpl in Hlen; lia|].
      exists (S k). split; [lia|]. done.
Qed.

(** X23.  Every plan comes to an end.  With the bot out of cleanup
    mode and a team that has a bot, whatever the engine shows, the
    executor is without a current command after at most one turn more
    than the calls its remaining commands have left (for each, its
    ceiling plus two, less the calls made): the plan is finished or
    given up.  For a newly compiled plan that is at most 152 turns
    for each command. *)
Theorem plan_is_over_in_time :
  (∀ self worlds,
     cleaning_workspace self = false ->
     Forall (λ w, get_team_bot_ids w ≠ []) worlds ->
     (remaining_budget self < length worlds)%nat ->
     ∃ k, (k ≤ S (remaining_budget self))%nat
          ∧ get_current_command
              (run apply_action plate_cost food_types self (take k worlds)) = None)
  ∧ (∀ order controller,
       Forall (λ c, turn_count c = 0 ∧ 30 ≤ max_turns c ≤ 150
                    ∧ is_stuck c = false)
         (RecipePlanner.build_commands_for_order food_types order controller)
       ∧ (sum_list (budget <$>
            RecipePlanner.build_commands_for_order food_types order controller)
          ≤ 152 * length
              (RecipePlanner.build_commands_for_order food_types order controller))%nat).
Proof.
  split.
  - intros self worlds Hclean Hbots Hlen.
    by apply (plan_is_over_within (remaining_budget self)).
  - intros order controller.
    assert (Hfresh :
      Forall (λ c, turn_count c = 0 ∧ 30 ≤ max_turns c ≤ 150
                   ∧ is_stuck c = false)
        (RecipePlanner.build_commands_for_order food_types order controller)).
    { apply Forall_forall. intros c Hc. rewrite build_commands_shape in Hc.
      cbv zeta in Hc.
      assert (Hseq : ∀ use_box foods c,
        c ∈ strictly_sequential use_box foods ->
        turn_count c = 0 ∧ 30 ≤ max_turns c ≤ 150 ∧ is_stuck c = false).
      { intros use_box foods c' Hc'.
        apply list_elem_of_bind in Hc' as (ft & Hc' & _). unfold item_steps in Hc'.
        destruct (can_chop ft), (can_cook ft), use_box; simpl in Hc';
          repeat (apply elem_of_cons in Hc' as [->|Hc']; [by vm_compute|]);
          by apply elem_of_nil in Hc'. }
      destruct (RecipePlanner.use_parallel_cooking food_types order controller);
        [destruct (RecipePlanner.cooking_foods food_types order) as [|first others];
         [|destruct (can_chop first)]|];
        destruct (RecipePlanner.use_box_for_plate controller);
        repeat match goal with
               | H : _ ∨ _ |- _ => destruct H
               | H : _ ∈ _ ++ _ |- _ => apply elem_of_app in H
               | H : _ ∈ _ :: _ |- _ => apply elem_of_cons in H
               | H : _ ∈ [] |- _ => by apply elem_of_nil in H
               | H : _ ∈ strictly_sequential _ _ |- _ => exact (Hseq _ _ _ H)
               end;
        subst; by vm_compute. }
    split; [done|].
    induction Hfresh as [|c plan (Hcount & Hmax & _) _ IH]; [done|].
    rewrite sum_budget_cons. cbn [length]. unfold budget at 1. rewrite Hcount.
    lia.
Qed.

(** *** The queue is a compiled plan *)

(** The queue is empty, or it is, class by class, the plan compiled for
    an order shown on one of the turns of [history], and that order is
    the bound one. *)
Definition compiled_from (history : list World) (self : BotPlayer) : Prop :=
  command_queue self = []
  ∨ ∃ w order,
      w ∈ history ∧ order ∈ get_orders w
      ∧ kind <$> command_queue self
        = kind <$> RecipePlanner.build_commands_for_order food_types order (Some w)
      ∧ ∀ id, current_order_id self = Some id -> id = order_id order.

Lemma compiled_from_later history w self :
  compiled_from history self -> compiled_from (history ++ [w]) self.
Proof.
  intros [?|(w0 & order & ? & ? & ? & ?)]; [by left|right].
  exists w0, order. split_and!; [|done..]. apply elem_of_app. by left.
Qed.

Lemma step_plan_compiled history self bot_id ctl :
  compiled_from history self ->
  compiled_from history (step_plan apply_action plate_cost self bot_id ctl).1.
Proof.
  intros Hfrom. unfold step_plan.
  destruct (get_current_command self) as [cmd|] eqn:Hcmd.
  2:{ destruct Hfrom as [?|(w0 & order & ? & ? & ? & ?)]; [by left|right].
      exists w0, order. by split_and!. }
  destruct (is_stuck cmd); [by left|].
  pose proof (execute_tracking apply_action plate_cost cmd bot_id ctl)
    as (Hkind & _).
  destruct (execute apply_action plate_cost cmd bot_id ctl) as [cmd' ctl'].
  simpl in Hkind.
  assert (Hkinds : kind <$> <[current_command_index self:=cmd']> (command_queue self)
                   = kind <$> command_queue self).
  { rewrite list_fmap_insert, Hkind. apply list_insert_id.
    unfold get_current_command in Hcmd. by rewrite list_lookup_fmap, Hcmd. }
  destruct Hfrom as [Hnil|(w0 & order & ? & ? & Hplan & Hid)].
  { unfold get_current_command in Hcmd. by rewrite Hnil in Hcmd. }
  right. exists w0, order.
  destruct (is_complete cmd' ctl'.1 bot_id); simpl;
    (split_and!; [done|done|by rewrite Hkinds|]); [|done].
  case_bool_decide; [done|exact Hid].
Qed.

Lemma play_turn_compiled history self w :
  compiled_from history self ->
  compiled_from (history ++ [w])
    (play_turn apply_action plate_cost food_types self (w, [])).1.
Proof.
  intros Hfrom%(compiled_from_later _ w). unfold play_turn. simpl.
  destruct (get_team_bot_ids w) as [|bot_id ?]; [done|].
  set (self1 := match current_order_id self with Some _ => _ | None => _ end).
  assert (H1 : compiled_from (history ++ [w]) self1).
  { unfold self1. destruct (current_order_id self) as [id|]; [|done].
    destruct (order_still_active w id); [done|by left]. }
  clearbody self1.
  destruct (cleaning_workspace self1).
  { destruct (cleanup_effect apply_action self1 bot_id (w, [])) as (Hq & _ & _ & Ho & _).
    unfold compiled_from. by rewrite Hq, Ho. }
  case_bool_decide; [|by apply step_plan_compiled].
  destruct (get_bot_state w bot_id) as [bs|]; [|done].
  destruct (holding bs); [done|].
  unfold select_and_start.
  pose proof (choose_best_spec plate_cost food_types self1 w (bot_pos bs)) as Hbest.
  simpl. destruct (collect_candidates _ _ _ _ _) as [processed candidates].
  simpl in Hbest.
  destruct (choose_best w candidates) as [best|].
  - destruct (Hbest best eq_refl) as (Hin & _).
    assert (Hstarted : ∀ cleaning turns,
      compiled_from (history ++ [w])
        {| bp_map := bp_map self1;
           command_queue := RecipePlanner.build_commands_for_order food_types
                              (cand_order best) (Some w);
           current_command_index := 0;
           processed_orders := processed;
           current_order_id := Some (order_id (cand_order best));
           cleaning_workspace := cleaning;
           cleanup_turns := turns |}).
    { intros cleaning turns. right. exists w, (cand_order best).
      split_and!; [apply elem_of_app; right; left|done|done|].
      simpl. by intros id [= <-]. }
    try (case_bool_decide; [apply Hstarted|]).
    apply step_plan_compiled, Hstarted.
  - destruct H1 as [?|(w0 & order & ? & ? & ? & ?)]; [by left|right].
    exists w0, order. by split_and!.
Qed.

(** X24.  The executor only ever works on plans of the Plan Compiler.
    In every state it reaches from a fresh bot the queue is empty, or
    it is, class by class and in order, the plan compiled for an order
    that was shown on one of the turns played, and the bound order, if
    any, is that order: executing commands never adds, drops, reorders
    or replaces them. *)
Theorem queue_is_a_compiled_plan map_copy history :
  let self := run apply_action plate_cost food_types
                  (new_bot_player map_copy) history in
  command_queue self = []
  ∨ ∃ w order,
      w ∈ history ∧ order ∈ get_orders w
      ∧ kind <$> command_queue self
        = kind <$> RecipePlanner.build_commands_for_order food_types order (Some w)
      ∧ ∀ id, current_order_id self = Some id -> id = order_id order.
Proof.
  intros self.
  assert (Hrun : ∀ worlds s hist,
    compiled_from hist s ->
    compiled_from (hist ++ worlds)
      (run apply_action plate_cost food_types s worlds)).
  { induction worlds as [|w ws IH]; intros s hist Hs;
      [by rewrite app_nil_r|].
    rewrite (cons_middle w hist ws), app_assoc. apply IH.
    by apply play_turn_compiled. }
  apply (Hrun history (new_bot_player map_copy) []). by left.
Qed.

End ExecutorInvariants.

Lemma order_is_taken_up_at_most_once_witness :
  1 ∈ BotPlayer.processed_orders
        (BotPlayer.run ignore_requests 2 mock_food_types
           (BotPlayer.new_bot_player two_counter_kitchen)
           ([two_counter_world 10 test_orders]
              ++ order_gone_holding_world :: [two_counter_world 231 test_orders])).
Proof.
  refine (proj1 (order_is_taken_up_at_most_once ignore_requests 2 mock_food_types
            two_counter_kitchen [two_counter_world 10 test_orders]
            order_gone_holding_world 1 [two_counter_world 231 test_orders] _ _)).
  - vm_compute. reflexivity.
  - vm_compute. discriminate.
Defined.

(** ** The state machines of the commands *)

Section StateMachines.
Import Commands BotPlayer.
Variable apply_action : Action -> World -> World.
Variable plate_cost : Z.
Variable food_types : list FoodType.

(** The states in which [execute] unpacks the remembered tile
    ([cx, cy = self.counter_loc] and the like) without testing it. *)
Definition needs_target (k : CommandKind) (s : CmdState) : bool :=
  match k, s with
  | ChopIngredient, (St_placing | St_chopping | St_picking_up)
  | CookIngredient, (St_placing | St_cooking | St_picking_up)
  | StartCooking, St_placing
  | FinishCooking _, (St_navigating | St_picking_up)
  | AddFoodToPlate _, St_adding => true
  | _, _ => false
  end.

(** In such a state the tile is set; in ["adding"] the food count
    compared with is set as well. *)
Definition targeted (c : Command) : Prop :=
  needs_target (kind c) (state c) = true ->
  is_Some (loc c)
  ∧ (state c = St_adding -> is_Some (initial_food_count c)).

(** The arrows of the state machines: the states a call of [execute]
    may leave a command in.  A class without a state machine keeps the
    state it has. *)
Definition may_follow (k : CommandKind) (s : CmdState) : list CmdState :=
  match k, s with
  | ChopIngredient, St_navigating => [St_navigating; St_placing; St_done]
  | ChopIngredient, St_placing => [St_chopping; St_navigating; St_done]
  | ChopIngredient, St_chopping => [St_picking_up; St_placing; St_done]
  | ChopIngredient, St_picking_up => [St_picking_up; St_done]
  | CookIngredient, St_navigating => [St_navigating; St_placing]
  | CookIngredient, St_placing => [St_placing; St_cooking; St_navigating]
  | CookIngredient, St_cooking => [St_cooking; St_picking_up; St_done]
  | CookIngredient, St_picking_up => [St_picking_up; St_done]
  | StartCooking, St_navigating => [St_navigating; St_placing]
  | StartCooking, St_placing => [St_placing; St_done; St_navigating]
  | FinishCooking _, St_waiting => [St_waiting; St_navigating; St_done]
  | FinishCooking _, St_navigating => [St_navigating; St_picking_up]
  | FinishCooking _, St_picking_up => [St_done]
  | AddFoodToPlate _, St_navigating => [St_navigating; St_adding; St_done]
  | AddFoodToPlate _, St_adding => [St_adding; St_navigating; St_done]
  | AddFoodToPlate _, _ => [s; St_done]
  | _, _ => [s]
  end.

Lemma execute_state_machine c bot_id ctl :
  targeted c ->
  targeted (execute apply_action plate_cost c bot_id ctl).1
  ∧ (is_Some (get_bot_state ctl.1 bot_id) ->
     bool_decide (state (execute apply_action plate_cost c bot_id ctl).1
                  ∈ may_follow (kind c) (state c)) = true)
  ∧ (failed c = true ->
     failed (execute apply_action plate_cost c bot_id ctl).1 = true)
  ∧ (food_burned c = true ->
     food_burned (execute apply_action plate_cost c bot_id ctl).1 = true).
Proof.
  destruct c as [k tc mt ls sc l st r mr fl fb ba sb ifc].
  unfold targeted, execute; simpl. intros Hc.
  destruct k; simpl.
  all: unfold execute_buy, execute_chop, execute_cook, execute_start_cooking,
         execute_finish_cooking, execute_store_in_box, execute_place_on_counter,
         execute_pickup_from_box, execute_pickup_plate_from_counter,
         execute_place_in_box, execute_pickup_plate_from_box,
         execute_add_food_to_plate, execute_submit, navigate_to_cooker,
         check_progress, locate, tick, retry_or_fail, retry_or_give_up,
         forget_target, bump_retries, give_up_burned, position_fingerprint,
         move_or_stay, move_toward, item_at, holds_nothing.
  all: simpl.
  all: destruct (get_bot_state ctl.1 bot_id) as [bs|]; simpl;
    [|split_and!; [done|by intros [? ?]|done..]].
  all: repeat (first [progress simpl | case_match]).
  all: simplify_eq; simpl in *.
  all: split_and!; try done.
  all: try (by destruct st).
  all: try (intros _; split; [by eexists|done]).
  all: try (intros _; split; [by eexists|by eexists]).
  all: try (intros _; destruct Hc as [? ?]; [done|]; by split).
  all: try (destruct Hc as [[? ?] ?]; done).
Qed.

(** The constructor of each class. *)
Definition new_command (k : CommandKind) : Command :=
  match k with
  | BuyIngredient ft => BuyIngredientCommand ft
  | BuyPlate => BuyPlateCommand
  | ChopIngredient => ChopIngredientCommand
  | CookIngredient => CookIngredientCommand
  | StartCooking => StartCookingCommand
  | FinishCooking ft => FinishCookingCommand ft
  | StoreInBox => StoreInBoxCommand
  | PlaceOnCounter => PlaceOnCounterCommand
  | PickupFromBox ft => PickupFromBoxCommand ft
  | PickupPlateFromCounter => PickupPlateFromCounterCommand
  | PlaceInBox => PlaceInBoxCommand
  | PickupPlateFromBox => PickupPlateFromBoxCommand
  | AddFoodToPlate ft => AddFoodToPlateCommand ft
  | SubmitOrder id => SubmitOrderCommand id
  end.

Lemma new_command_targeted k : targeted (new_command k).
Proof. by destruct k. Qed.

(** A compiled plan consists of newly constructed commands. *)
Lemma plan_is_newly_constructed order controller :
  Forall (λ c, c = new_command (kind c))
    (RecipePlanner.build_commands_for_order food_types order controller).
Proof.
  apply Forall_forall. intros c Hc. rewrite build_commands_shape in Hc.
  cbv zeta in Hc.
  assert (Hseq : ∀ use_box foods c,
    c ∈ strictly_sequential use_box foods -> c = new_command (kind c)).
  { intros use_box foods c' Hc'.
    apply list_elem_of_bind in Hc' as (ft & Hc' & _). unfold item_steps in Hc'.
    destruct (can_chop ft), (can_cook ft), use_box; simpl in Hc';
      repeat (apply elem_of_cons in Hc' as [->|Hc']; [done|]);
      by apply elem_of_nil in Hc'. }
  destruct (RecipePlanner.use_parallel_cooking food_types order controller);
    [destruct (RecipePlanner.cooking_foods food_types order) as [|first others];
     [|destruct (can_chop first)]|];
    destruct (RecipePlanner.use_box_for_plate controller);
    repeat match goal with
           | H : _ ∨ _ |- _ => destruct H
           | H : _ ∈ _ ++ _ |- _ => apply elem_of_app in H
           | H : _ ∈ _ :: _ |- _ => apply elem_of_cons in H
           | H : _ ∈ [] |- _ => by apply elem_of_nil in H
           | H : _ ∈ strictly_sequential _ _ |- _ => exact (Hseq _ _ _ H)
           end;
    by subst.
Qed.

Lemma step_plan_targeted self bot_id ctl :
  Forall targeted (command_queue self) ->
  Forall targeted
    (command_queue (step_plan apply_action plate_cost self bot_id ctl).1).
Proof.
  intros Hall. unfold step_plan.
  destruct (get_current_command self) as [cmd|] eqn:Hcmd; [|done].
  destruct (is_stuck cmd); [constructor|].
  assert (Hcmd' : targeted (execute apply_action plate_cost cmd bot_id ctl).1).
  { apply execute_state_machine. rewrite Forall_forall in Hall. apply Hall.
    by eapply list_elem_of_lookup_2. }
  destruct (execute apply_action plate_cost cmd bot_id ctl) as [cmd' ctl'].
  destruct (is_complete cmd' ctl'.1 bot_id); simpl; by apply Forall_insert.
Qed.

Lemma play_turn_targeted self ctl :
  Forall targeted (command_queue self) ->
  Forall targeted
    (command_queue (play_turn apply_action plate_cost food_types self ctl).1).
Proof.
  intros Hall. unfold play_turn.
  destruct (get_team_bot_ids ctl.1) as [|bot_id ?]; [done|].
  set (self1 := match current_order_id self with Some _ => _ | None => _ end).
  assert (H1 : Forall targeted (command_queue self1)).
  { unfold self1. destruct (current_order_id self) as [id|]; [|done].
    destruct (order_still_active ctl.1 id); [done|constructor]. }
  clearbody self1.
  destruct (cleaning_workspace self1).
  { destruct (cleanup_effect apply_action self1 bot_id ctl) as (Hq & _).
    by rewrite Hq. }
  case_bool_decide; [|by apply step_plan_targeted].
  destruct (get_bot_state ctl.1 bot_id) as [bs|]; [|done].
  destruct (holding bs); [done|].
  unfold select_and_start.
  destruct (collect_candidates _ _ _ _ _) as [processed candidates].
  destruct (choose_best ctl.1 candidates) as [best|]; [|done].
  assert (Hplan : Forall targeted
            (RecipePlanner.build_commands_for_order food_types (cand_order best)
               (Some ctl.1))).
  { eapply Forall_impl; [apply plan_is_newly_constructed|].
    intros c ->. apply new_command_targeted. }
  case_bool_decide; [done|]. by apply step_plan_targeted.
Qed.

(** X25.  The remembered tile is there when it is unpacked.  A command
    in a state whose code unpacks the target tile without testing it
    (placing, chopping, cooking, picking up, adding; for the
    cook-finishing command also navigating) has the tile set, and in
    ["adding"] the food count it compares with: newly constructed
    commands are so, [execute] keeps them so, and so are all commands
    of the queue in every state the executor reaches from a fresh
    bot. *)
Theorem commands_keep_their_target :
  (∀ k, targeted (new_command k))
  ∧ (∀ c bot_id ctl,
       targeted c -> targeted (execute apply_action plate_cost c bot_id ctl).1)
  ∧ (∀ map_copy history,
       Forall targeted
         (command_queue (run apply_action plate_cost food_types
                             (new_bot_player map_copy) history))).
Proof.
  split_and!.
  - apply new_command_targeted.
  - intros c bot_id ctl Hc. by apply execute_state_machine.
  - intros map_copy history. unfold run.
    assert (Hnew : Forall targeted (command_queue (new_bot_player map_copy)))
      by constructor.
    revert Hnew. generalize (new_bot_player map_copy).
    induction history as [|w ws IH]; intros s Hs; [done|].
    cbn [foldl]. apply IH. by apply play_turn_targeted.
Qed.

(** X26.  The state machines of the commands.  A call of [execute]
    that sees the bot state leaves the command in one of the states
    [may_follow] lists for its class and state: the chop command goes
    navigating, placing, chopping, picking up, done, falling back to
    navigating or placing and giving up from any state; and so on.
    ["done"] is never left, and [failed] and [food_burned] are never
    cleared. *)
Theorem state_machine_arrows c bot_id ctl :
  targeted c ->
  (is_Some (get_bot_state ctl.1 bot_id) ->
   state (execute apply_action plate_cost c bot_id ctl).1
     ∈ may_follow (kind c) (state c))
  ∧ (get_bot_state ctl.1 bot_id = None ->
     state (execute apply_action plate_cost c bot_id ctl).1 = state c)
  ∧ (state c = St_done ->
     state (execute apply_action plate_cost c bot_id ctl).1 = St_done)
  ∧ (failed c = true ->
     failed (execute apply_action plate_cost c bot_id ctl).1 = true)
  ∧ (food_burned c = true ->
     food_burned (execute apply_action plate_cost c bot_id ctl).1 = true).
Proof.
  intros Hc.
  destruct (execute_state_machine c bot_id ctl Hc) as (_ & Hnext & Hfail & Hburn).
  assert (Hnone : get_bot_state ctl.1 bot_id = None ->
            state (execute apply_action plate_cost c bot_id ctl).1 = state c).
  { intros Hbs. unfold execute, execute_buy, execute_chop, execute_cook,
      execute_start_cooking, execute_finish_cooking, execute_store_in_box,
      execute_place_on_counter, execute_pickup_from_box,
      execute_pickup_plate_from_counter, execute_place_in_box,
      execute_pickup_plate_from_box, execute_add_food_to_plate, execute_submit.
    rewrite Hbs. by destruct (kind c). }
  split_and!; [|done| |done..].
  - intros Hbs. exact (bool_decide_eq_true_1 _ (Hnext Hbs)).
  - intros Hdone.
    destruct (get_bot_state ctl.1 bot_id) as [bs|] eqn:Hbs;
      [|by rewrite Hnone].
    assert (Hin : state (execute apply_action plate_cost c bot_id ctl).1
                  ∈ may_follow (kind c) (state c))
      by exact (bool_decide_eq_true_1 _ (Hnext (mk_is_Some _ _ eq_refl))).
    rewrite Hdone in Hin.
    destruct (kind c); simpl in Hin;
      repeat (apply elem_of_cons in Hin as [Hin|Hin]; [done|]);
      by apply elem_of_nil in Hin.
Qed.

End StateMachines.

Lemma state_machine_arrows_witness :
  Commands.state (Commands.execute ignore_requests 2 Commands.ChopIngredientCommand 0
           (empty_kitchen_world, [])).1
    ∈ [Commands.St_navigating; Commands.St_placing; Commands.St_done].
Proof.
  refine (proj1 (state_machine_arrows ignore_requests 2
                   Commands.ChopIngredientCommand 0 (empty_kitchen_world, []) _) _).
  - intros H. vm_compute in H. discriminate.
  - vm_compute. eauto.
Defined.

(** * The older bot ([src/command_bot4.py]) *)

Section PlannerV4.
Import Commands RecipePlanner.
Variable food_types : list FoodType.

(** X27.  The plan compilers of the two bots produce the same classes
    of commands in the same order, except for an order with a cooking
    item and two or more items that need no cooking on a map where the
    plate is staged on a counter: there the older compiler interleaves
    and the newer one does not. *)
Theorem planners_differ_only_on_busy_orders order controller :
  build_command_kinds_v4 food_types order controller
  = kind <$> build_commands_for_order food_types order controller
  <-> ¬ (cooking_foods food_types order ≠ []
         ∧ use_box_for_plate controller = false
         ∧ (1 < length (non_cooking_foods food_types order))%nat).
Proof.
  split.
  - intros Heq (Hcook & Hbox & Hmany).
    assert (Hv4 : StartCooking ∈ build_command_kinds_v4 food_types order controller)
      by by apply interleaving_condition_v4.
    rewrite Heq in Hv4.
    assert (Hseq : use_parallel_cooking food_types order controller = false).
    { unfold use_parallel_cooking.
      replace (Z.of_nat (length (non_cooking_foods food_types order)) <=? 1)
        with false by (symmetry; apply Z.leb_gt; lia).
      by rewrite andb_false_r. }
    pose proof (sequential_plan_never_starts_cooking food_types order controller
                  Hseq) as Hstart.
    apply list_elem_of_fmap in Hv4 as (c & Hkind & Hc).
    unfold count_kind in Hstart.
    assert (Hfilter : c ∈ List.filter (λ c, is_start_cooking (kind c))
                          (build_commands_for_order food_types order controller)).
    { apply list_elem_of_In, filter_In. split; [by apply list_elem_of_In|].
      by rewrite <- Hkind. }
    destruct (List.filter _ _); [by apply elem_of_nil in Hfilter|done].
  - intros Hsame. unfold build_command_kinds_v4, build_commands_for_order.
    replace (use_parallel_cooking_v4 food_types order controller)
      with (use_parallel_cooking food_types order controller); [done|].
    unfold use_parallel_cooking, use_parallel_cooking_v4.
    destruct (bool_decide (cooking_foods food_types order = [])) eqn:Hcook;
      [done|].
    destruct (use_box_for_plate controller) eqn:Hbox; [done|]. simpl.
    apply Z.leb_le. apply bool_decide_eq_false in Hcook.
    destruct (decide (1 < length (non_cooking_foods food_types order))%nat);
      [|lia].
    by destruct Hsame.
Qed.

End PlannerV4.

(** The order selection of [BotPlayer.play_turn] in [command_bot4.py].
    The time checks before the estimate ([has_cooking],
    [min_turns_needed], [num_ingredients], [cooking_count]) are written
    as in [command_bot5.py]. *)
Module SelectorV4.

Record Candidate := mkCandidate {
  cand_order : Order;
  cand_expires : option Z;
  cand_remaining : option Z;
  cand_total_value : Z
}.

Section Selector.
Variable food_types : list FoodType.

(** [num_ingredients * 35 + cooking_count * 30] *)
Definition estimated_turns (order : Order) : Z :=
  BotPlayer.num_ingredients order * 35
  + BotPlayer.cooking_count food_types order * 30.

(** [remaining_turns < estimated_turns * 1.2]; the estimate is a
    multiple of 5, so the product by the float 1.2 is the integer
    [estimated_turns * 12 / 10], and the test is written in tenths. *)
Definition too_complex (remaining : option Z) (estimated : Z) : bool :=
  match remaining with
  | Some r => r * 10 <? estimated * 12
  | None => false
  end.

(** The body of [for order in orders] for an active, unprocessed order:
    [None] when the order is skipped (and marked processed). *)
Definition assess (w : World) (order : Order) : option Candidate :=
  let remaining := BotPlayer.remaining_turns w order in
  if BotPlayer.remaining_below remaining
       (BotPlayer.min_turns_needed food_types order) then None
  else if too_complex remaining (estimated_turns order) then None
  else Some {| cand_order := order; cand_expires := expires_turn order;
               cand_remaining := remaining;
               cand_total_value := reward order + penalty order |}.

Definition consider (w : World) (acc : gset Z * list Candidate) (order : Order)
    : gset Z * list Candidate :=
  let '(processed, candidates) := acc in
  if is_active order && negb (bool_decide (order_id order ∈ processed)) then
    match assess w order with
    | Some cand => (processed, candidates ++ [cand])
    | None => ({[order_id order]} ∪ processed, candidates)
    end
  else acc.

Definition collect_candidates (processed : gset Z) (w : World)
    : gset Z * list Candidate :=
  foldl (consider w) (processed, []) (get_orders w).

(** Expiry turns, [None] standing for [float('inf')]. *)
Definition expiry_min (a b : option Z) : option Z :=
  match a, b with
  | Some x, Some y => Some (Z.min x y)
  | Some x, None => Some x
  | None, _ => b
  end.

Definition expiry_le (a b : option Z) : bool :=
  match a, b with
  | _, None => true
  | None, Some _ => false
  | Some x, Some y => x <=? y
  end.

(** [min(c['expires_turn'] for c in candidate_orders)] *)
Definition earliest_expiry (candidates : list Candidate) : option Z :=
  foldr (λ c acc, expiry_min (cand_expires c) acc) None candidates.

(** [earliest_expiry + 50] *)
Definition deadline_window (candidates : list Candidate) : option Z :=
  (λ e, e + 50) <$> earliest_expiry candidates.

Definition orders_in_window (candidates : list Candidate) : list Candidate :=
  List.filter (λ c, expiry_le (cand_expires c) (deadline_window candidates))
              candidates.

(** [max(orders_in_window, key=lambda c: c['total_value'])]: the first
    of the candidates of greatest value; [None] stands for the
    [ValueError] on an empty list. *)
Definition better (best : option Candidate) (c : Candidate) : option Candidate :=
  match best with
  | None => Some c
  | Some b => if cand_total_value b <? cand_total_value c then Some c else best
  end.

Definition max_by_value (l : list Candidate) : option Candidate :=
  foldl better None l.

(** From [if not candidate_orders: return] to the choice of [best]. *)
Definition choose_best (candidates : list Candidate) : option Candidate :=
  match candidates with
  | [] => None
  | _ => max_by_value (orders_in_window candidates)
  end.

(** The selection block: the processed set after it, with the chosen
    order marked at once, and the order chosen. *)
Definition select (processed : gset Z) (w : World) : gset Z * option Order :=
  let '(processed, candidates) := collect_candidates processed w in
  match choose_best candidates with
  | Some best =>
      ({[order_id (cand_order best)]} ∪ processed, Some (cand_order best))
  | None => (processed, None)
  end.

End Selector.
End SelectorV4.

Section SelectorV4Properties.
Import SelectorV4.
Variable food_types : list FoodType.

Lemma assess_v4_some w order cand :
  assess food_types w order = Some cand ->
  cand_order cand = order
  ∧ cand_expires cand = expires_turn order
  ∧ cand_total_value cand = reward order + penalty order
  ∧ ∀ r, BotPlayer.remaining_turns w order = Some r ->
      BotPlayer.min_turns_needed food_types order ≤ r
      ∧ estimated_turns food_types order * 12 ≤ r * 10.
Proof.
  unfold assess, too_complex, BotPlayer.remaining_below. intros H.
  destruct (BotPlayer.remaining_turns w order) as [r|];
    repeat (case_match; try discriminate);
    injection H as <-; simpl; split_and!; try done;
    intros r' [= <-]; lia.
Qed.

Lemma collect_v4_from orders : ∀ w acc cand,
  cand ∈ (foldl (consider food_types w) acc orders).2 ->
  cand ∈ acc.2
  ∨ (cand_order cand ∈ orders
     ∧ is_active (cand_order cand) = true
     ∧ (order_id (cand_order cand) ∉ acc.1)
     ∧ assess food_types w (cand_order cand) = Some cand).
Proof.
  induction orders as [|o orders IH]; intros w [processed cands] cand Hin;
    [by left|].
  cbn [foldl] in Hin. apply IH in Hin. unfold consider in Hin.
  destruct (is_active o) eqn:Hact; simpl in Hin.
  - destruct (bool_decide (order_id o ∈ processed)) eqn:Hproc; simpl in Hin.
    + destruct Hin as [?|(? & ? & ? & ?)]; [by left|right].
      split_and!; try done. by right.
    + apply bool_decide_eq_false in Hproc.
      destruct (assess food_types w o) as [c|] eqn:Hass; simpl in Hin.
      * destruct Hin as [[?|Heq%list_elem_of_singleton]%elem_of_app|(? & ? & ? & ?)].
        -- by left.
        -- subst cand. right. destruct (assess_v4_some _ _ _ Hass) as (-> & _).
           split_and!; try done. left.
        -- right. split_and!; try done. by right.
      * destruct Hin as [?|(? & ? & Hn & ?)]; [by left|right].
        split_and!; try done; [by right|set_solver].
  - destruct Hin as [?|(? & ? & ? & ?)]; [by left|right].
    split_and!; try done. by right.
Qed.

Lemma earliest_expiry_lower cands c :
  c ∈ cands -> expiry_le (earliest_expiry cands) (cand_expires c) = true.
Proof.
  induction cands as [|c' cands IH]; [by intros ?%elem_of_nil|].
  intros [->|Hin%IH]%elem_of_cons; simpl.
  - destruct (cand_expires c') as [x|], (earliest_expiry cands) as [y|]; simpl;
      try done; lia.
  - destruct (cand_expires c') as [x|], (earliest_expiry cands) as [y|],
      (cand_expires c) as [z|]; simpl in *; try done; lia.
Qed.

Lemma earliest_expiry_attained cands :
  cands ≠ [] -> ∃ c, c ∈ cands ∧ cand_expires c = earliest_expiry cands.
Proof.
  induction cands as [|c cands IH]; [done|]. intros _.
  destruct cands as [|c' cands'].
  - exists c. split; [left|]. simpl. by destruct (cand_expires c).
  - destruct IH as (c0 & Hin & Heq); [done|].
    change (earliest_expiry (c :: c' :: cands'))
      with (expiry_min (cand_expires c) (earliest_expiry (c' :: cands'))).
    rewrite <- Heq.
    destruct (cand_expires c) as [x|] eqn:Hx, (cand_expires c0) as [y|] eqn:Hy;
      simpl.
    + destruct (decide (x ≤ y)).
      * exists c. split; [left|]. rewrite Hx. f_equal. lia.
      * exists c0. split; [by right|]. rewrite Hy. f_equal. lia.
    + exists c. split; [left|done].
    + exists c0. split; [by right|done].
    + exists c0. split; [by right|done].
Qed.

Lemma max_by_value_spec l :
  match max_by_value l with
  | Some b =>
      ∃ l1 l2, l = l1 ++ b :: l2
        ∧ Forall (λ c, cand_total_value c < cand_total_value b) l1
        ∧ Forall (λ c, cand_total_value c ≤ cand_total_value b) l2
  | None => l = []
  end.
Proof.
  unfold max_by_value.
  induction l as [|x l IH] using rev_ind; [done|].
  rewrite foldl_snoc. destruct (foldl better None l) as [b|]; simpl.
  - destruct IH as (l1 & l2 & -> & H1 & H2).
    destruct (cand_total_value b <? cand_total_value x) eqn:Hlt.
    + exists (l1 ++ b :: l2), []. split_and!; [done| |done].
      apply Forall_app. split; [|constructor].
      * eapply Forall_impl; [exact H1|]. simpl. lia.
      * lia.
      * eapply Forall_impl; [exact H2|]. simpl. lia.
    + exists l1, (l2 ++ [x]). split_and!; [by rewrite <- app_assoc|done|].
      apply Forall_app. split; [done|]. constructor; [lia|done].
  - subst l. by exists [], [].
Qed.

Lemma choose_best_v4_spec cands :
  match choose_best cands with
  | Some b =>
      b ∈ cands
      ∧ expiry_le (cand_expires b) (deadline_window cands) = true
      ∧ ∀ c, c ∈ cands ->
          expiry_le (cand_expires c) (deadline_window cands) = true ->
          cand_total_value c ≤ cand_total_value b
  | None => cands = []
  end.
Proof.
  unfold choose_best. destruct cands as [|c0 cands0] eqn:Hcands; [done|].
  rewrite <- Hcands.
  assert (Hne : cands ≠ []) by (by rewrite Hcands). clear Hcands.
  pose proof (max_by_value_spec (orders_in_window cands)) as Hmax.
  destruct (max_by_value (orders_in_window cands)) as [b|].
  - destruct Hmax as (l1 & l2 & Hl & H1 & H2).
    assert (Hb : b ∈ orders_in_window cands) by (rewrite Hl; set_solver).
    apply list_elem_of_In, filter_In in Hb as [Hb Hwin].
    split_and!; [by apply list_elem_of_In|done|].
    intros c Hc Hcw.
    assert (Hin : c ∈ orders_in_window cands)
      by (apply list_elem_of_In, filter_In; split; [by apply list_elem_of_In|done]).
    rewrite Hl in Hin. rewrite Forall_forall in H1, H2.
    apply elem_of_app in Hin as [Hin|[->|Hin]%elem_of_cons];
      [specialize (H1 _ Hin); lia|lia|by apply H2].
  - destruct (earliest_expiry_attained cands Hne) as (c & Hc & Heq).
    assert (Hin : c ∈ orders_in_window cands).
    { apply list_elem_of_In, filter_In. split; [by apply list_elem_of_In|].
      unfold deadline_window. rewrite <- Heq.
      destruct (cand_expires c); simpl; [lia|done]. }
    rewrite Hmax in Hin. by apply elem_of_nil in Hin.
Qed.

(** X28.  The order selection of the older bot.  When candidates exist
    one is always chosen (the [max] is never taken of an empty list).
    The chosen order is an active, unprocessed order of the turn with at
    least its minimum turns and 1.2 times its estimate left; it expires
    at most 50 turns after the candidate that expires first; no
    candidate expiring within that window has a greater value; and it
    is marked processed the moment it is chosen. *)
Theorem v4_selected_order processed w :
  match select food_types processed w with
  | (processed', Some order) =>
      order ∈ get_orders w ∧ is_active order = true
      ∧ (order_id order ∉ processed)
      ∧ order_id order ∈ processed'
      ∧ (∀ r, BotPlayer.remaining_turns w order = Some r ->
           BotPlayer.min_turns_needed food_types order ≤ r
           ∧ estimated_turns food_types order * 12 ≤ r * 10)
      ∧ (∀ c e, c ∈ (collect_candidates food_types processed w).2 ->
           cand_expires c = Some e ->
           ∃ e', expires_turn order = Some e' ∧ e' ≤ e + 50)
      ∧ (∀ c, c ∈ (collect_candidates food_types processed w).2 ->
           expiry_le (cand_expires c)
             (deadline_window (collect_candidates food_types processed w).2)
           = true ->
           cand_total_value c ≤ reward order + penalty order)
  | (processed', None) =>
      (collect_candidates food_types processed w).2 = []
      ∧ processed' = (collect_candidates food_types processed w).1
  end.
Proof.
  unfold select.
  pose proof (choose_best_v4_spec (collect_candidates food_types processed w).2)
    as Hbest.
  pose proof (λ cand, collect_v4_from (get_orders w) w (processed, []) cand)
    as Hfrom.
  fold (collect_candidates food_types processed w) in Hfrom.
  destruct (collect_candidates food_types processed w) as [processed' cands].
  simpl in *.
  destruct (choose_best cands) as [best|]; [|done].
  destruct Hbest as (Hin & Hwin & Hmax).
  destruct (Hfrom best Hin) as [?%elem_of_nil|(Horder & Hact & Hfresh & Hass)];
    [done|].
  destruct (assess_v4_some _ _ _ Hass) as (_ & Hexp & Hval & Htime).
  split_and!; [done..|set_solver|done| |].
  - intros c e Hc He.
    pose proof (earliest_expiry_lower cands c Hc) as Hlow.
    unfold deadline_window in Hwin. rewrite He in Hlow. rewrite Hexp in Hwin.
    destruct (earliest_expiry cands) as [e0|]; [|done]. simpl in Hwin, Hlow.
    destruct (expires_turn (cand_order best)) as [e'|]; [|done].
    exists e'. split; [done|]. simpl in Hwin. lia.
  - intros c Hc Hcw. rewrite <- Hval. by apply Hmax.
Qed.

End SelectorV4Properties.
